(** * Chronow messaging core: a shallow embedding and its properties

    The development follows the TypeScript sources of the repository:
    [src/core/keys.ts], [src/core/codecs.ts], [src/core/time.ts],
    [src/core/mongoAdapter.ts], [src/bus/producer.ts], [src/bus/retry.ts],
    [src/bus/dlq.ts], [src/bus/topics.ts], [src/bus/consumer.ts],
    [src/core/config.ts] and the mode selection of [src/index.ts].

    Conventions.
    - A JavaScript string is a Rocq [string]; [Buffer.byteLength(s, 'utf-8')]
      is its [String.length] (the string is read as its UTF-8 bytes).
    - [Date.now()] and [Math.random()] are explicit arguments.
    - A JavaScript number is a [Z] where the code counts and a [Q] where it
      computes delays.  The result of an arithmetic operation on doubles is
      the double nearest to the exact result; where a statement depends on
      it, that rounding is the operator [fl] of the module [Doubles].
    - A JavaScript object used as a dictionary is a [gmap] of its own
      properties, with its prototype where the code can replace it. *)

From Stdlib Require Import ZArith QArith Qabs Qround Lia Lqa Bool Ascii String
  List Sorted Permutation.
From stdpp Require Import base option list strings gmap fin_maps pretty.

Set Warnings "-register-all".
Local Open Scope string_scope.

(* ===================================================================== *)
(** ** JavaScript values that cross the module boundaries *)
(* ===================================================================== *)

(** The result of [JSON.parse], and what a dictionary slot may hold. *)
Inductive jsval : Type :=
| JUndef
| JNull
| JBool (b : bool)
| JNum (z : Z)
| JStr (s : string)
| JArr (l : list jsval)
| JObj (l : list (string * jsval)).

(** [typeof v === 'string'] *)
Definition is_string (v : jsval) : bool :=
  match v with JStr _ => true | _ => false end.

(* ===================================================================== *)
(** ** src/core/keys.ts *)
(* ===================================================================== *)

Module Keys.

(** [kind: 'sm' | 'topic' | 'sub' | 'retry' | 'dlq'] *)
Inductive Kind : Type := Sm | Topic | Sub | Retry | Dlq.

Definition kind_str (k : Kind) : string :=
  match k with
  | Sm => "sm" | Topic => "topic" | Sub => "sub" | Retry => "retry" | Dlq => "dlq"
  end.

Record KeyParams : Type := mkKeyParams {
  tenantId : string;
  namespace : string;
  kind : Kind;
  name : string
}.

(** [`${keyPrefix}${params.tenantId}:${params.namespace}:${params.kind}:${params.name}`] *)
Definition buildKey (params : KeyParams) (keyPrefix : string) : string :=
  keyPrefix +:+ tenantId params +:+ ":" +:+ namespace params +:+ ":"
            +:+ kind_str (kind params) +:+ ":" +:+ name params.

Definition buildTopicKey (topic tenant ns keyPrefix : string) : string :=
  buildKey (mkKeyParams tenant ns Topic topic) keyPrefix.

(** [`sub:${subscription}`] *)
Definition buildConsumerGroup (subscription : string) : string :=
  "sub:" +:+ subscription.

Definition buildRetryKey (topic subscription tenant ns keyPrefix : string) : string :=
  buildKey (mkKeyParams tenant ns Retry (topic +:+ ":" +:+ subscription)) keyPrefix.

Definition buildDlqKey (topic tenant ns keyPrefix : string) : string :=
  buildKey (mkKeyParams tenant ns Dlq topic) keyPrefix.

(** A string without the separator [':']. *)
Fixpoint colon_free (s : string) : bool :=
  match s with
  | EmptyString => true
  | String c r => negb (Ascii.eqb c ":"%char) && colon_free r
  end.

End Keys.

(* ===================================================================== *)
(** ** src/core/codecs.ts *)
(* ===================================================================== *)

Module Codecs.

(** The prototype of an object made by [{}], as an assignment to the
    property [__proto__] can change it: [Object.prototype] at first, then
    possibly [null], or an object or array that [JSON.parse] returned. *)
Inductive Prototype : Type :=
| ObjectPrototype
| NullPrototype
| ValuePrototype (v : jsval).

(** An object: its own properties and its prototype. *)
Record Obj : Type := mkObj {
  own : gmap string jsval;
  proto : Prototype
}.

(** [{}] *)
Definition empty_obj : Obj := mkObj ∅ ObjectPrototype.

(** Whether an object with the prototype [p] and no own property
    [__proto__] inherits the accessor [__proto__] of [Object.prototype]: not
    below [null], and not below a parsed object that has a property of that
    name itself. *)
Definition inherits_proto_accessor (p : Prototype) : bool :=
  match p with
  | ObjectPrototype => true
  | NullPrototype => false
  | ValuePrototype (JObj l) => negb (bool_decide ("__proto__" ∈ map fst l))
  | ValuePrototype _ => true
  end.

(** [obj[key] = v].  For [key = '__proto__'] reaching the inherited accessor,
    an object, an array or [null] becomes the prototype and any other value
    is ignored; no own property is made.  Every other assignment makes or
    overwrites an own property. *)
Definition assign (key : string) (v : jsval) (o : Obj) : Obj :=
  if bool_decide (key = "__proto__")
     && negb (bool_decide (is_Some (own o !! key)))
     && inherits_proto_accessor (proto o)
  then
    match v with
    | JNull => mkObj (own o) NullPrototype
    | JObj _ | JArr _ => mkObj (own o) (ValuePrototype v)
    | _ => o
    end
  else mkObj (<[key := v]> (own o)) (proto o).

Section WithJSON.

(** [JSON.parse] and [JSON.stringify] are the platform's; [None] stands for
    a thrown [SyntaxError]. *)
Variable JSON_parse : string -> option jsval.
Variable JSON_stringify : jsval -> string.

(** [Object.entries(obj)] on the own properties of [obj]. *)
Definition Object_entries (obj : gmap string jsval) : list (string * jsval) :=
  map_to_list obj.

(** [arr.push(k, typeof v === 'string' ? v : JSON.stringify(v))] for each
    entry. *)
Fixpoint toFlatArray_entries (entries : list (string * jsval)) : list string :=
  match entries with
  | [] => []
  | (k, v) :: rest =>
      k :: (match v with JStr s => s | _ => JSON_stringify v end)
        :: toFlatArray_entries rest
  end.

Definition toFlatArray (obj : gmap string jsval) : list string :=
  toFlatArray_entries (Object_entries obj).

(** [try { obj[key] = JSON.parse(val) } catch { obj[key] = val }] *)
Definition parse_or_keep (val : string) : jsval :=
  match JSON_parse val with
  | Some v => v
  | None => JStr val
  end.

(** The loop [for (let i = 0; i < arr.length; i += 2)].  On an odd array the
    last [val] is [undefined]: [JSON.parse(undefined)] throws and the
    [catch] assigns [undefined]. *)
Fixpoint fromFlatArray_loop (arr : list string) (obj : Obj) : Obj :=
  match arr with
  | [] => obj
  | [key] => assign key JUndef obj
  | key :: val :: rest => fromFlatArray_loop rest (assign key (parse_or_keep val) obj)
  end.

Definition fromFlatArray (arr : list string) : Obj :=
  fromFlatArray_loop arr empty_obj.

(** The text that [toFlatArray] writes for a value. *)
Definition text_of (v : jsval) : string :=
  match v with JStr s => s | _ => JSON_stringify v end.

(** [encodeJson]: the size guard on the encoded value. *)
Definition encodeJson (value : jsval) (maxBytes : nat) : string + string :=
  let json := JSON_stringify value in
  if (maxBytes <? String.length json)%nat
  then inl ("Value exceeds max size: " +:+ pretty (String.length json) +:+ " > "
              +:+ pretty maxBytes +:+ " bytes")
  else inr json.

End WithJSON.

(** A reader of the two literals ["123"] and ["true"] only, to run the codec
    on examples. *)
Definition literal_parse (s : string) : option jsval :=
  if bool_decide (s = "123") then Some (JNum 123)
  else if bool_decide (s = "true") then Some (JBool true)
  else None.

End Codecs.

(* ===================================================================== *)
(** ** src/core/time.ts *)
(* ===================================================================== *)

Module Time.

Local Open Scope Q_scope.

(** [arr[i]] for a numeric index: [undefined] outside the array. *)
Definition arr_at {A : Type} (arr : list A) (i : Z) : option A :=
  if (i <? 0)%Z then None else arr !! Z.to_nat i.

(** [a || b] on numbers: [undefined] and [0] are falsy. *)
Definition js_or (a b : option Q) : option Q :=
  match a with
  | Some q => if Qeq_bool q 0 then b else Some q
  | None => b
  end.

(** [calculateBackoff(attempt, backoffMs, jitter)], with the value of
    [Math.random()] as [random], in exact arithmetic; the same computation
    with each operation rounded to a double is [calculateBackoff] of the
    module [Doubles] below. *)
Definition calculateBackoff (attempt : Z) (backoffMs : list Q) (jitter : bool)
    (random : Q) : Q :=
  let len := Z.of_nat (length backoffMs) in
  let idx := Z.min attempt (len - 1) in
  let baseDelay :=
    default 1000 (js_or (js_or (arr_at backoffMs idx) (arr_at backoffMs (len - 1)))
                        (Some 1000)) in
  if jitter then
    let jitterAmount := baseDelay * (2 # 10) in
    baseDelay + random * jitterAmount
  else baseDelay.

End Time.

(* ===================================================================== *)
(** ** Arithmetic on doubles *)
(* ===================================================================== *)

Module Doubles.

Local Open Scope Q_scope.

(** The unit roundoff [2^-53] of a double and the ends of the range of
    normal doubles used here, [2^-1022] and [2^1023]. *)
Definition eps : Q := 1 # (2 ^ 53).
Definition normal_min : Q := 1 # (2 ^ 1022).
Definition normal_max : Q := inject_Z (2 ^ 1023).

(** An arithmetic operation on doubles returns the double nearest to its
    exact result.  [rounding fl] collects what is used of that rounding
    [fl]: it respects equality and order of the rationals, leaves a double
    as it is, is exact on 0 and on the whole numbers up to [2^53], and in
    the normal range moves a number by at most [eps] times its size. *)
Record rounding (fl : Q -> Q) : Prop := mkRounding {
  fl_proper : forall x y, x == y -> fl x == fl y;
  fl_monotone : forall x y, x <= y -> fl x <= fl y;
  fl_idempotent : forall x, fl (fl x) == fl x;
  fl_whole : forall z : Z, (Z.abs z <= 2 ^ 53)%Z -> fl (inject_Z z) == inject_Z z;
  fl_relative : forall x, normal_min <= Qabs x -> Qabs x <= normal_max ->
                          Qabs (fl x - x) <= eps * Qabs x
}.

(** The back-off entries covered by the bounds below: doubles between
    [2^-1000] and [2^1000] milliseconds. *)
Definition delay_min : Q := 1 # (2 ^ 1000).
Definition delay_max : Q := inject_Z (2 ^ 1000).

Section WithRounding.

Variable fl : Q -> Q.

(** [a * b] and [a + b] *)
Definition mul (a b : Q) : Q := fl (a * b).
Definition add (a b : Q) : Q := fl (a + b).

(** The literal [0.2] *)
Definition point_two : Q := fl (2 # 10).

(** [calculateBackoff(attempt, backoffMs, jitter)] of src/core/time.ts, with
    the value of [Math.random()] as [random]; the entries of [backoffMs]
    are doubles. *)
Definition calculateBackoff (attempt : Z) (backoffMs : list Q) (jitter : bool)
    (random : Q) : Q :=
  let len := Z.of_nat (length backoffMs) in
  let idx := Z.min attempt (len - 1) in
  let baseDelay :=
    default 1000
      (Time.js_or (Time.js_or (Time.arr_at backoffMs idx) (Time.arr_at backoffMs (len - 1)))
                  (Some 1000)) in
  if jitter then
    let jitterAmount := mul baseDelay point_two in
    add baseDelay (mul random jitterAmount)
  else baseDelay.

(** [nextRetryMs = nowMs() + delay] of [scheduleRetry] in src/bus/retry.ts:
    the score under which the retry is written. *)
Definition nextRetryMs (now : Q) (attempt : Z) (backoffMs : list Q) (random : Q) : Q :=
  add now (calculateBackoff attempt backoffMs true random).

(** [msToSec(ms)]: [Math.floor(ms / 1000)] *)
Definition msToSec (ms : Q) : Z := Qfloor (fl (ms / 1000)).

(** [secToMs(sec)]: [sec * 1000] *)
Definition secToMs (sec : Q) : Q := fl (sec * 1000).

(** [nowSec()]: [Math.floor(Date.now() / 1000)], at clock reading [now]. *)
Definition nowSec (now : Z) : Z := Qfloor (fl (inject_Z now / 1000)).

End WithRounding.

End Doubles.

(* ===================================================================== *)
(** ** src/core/mongoAdapter.ts *)
(* ===================================================================== *)

Module Mongo.

(** *** Argument vectors *)

(** An element of an [any[]] argument vector: a string or a number. *)
Inductive jsarg : Type := AStr (s : string) | ANum (z : Z).

#[global] Instance jsarg_eq_dec : EqDecision jsarg.
Proof. solve_decision. Defined.

Definition digit_val (c : ascii) : option Z :=
  let n := nat_of_ascii c in
  if (48 <=? n)%nat && (n <=? 57)%nat then Some (Z.of_nat (n - 48)) else None.

Fixpoint digits_val (s : string) (acc : Z) : option Z :=
  match s with
  | EmptyString => Some acc
  | String c r =>
      match digit_val c with
      | Some d => digits_val r (10 * acc + d)%Z
      | None => None
      end
  end.

(** [Number(s)] on the texts the callers produce with [n.toString()] for a
    whole number [n]: an optionally ['-']-signed run of decimal digits, and
    the empty text, which reads as 0.  The other numeric syntaxes of
    [Number] (a ['+'] sign, fractions, exponents, hexadecimal, blanks,
    [Infinity]) and the texts that are no number at all are outside this
    reading: both give [None], which the callers treat as [NaN].  A statement
    about a text argument says which texts it covers. *)
Definition Number_str (s : string) : option Z :=
  match s with
  | EmptyString => Some 0%Z
  | String "-" EmptyString => None
  | String "-" r => Z.opp <$> digits_val r 0
  | _ => digits_val s 0
  end.

(** A text that [Number_str] reads as the whole number [z], exactly: a whole
    number of magnitude up to [2^53] is a double. *)
Definition whole_text (s : string) (z : Z) : Prop :=
  Number_str s = Some z /\ (Z.abs z <= 2 ^ 53)%Z.

(** *** Names inside update paths *)

(** The update operators read [`fields.${name}`], [`members.${name}`] and
    [`pending.${group}.${consumer}`] as dotted paths.  A name stands for one
    field of such a path when it is not empty, does not start with ['$'] and
    holds neither ['.'] nor the character NUL. *)
Fixpoint path_free (s : string) : bool :=
  match s with
  | EmptyString => true
  | String c r =>
      negb (Ascii.eqb c "."%char) && negb (Ascii.eqb c "000"%char) && path_free r
  end.

Definition field_name (s : string) : bool :=
  match s with
  | EmptyString => false
  | String c _ => negb (Ascii.eqb c "$"%char) && path_free s
  end.

(** A name made of decimal digits, which a path takes for an index below an
    array. *)
Definition index_name (s : string) : bool :=
  match s with
  | EmptyString => false
  | _ => bool_decide (is_Some (digits_val s 0))
  end.

(** The name of a consumer group inside [`pending.${group}`]: one field, and
    not an index.  The groups of the bus are [`sub:${subscription}`]. *)
Definition group_name (s : string) : bool := field_name s && negb (index_name s).

(** A name that an inserted document holds as it is given: it is not
    empty, does not start with ['$'] and holds no NUL character (a ['.']
    inside the name of an inserted field is stored as it is). *)
Fixpoint nul_free (s : string) : bool :=
  match s with
  | EmptyString => true
  | String c r => negb (Ascii.eqb c "000"%char) && nul_free r
  end.

Definition inserted_name (s : string) : bool :=
  match s with
  | EmptyString => false
  | String c _ => negb (Ascii.eqb c "$"%char) && nul_free s
  end.

(** The property names that every plain object inherits from
    [Object.prototype]. *)
Definition Object_prototype_names : list string :=
  ["constructor"; "__defineGetter__"; "__defineSetter__"; "hasOwnProperty";
   "__lookupGetter__"; "__lookupSetter__"; "isPrototypeOf";
   "propertyIsEnumerable"; "toString"; "valueOf"; "__proto__"; "toLocaleString"].

(** A name under which a value is stored as one field and read back as an
    own property: a field name that [Object.prototype] does not define. *)
Definition stored_name (s : string) : bool :=
  field_name s && negb (bool_decide (s ∈ Object_prototype_names)).

(** [args.indexOf(x)], [-1] when absent. *)
Fixpoint indexOf_from (x : jsarg) (args : list jsarg) (i : Z) : Z :=
  match args with
  | [] => (-1)%Z
  | a :: rest => if decide (a = x) then i else indexOf_from x rest (i + 1)%Z
  end.

Definition indexOf (x : jsarg) (args : list jsarg) : Z := indexOf_from x args 0.

Definition arg_at (args : list jsarg) (i : Z) : option jsarg := Time.arr_at args i.

(** [Number(a)]; [None] is [NaN]. *)
Definition Number_arg (a : option jsarg) : option Z :=
  match a with
  | Some (ANum z) => Some z
  | Some (AStr s) => Number_str s
  | None => None
  end.

(** The text of [a] inside a template string. *)
Definition String_arg (a : option jsarg) : string :=
  match a with
  | Some (AStr s) => s
  | Some (ANum z) => pretty z
  | None => "undefined"
  end.

(** *** Documents *)

(** An array index as a property name: the decimal text of a whole number
    below [2^32 - 1], without sign or leading zeros. *)
Definition array_index (k : string) : option Z :=
  match digits_val k 0 with
  | Some n =>
      if bool_decide (k = pretty n) && (n <? 4294967295)%Z then Some n else None
  | None => None
  end.

(** A plain object lists its properties with the array indices first, in
    ascending order, and then the other names in the order of their
    creation.  [listed_before k k'] says that the new name [k] goes before
    the name [k'] already there. *)
Definition listed_before (k k' : string) : bool :=
  match array_index k, array_index k' with
  | Some a, Some b => (a <? b)%Z
  | Some _, None => true
  | None, _ => false
  end.

(** A plain object with string values, as the list of its properties in the
    order of [Object.entries]; [None] is a slot holding [undefined], which
    the database stores as [null]. *)
Definition fields_obj : Type := list (string * option string).

(** [o[k] = v] *)
Fixpoint obj_set (k : string) (v : option string) (o : fields_obj) : fields_obj :=
  match o with
  | [] => [(k, v)]
  | (k', v') :: rest =>
      if decide (k' = k) then (k, v) :: rest
      else if listed_before k k' then (k, v) :: (k', v') :: rest
      else (k', v') :: obj_set k v rest
  end.

(** [o[k]] on own properties. *)
Definition obj_get (k : string) (o : fields_obj) : option (option string) :=
  snd <$> List.find (fun kv => bool_decide (fst kv = k)) o.

(** [Object.entries(fields).flat()] *)
Definition entries_flat (o : fields_obj) : list (option string) :=
  flat_map (fun kv => [Some (fst kv); snd kv]) o.

(** The field [pending] of a stream document: the empty array that [xadd]
    writes, or an object from group name to consumer name to delivery
    time. *)
Inductive Pending : Type :=
| PendingArray
| PendingObject (m : gmap string (gmap string Z)).

(** A document of the [streams] collection. *)
Record StreamDoc : Type := mkStreamDoc {
  d_oid : nat;                                (* _id *)
  d_stream : string;
  d_id : string;
  d_timestamp : Z;
  d_sequence : nat;
  d_fields : fields_obj;
  d_createdAt : Z;
  d_pending : Pending
}.

(** A document of the [kv] collection; an absent [fields] or [members] object
    is the empty map ([hset] and [zadd] never leave a present one empty).
    The names in [kv_fields] and [kv_members] are the own properties of the
    object that a read returns. *)
Record KvDoc : Type := mkKvDoc {
  kv_type : option string;
  kv_fields : gmap string string;
  kv_members : gmap string Q;
  kv_updatedAt : Z
}.

(** The adapter with its collections.  [kv] has a unique index on [key], so
    it is a map from the full key; [streams] is in insertion order. *)
Record Store : Type := mkStore {
  keyPrefix : string;
  kv : gmap string KvDoc;
  streams : list StreamDoc;
  next_oid : nat
}.

Definition connect (prefix : string) : Store := mkStore prefix ∅ [] 0.

(** *** Queries *)

(** [.sort({ timestamp: 1, sequence: 1 })], as a stable insertion sort. *)
Definition doc_le (a b : StreamDoc) : bool :=
  (d_timestamp a <? d_timestamp b)%Z
  || ((d_timestamp a =? d_timestamp b)%Z && (d_sequence a <=? d_sequence b)%nat).

Fixpoint insert_sorted (d : StreamDoc) (l : list StreamDoc) : list StreamDoc :=
  match l with
  | [] => [d]
  | x :: rest => if doc_le d x then d :: x :: rest else x :: insert_sorted d rest
  end.

Definition sort_docs (l : list StreamDoc) : list StreamDoc :=
  foldr insert_sorted [] l.

(** [.limit(n)]: [0] is no limit and a negative [n] limits to [-n]; a limit
    that is not a number is read as no limit. *)
Definition limit (n : option Z) (l : list StreamDoc) : list StreamDoc :=
  match n with
  | Some z => if (z =? 0)%Z then l else take (Z.abs_nat z) l
  | None => l
  end.

(** A count that a query takes as its limit as [limit] reads it: a whole
    number of 32 bits. *)
Definition limit_number (z : Z) : Prop := (Z.abs z < 2 ^ 31)%Z.

Definition in_stream (full : string) (d : StreamDoc) : bool :=
  bool_decide (d_stream d = full).

(** [streamsCollection.countDocuments({ stream, timestamp })] *)
Definition count_at (full : string) (ts : Z) (docs : list StreamDoc) : nat :=
  length (List.filter (fun d => in_stream full d && (d_timestamp d =? ts)%Z) docs).

(** [streamsCollection.countDocuments({ stream })] *)
Definition count_stream (full : string) (docs : list StreamDoc) : nat :=
  length (List.filter (in_stream full) docs).

(** [updateOne(filter, update)]: the first matching document is updated. *)
Fixpoint update_first (P : StreamDoc -> bool) (f : StreamDoc -> StreamDoc)
    (l : list StreamDoc) : list StreamDoc :=
  match l with
  | [] => []
  | d :: rest => if P d then f d :: rest else d :: update_first P f rest
  end.

(** [updateOne(filter, update)] with an update that the server may refuse:
    [None] is the refusal, which leaves the collection as it was. *)
Fixpoint try_update_first (P : StreamDoc -> bool) (f : StreamDoc -> option StreamDoc)
    (l : list StreamDoc) : option (list StreamDoc) :=
  match l with
  | [] => Some []
  | d :: rest =>
      if P d then (fun d' => d' :: rest) <$> f d
      else (fun rest' => d :: rest') <$> try_update_first P f rest
  end.

Definition with_pending (p : Pending) (d : StreamDoc) : StreamDoc :=
  mkStreamDoc (d_oid d) (d_stream d) (d_id d) (d_timestamp d) (d_sequence d)
              (d_fields d) (d_createdAt d) p.

(** The value at the path [pending.<group>] of a document, for a group name
    that is one field and not an index: there is none below the empty
    array. *)
Definition pending_of (group : string) (d : StreamDoc) : option (gmap string Z) :=
  match d_pending d with
  | PendingArray => None
  | PendingObject m => m !! group
  end.

(** [{ $set: { [`pending.${group}.${consumer}`]: new Date() } }].  Below an
    object the path is created; below the array the server refuses the
    update, since a field name is not an index ([None]). *)
Definition set_pending (group consumer : string) (now : Z) (d : StreamDoc)
  : option StreamDoc :=
  match d_pending d with
  | PendingArray => None
  | PendingObject m =>
      Some (with_pending
              (PendingObject (<[group := <[consumer := now]> (default ∅ (m !! group))]> m))
              d)
  end.

(** The message of the error thrown for the refused update. *)
Definition cannot_create_field (group : string) : string :=
  "Cannot create field '" +:+ group +:+ "' in element {pending: []}".

(** [{ $unset: { [`pending.${group}`]: '' } }]: a path that is not there is
    left alone, so the array stays as it is. *)
Definition unset_pending (group : string) (d : StreamDoc) : StreamDoc :=
  match d_pending d with
  | PendingArray => d
  | PendingObject m => with_pending (PendingObject (delete group m)) d
  end.

Definition with_streams (docs : list StreamDoc) (s : Store) : Store :=
  mkStore (keyPrefix s) (kv s) docs (next_oid s).

(** The loop [for (const msg of messages) await updateOne({ _id: msg._id },
    ...)].  The first refused update throws and ends the loop; the updates
    made before it stay.  The result is the collection and whether the loop
    ran to its end. *)
Fixpoint mark_all (group consumer : string) (now : Z) (msgs : list StreamDoc)
    (docs : list StreamDoc) : list StreamDoc * bool :=
  match msgs with
  | [] => (docs, true)
  | m :: rest =>
      match try_update_first (fun d => bool_decide (d_oid d = d_oid m))
                             (set_pending group consumer now) docs with
      | Some docs' => mark_all group consumer now rest docs'
      | None => (docs, false)
      end
  end.

(** [messages.map(m => [m.id, Object.entries(m.fields).flat()])] *)
Definition render (msgs : list StreamDoc) : list (string * list (option string)) :=
  map (fun m => (d_id m, entries_flat (d_fields m))) msgs.

(** *** Stream operations *)

Definition truthy_str (a : option string) : bool :=
  match a with
  | Some s => negb (bool_decide (s = ""))
  | None => false
  end.

(** The scan for [MAXLEN] and ['*'] in [xadd]: the pair of [maxlen]
    ([None]: undefined or [NaN]) and [fieldsStart].  [args] is the rest of the
    vector from position [i] on, so [args[i + 2]] is its third element. *)
Fixpoint xadd_scan (args : list string) (i : nat) : option Z * nat :=
  match args with
  | [] => (None, 0%nat)
  | a :: rest =>
      if bool_decide (a = "MAXLEN") && truthy_str (rest !! 1%nat)
      then (Number_str (default "" (rest !! 1%nat)), (i + 3)%nat)
      else if bool_decide (a = "*") then (None, (i + 1)%nat)
      else xadd_scan rest (S i)
  end.

(** The elements that the loop
    [for (let i = fieldsStart; i < args.length; i += 2)] of [xadd] uses as
    field names: every other element, from the first on. *)
Fixpoint names (l : list string) : list string :=
  match l with
  | [] => []
  | [k] => [k]
  | k :: _ :: rest => k :: names rest
  end.

(** [fields[k] = v] on the object that began as [{}], for a string or
    [undefined] [v]: the name [__proto__] reaches the setter that the object
    inherits, which ignores such a value and creates no property. *)
Definition fields_assign (k : string) (v : option string) (o : fields_obj)
  : fields_obj :=
  if bool_decide (k = "__proto__") then o else obj_set k v o.

(** [for (let i = fieldsStart; i < args.length; i += 2) fields[args[i]] = args[i + 1]] *)
Fixpoint fields_from (l : list string) (o : fields_obj) : fields_obj :=
  match l with
  | [] => o
  | [k] => fields_assign k None o
  | k :: v :: rest => fields_from rest (fields_assign k (Some v) o)
  end.

(** The block [if (maxlen) { ... deleteMany ... }]. *)
Definition trim (full : string) (maxlen : option Z) (docs : list StreamDoc)
  : list StreamDoc :=
  match maxlen with
  | Some m =>
      if (m =? 0)%Z then docs
      else
        let count := Z.of_nat (count_stream full docs) in
        if (m <? count)%Z then
          let toDelete := (count - m)%Z in
          let oldDocs := limit (Some toDelete) (sort_docs (List.filter (in_stream full) docs)) in
          List.filter (fun d => negb (bool_decide (d_oid d ∈ map d_oid oldDocs))) docs
        else docs
  | None => docs
  end.

(** The field names of the document that [xadd] inserts for [args]. *)
Definition xadd_names (args : list string) : list string :=
  names (drop (snd (xadd_scan args 0)) args).

(** [xadd(stream, ...args)] at clock reading [now]; the document is inserted
    with [pending: []].  This is the insert of a document whose field names
    the server stores ([inserted_name]); a statement about the fields of an
    entry says so. *)
Definition xadd (s : Store) (now : Z) (stream : string) (args : list string)
  : Store * string :=
  let fullStream := keyPrefix s +:+ stream in
  let '(maxlen, fieldsStart) := xadd_scan args 0 in
  let count := count_at fullStream now (streams s) in
  let msgId := pretty now +:+ "-" +:+ pretty count in
  let fields := fields_from (drop fieldsStart args) [] in
  let doc := mkStreamDoc (next_oid s) fullStream msgId now count fields now
                         PendingArray in
  let docs := (streams s ++ [doc])%list in
  (mkStore (keyPrefix s) (kv s) (trim fullStream maxlen docs) (S (next_oid s)), msgId).

(** The reply of [xreadgroup]: [[stream, [[id, [k, v, ...]], ...]]]. *)
Definition reply : Type := list (string * list (string * list (option string))).

(** [args[groupIdx + 1]] and [args[groupIdx + 2]] of [xreadgroup], as they
    stand in the paths. *)
Definition read_group (args : list jsarg) : string :=
  String_arg (arg_at args (indexOf (AStr "GROUP") args + 1)).

Definition read_consumer (args : list jsarg) : string :=
  String_arg (arg_at args (indexOf (AStr "GROUP") args + 2)).

(** [xreadgroup(...args)] at clock reading [now]: the state after the call,
    with the error thrown ([inl]) or the value returned ([inr], [None] is
    [null]).  The updates that mark the entries are not inside a [try], so
    a refused update is thrown to the caller.  No other caller runs between
    the two queries of the blocking branch. *)
Definition xreadgroup (s : Store) (now : Z) (args : list jsarg)
  : Store * (string + option reply) :=
  let blockIdx := indexOf (AStr "BLOCK") args in
  let countIdx := indexOf (AStr "COUNT") args in
  let streamsIdx := indexOf (AStr "STREAMS") args in
  let group := read_group args in
  let consumer := read_consumer args in
  let blockMs :=
    if (0 <=? blockIdx)%Z then Number_arg (arg_at args (blockIdx + 1)) else Some 0%Z in
  let count :=
    if (0 <=? countIdx)%Z then Number_arg (arg_at args (countIdx + 1)) else Some 10%Z in
  let stream := keyPrefix s +:+ String_arg (arg_at args (streamsIdx + 1)) in
  let startId := arg_at args (streamsIdx + 2) in
  let query (d : StreamDoc) : bool :=
    in_stream stream d
    && (if bool_decide (startId = Some (AStr ">"))
        then bool_decide (pending_of group d = None)
        else true) in
  let find (docs : list StreamDoc) := limit count (sort_docs (List.filter query docs)) in
  let deliver (msgs : list StreamDoc) : Store * (string + option reply) :=
    match mark_all group consumer now msgs (streams s) with
    | (docs, true) => (with_streams docs s, inr (Some [(stream, render msgs)]))
    | (docs, false) => (with_streams docs s, inl (cannot_create_field group))
    end in
  let messages := find (streams s) in
  match messages with
  | [] =>
      if match blockMs with Some b => (0 <? b)%Z | None => false end then
        let retry := find (streams s) in
        match retry with
        | [] => (s, inr None)
        | _ => deliver retry
        end
      else (s, inr None)
  | _ => deliver messages
  end.

(** [xack(stream, group, ...ids)] *)
Definition xack (s : Store) (stream group : string) (ids : list string)
  : Store * nat :=
  let fullStream := keyPrefix s +:+ stream in
  (with_streams
     (foldl (fun acc id =>
               update_first (fun d => in_stream fullStream d && bool_decide (d_id d = id))
                            (unset_pending group) acc)
            (streams s) ids) s,
   length ids).

(** [xlen(stream)] *)
Definition xlen (s : Store) (stream : string) : nat :=
  count_stream (keyPrefix s +:+ stream) (streams s).

(** The loop of [xclaim]: for each id, [findOneAndUpdate] with
    [returnDocument: 'after'].  A refused update is thrown to the caller
    and ends the loop. *)
Fixpoint xclaim_loop (fullStream group consumer : string) (now : Z)
    (ids : list string) (s : Store) (messages : list (string * list (option string)))
  : Store * (string + list (string * list (option string))) :=
  match ids with
  | [] => (s, inr messages)
  | id :: rest =>
      let P (d : StreamDoc) := in_stream fullStream d && bool_decide (d_id d = id) in
      match List.find P (streams s) with
      | Some d =>
          match set_pending group consumer now d with
          | Some d' =>
              xclaim_loop fullStream group consumer now rest
                (with_streams (update_first P (fun _ => d') (streams s)) s)
                (messages ++ [(d_id d', entries_flat (d_fields d'))])%list
          | None => (s, inl (cannot_create_field group))
          end
      | None => xclaim_loop fullStream group consumer now rest s messages
      end
  end.

(** [xclaim(stream, group, consumer, minIdleTime, ...ids)] *)
Definition xclaim (s : Store) (now : Z) (stream group consumer : string)
    (minIdleTime : Z) (ids : list string)
  : Store * (string + list (string * list (option string))) :=
  xclaim_loop (keyPrefix s +:+ stream) group consumer now ids s [].

(** [{ $lt: cutoff }] on the value at [pending.<group>], which is an object
    from consumer name to date: a comparison selects values of the type of
    its operand only, and an embedded document is not a date. *)
Definition object_lt_date (p : gmap string Z) (cutoff : Z) : bool := false.

(** [xautoclaim(stream, group, consumer, minIdleTime, start, ...args)] *)
Definition xautoclaim (s : Store) (now : Z) (stream group consumer : string)
    (minIdleTime : Z) (start : string) (args : list jsarg)
  : Store * (string + string * list (string * list (option string))) :=
  let fullStream := keyPrefix s +:+ stream in
  let countIdx := indexOf (AStr "COUNT") args in
  let count :=
    if (0 <=? countIdx)%Z then Number_arg (arg_at args (countIdx + 1)) else Some 10%Z in
  let cutoff := (now - minIdleTime)%Z in
  let messages :=
    limit count
      (List.filter (fun d => in_stream fullStream d
                             && match pending_of group d with
                                | Some p => object_lt_date p cutoff
                                | None => false
                                end)
                   (streams s)) in
  match mark_all group consumer now messages (streams s) with
  | (docs, true) => (with_streams docs s, inr ("0-0", render messages))
  | (docs, false) => (with_streams docs s, inl (cannot_create_field group))
  end.

(** *** Hashes and sorted sets in the [kv] collection *)

Definition with_kv (m : gmap string KvDoc) (s : Store) : Store :=
  mkStore (keyPrefix s) m (streams s) (next_oid s).

(** [hset(key, field, value)]: an upsert on [{ key }] that sets the path
    [`fields.${field}`]; for a [field] that is one field of the path
    ([field_name]) the path is the property [field] of [fields]. *)
Definition hset (s : Store) (now : Z) (key field value : string) : Store * nat :=
  let fullKey := keyPrefix s +:+ key in
  let old := default (mkKvDoc None ∅ ∅ now) (kv s !! fullKey) in
  let doc := mkKvDoc (Some "hash") (<[field := value]> (kv_fields old))
                     (kv_members old) now in
  (with_kv (<[fullKey := doc]> (kv s)) s, 1%nat).

(** What [doc.fields[field]] gives when it is truthy: a stored string, or,
    for a name that is no own property, the member of [Object.prototype] of
    that name (a function, or the prototype itself for [__proto__]). *)
Inductive hval : Type :=
| HStr (v : string)
| HInherited (name : string).

(** [hget(key, field)]: [doc?.fields?.[field] || null] on the document found
    by [{ key, type: 'hash' }]; [None] is [null].  The property is read
    through the prototype of the [fields] object. *)
Definition hget (s : Store) (key field : string) : option hval :=
  let fullKey := keyPrefix s +:+ key in
  match kv s !! fullKey with
  | Some doc =>
      if bool_decide (kv_type doc = Some "hash") then
        if bool_decide (kv_fields doc = ∅) then None
        else
          match kv_fields doc !! field with
          | Some v => if bool_decide (v = "") then None else Some (HStr v)
          | None =>
              if bool_decide (field ∈ Object_prototype_names)
              then Some (HInherited field) else None
          end
      else None
  | None => None
  end.

(** [zadd(key, score, member)]: an upsert on [{ key, type: 'zset' }] that
    sets the path [`members.${member}`]; when the key holds a document of
    another type the insert breaks the unique index and the call throws
    ([inl]). *)
Definition zadd (s : Store) (now : Z) (key : string) (score : Q) (member : string)
  : string + Store * nat :=
  let fullKey := keyPrefix s +:+ key in
  match kv s !! fullKey with
  | Some old =>
      if bool_decide (kv_type old = Some "zset") then
        inr (with_kv (<[fullKey := mkKvDoc (Some "zset") (kv_fields old)
                                          (<[member := score]> (kv_members old)) now]>
                        (kv s)) s, 1%nat)
      else inl "E11000 duplicate key error"
  | None =>
      inr (with_kv (<[fullKey := mkKvDoc (Some "zset") ∅ {[member := score]} now]> (kv s)) s,
           1%nat)
  end.

(** *** Calls as the bus issues them *)


(** The argument vector of an append trimmed to [maxlen]. *)
Definition append_args (maxlen : string) : list string :=
  ["MAXLEN"; "~"; maxlen; "*"; "payload"; "1"].

(** The order of ids: by timestamp, then by sequence. *)
Definition doc_lt (a b : StreamDoc) : Prop :=
  (d_timestamp a < d_timestamp b)%Z
  \/ (d_timestamp a = d_timestamp b /\ (d_sequence a < d_sequence b)%nat).

(** Every entry of the log [full] has a sequence number below the count of
    entries at its millisecond. *)
Definition seq_below (full : string) (docs : list StreamDoc) : Prop :=
  Forall (fun d => d_stream d = full ->
                   (d_sequence d < count_at full (d_timestamp d) docs)%nat) docs.

(** No entry of the log [full] is later than the clock reading [now]. *)
Definition clock_at_most (full : string) (now : Z) (docs : list StreamDoc) : Prop :=
  Forall (fun d => d_stream d = full -> (d_timestamp d <= now)%Z) docs.

(** The number of consumers recorded in [pending.<group>] of a document. *)
Definition holders (group : string) (d : StreamDoc) : nat :=
  size (default ∅ (pending_of group d)).

End Mongo.

(* ===================================================================== *)
(** ** The bus over a hot-store client:
       src/bus/producer.ts, src/bus/topics.ts, src/bus/dlq.ts *)
(* ===================================================================== *)

Module Bus.

(** The result of an awaited call: a value or a thrown error. *)
Inductive outcome (A : Type) : Type :=
| Return (a : A)
| Throw (e : string).
Arguments Return {A} a.
Arguments Throw {A} e.

Section WithStore.

(** The state behind the hot-store client. *)
Context {St : Type}.

Definition M (A : Type) : Type := St -> outcome A * St.

Definition ret {A : Type} (a : A) : M A := fun s => (Return a, s).

Definition throw {A : Type} (e : string) : M A := fun s => (Throw e, s).

Definition bind {A B : Type} (m : M A) (k : A -> M B) : M B :=
  fun s =>
    match m s with
    | (Return a, s') => k a s'
    | (Throw e, s') => (Throw e, s')
    end.

(** [try { m } catch { h }] *)
Definition try_catch {A : Type} (m : M A) (h : string -> M A) : M A :=
  fun s =>
    match m s with
    | (Return a, s') => (Return a, s')
    | (Throw e, s') => h e s'
    end.

Notation "x <- m ;; k" := (bind m (fun x => k))
  (at level 100, m at next level, right associativity).

(** The commands of the client ([RedisClient], or the adapter in its place)
    that these components call. *)
Record RedisClient : Type := mkRedisClient {
  r_xadd : string -> list string -> M string;
  r_xlen : string -> M nat;
  r_xrange : string -> string -> string -> list Mongo.jsarg
             -> M (list (string * list string));
  r_xinfo : string -> string -> M (list jsval)
}.

Variable redis : RedisClient.

(** [JSON.parse], [JSON.stringify], [hashValue] (SHA-256 of the JSON text)
    and [new Date().toISOString()] are the platform's. *)
Variable JSON_parse : string -> option jsval.
Variable JSON_stringify : jsval -> string.
Variable hashValue : jsval -> string.
Variable isoNow : string.

(** The warm adapter of src/warm/chronosAdapter.ts is a stub: [insert] and
    [upsert] do nothing. *)
Definition warm_saveMessage (topic msgId : string) (payload headers : jsval)
    (tenantId : string) : M unit := ret tt.

Definition warm_saveDeadLetter (topic msgId reason : string) (payload headers : jsval)
    (deliveries : Z) (tenantId : string) : M unit := ret tt.

(** [opts: { namespace?, tenantId? }] *)
Record ScopeOptions : Type := mkScope {
  o_namespace : option string;
  o_tenantId : option string
}.

(** *** Producer *)

Record ProducerDefaults : Type := mkProducerDefaults {
  p_namespace : string;
  p_tenantId : string;
  p_keyPrefix : string;
  p_maxStreamLen : Z;
  p_maxPayloadBytes : Z
}.

Record PublishOptions : Type := mkPublishOptions {
  po_persistWarmCopy : bool;
  po_headers : option jsval;
  po_scope : ScopeOptions
}.

Variable pdefaults : ProducerDefaults.

(** [Buffer.byteLength(payloadStr, 'utf-8')] *)
Definition byteLength (str : string) : Z := Z.of_nat (String.length str).

(** [`Payload exceeds max size: ${payloadBytes} > ${maxPayloadBytes} bytes`] *)
Definition payload_too_large (payloadBytes : Z) : string :=
  "Payload exceeds max size: " +:+ pretty payloadBytes +:+ " > "
    +:+ pretty (p_maxPayloadBytes pdefaults) +:+ " bytes".

(** The argument vector of the [xadd] that appends one message. *)
Definition publish_args (payload headers : jsval) : list string :=
  let payloadStr := JSON_stringify payload in
  let entry :=
    [("payload", JStr payloadStr);
     ("headers", JStr (JSON_stringify headers));
     ("hash", JStr (hashValue payload));
     ("size", JStr (pretty (byteLength payloadStr)));
     ("publishedAt", JStr isoNow)] in
  (["MAXLEN"; "~"; pretty (p_maxStreamLen pdefaults); "*"]
     ++ Codecs.toFlatArray_entries JSON_stringify entry)%list.

(** [publish(topic, payload, opts)] *)
Definition publish (topic : string) (payload : jsval) (opts : PublishOptions)
  : M string :=
  let namespace := default (p_namespace pdefaults) (o_namespace (po_scope opts)) in
  let tenantId := default (p_tenantId pdefaults) (o_tenantId (po_scope opts)) in
  let headers := default (JObj []) (po_headers opts) in
  let topicKey := Keys.buildTopicKey topic tenantId namespace (p_keyPrefix pdefaults) in
  let payloadStr := JSON_stringify payload in
  let payloadBytes := byteLength payloadStr in
  if (p_maxPayloadBytes pdefaults <? payloadBytes)%Z then
    throw (payload_too_large payloadBytes)
  else
    msgId <- r_xadd redis topicKey (publish_args payload headers) ;;
    _ <- (if po_persistWarmCopy opts
          then warm_saveMessage topic msgId payload headers tenantId
          else ret tt) ;;
    ret msgId.

(** [pipeline.exec()]: every queued command runs; an error is kept in its
    slot of the results and the call itself does not throw. *)
Fixpoint pipeline_run (ops : list (string * list string)) (s : St)
  : list (outcome string) * St :=
  match ops with
  | [] => ([], s)
  | (key, args) :: rest =>
      let '(r, s1) := r_xadd redis key args s in
      let '(rs, s2) := pipeline_run rest s1 in
      (r :: rs, s2)
  end.

Definition pipeline_exec (ops : list (string * list string))
  : M (list (outcome string)) :=
  fun s => let '(rs, s') := pipeline_run ops s in (Return rs, s').

(** [results.map(([err, id]) => { if (err) throw err; return id })] *)
Fixpoint collect_ids (results : list (outcome string)) : outcome (list string) :=
  match results with
  | [] => Return []
  | Throw e :: _ => Throw e
  | Return id :: rest =>
      match collect_ids rest with
      | Return ids => Return (id :: ids)
      | Throw e => Throw e
      end
  end.

(** A message of a batch: [{ payload, headers? }]. *)
Record BatchMessage : Type := mkBatchMessage {
  bm_payload : jsval;
  bm_headers : option jsval
}.

(** The loop of [publishBatch] that checks each message and queues its
    [xadd] on the pipeline; [inl] is the error thrown inside the loop. *)
Fixpoint batch_queue (topicKey : string) (messages : list BatchMessage)
    (queued : list (string * list string))
  : string + list (string * list string) :=
  match messages with
  | [] => inr queued
  | msg :: rest =>
      let headers := default (JObj []) (bm_headers msg) in
      let payloadStr := JSON_stringify (bm_payload msg) in
      let payloadBytes := byteLength payloadStr in
      if (p_maxPayloadBytes pdefaults <? payloadBytes)%Z then
        inl (payload_too_large payloadBytes)
      else
        batch_queue topicKey rest
          (queued ++ [(topicKey, publish_args (bm_payload msg) headers)])%list
  end.

(** A message of a batch is within the payload bound. *)
Definition fits (msg : BatchMessage) : Prop :=
  (byteLength (JSON_stringify (bm_payload msg)) <= p_maxPayloadBytes pdefaults)%Z.

(** [publishBatch(topic, messages, opts)]; the warm saves are the stub's. *)
Definition publishBatch (topic : string) (messages : list BatchMessage)
    (opts : PublishOptions) : M (list string) :=
  let namespace := default (p_namespace pdefaults) (o_namespace (po_scope opts)) in
  let tenantId := default (p_tenantId pdefaults) (o_tenantId (po_scope opts)) in
  let topicKey := Keys.buildTopicKey topic tenantId namespace (p_keyPrefix pdefaults) in
  match batch_queue topicKey messages [] with
  | inl e => throw e
  | inr ops =>
      results <- pipeline_exec ops ;;
      match collect_ids results with
      | Return msgIds => ret msgIds
      | Throw e => throw e
      end
  end.

(** *** TopicManager.getStats *)

Record ManagerDefaults : Type := mkManagerDefaults {
  m_namespace : string;
  m_tenantId : string;
  m_keyPrefix : string;
  m_maxStreamLen : Z
}.

Variable mdefaults : ManagerDefaults.

(** [{ topic, length, groups }] *)
Record Stats : Type := mkStats {
  st_topic : string;
  st_length : jsval;
  st_groups : jsval
}.

(** [info[i]] *)
Definition info_at (info : list jsval) (i : nat) : jsval := default JUndef (info !! i).

(** [getStats(topic, opts)] *)
Definition getStats (topic : string) (opts : ScopeOptions) : M Stats :=
  let namespace := default (m_namespace mdefaults) (o_namespace opts) in
  let tenantId := default (m_tenantId mdefaults) (o_tenantId opts) in
  let topicKey := Keys.buildTopicKey topic tenantId namespace (m_keyPrefix mdefaults) in
  try_catch
    (info <- r_xinfo redis "STREAM" topicKey ;;
     ret (mkStats topic (info_at info 1) (info_at info 5)))
    (fun _ => ret (mkStats topic (JNum 0) (JNum 0))).

(** *** DlqManager *)

(** [sendToDeadLetter(topic, msgId, payload, headers, reason, deliveries, opts)];
    [failedAt] is [isoNow]. *)
Definition sendToDeadLetter (topic msgId : string) (payload headers : jsval)
    (reason : string) (deliveries : Z) (opts : ScopeOptions) : M unit :=
  let namespace := default (m_namespace mdefaults) (o_namespace opts) in
  let tenantId := default (m_tenantId mdefaults) (o_tenantId opts) in
  let dlqKey := Keys.buildDlqKey topic tenantId namespace (m_keyPrefix mdefaults) in
  let entry :=
    [("originalMsgId", JStr msgId);
     ("payload", JStr (JSON_stringify payload));
     ("headers", JStr (JSON_stringify headers));
     ("reason", JStr reason);
     ("deliveries", JStr (pretty deliveries));
     ("failedAt", JStr isoNow)] in
  _ <- r_xadd redis dlqKey
         (["MAXLEN"; "~"; pretty (m_maxStreamLen mdefaults); "*"]
            ++ Codecs.toFlatArray_entries JSON_stringify entry)%list ;;
  warm_saveDeadLetter topic msgId reason payload headers deliveries tenantId.

(** [getDlqLength(topic, opts)] *)
Definition getDlqLength (topic : string) (opts : ScopeOptions) : M nat :=
  let namespace := default (m_namespace mdefaults) (o_namespace opts) in
  let tenantId := default (m_tenantId mdefaults) (o_tenantId opts) in
  let dlqKey := Keys.buildDlqKey topic tenantId namespace (m_keyPrefix mdefaults) in
  try_catch (r_xlen redis dlqKey) (fun _ => ret 0%nat).

(** [obj[key] = val] in that loop, on the object that began as [{ id }]:
    a property is created or overwritten, but for the name [__proto__],
    whose inherited setter ignores the strings and [undefined] that reach
    it. *)
Definition peek_assign (key : string) (v : jsval) (obj : gmap string jsval)
  : gmap string jsval :=
  if bool_decide (key = "__proto__") then obj else <[key := v]> obj.

(** The inner loop of [peekDlq] over one entry's flat field array: the
    fields named [payload] and [headers] are parsed when they are JSON text
    and kept as they are otherwise. *)
Fixpoint peek_fields (fields : list string) (obj : gmap string jsval)
  : gmap string jsval :=
  match fields with
  | [] => obj
  | [key] => peek_assign key JUndef obj
  | key :: val :: rest =>
      let v :=
        if bool_decide (key = "payload") || bool_decide (key = "headers")
        then default (JStr val) (JSON_parse val)
        else JStr val in
      peek_fields rest (peek_assign key v obj)
  end.

(** [peekDlq(topic, limit, opts)] *)
Definition peekDlq (topic : string) (limit : Z) (opts : ScopeOptions)
  : M (list (gmap string jsval)) :=
  let namespace := default (m_namespace mdefaults) (o_namespace opts) in
  let tenantId := default (m_tenantId mdefaults) (o_tenantId opts) in
  let dlqKey := Keys.buildDlqKey topic tenantId namespace (m_keyPrefix mdefaults) in
  try_catch
    (entries <- r_xrange redis dlqKey "-" "+" [Mongo.AStr "COUNT"; Mongo.ANum limit] ;;
     ret (map (fun e => peek_fields (snd e) {[ "id" := JStr (fst e) ]}) entries))
    (fun _ => ret []).

End WithStore.

Arguments M St A : clear implicits.
Arguments RedisClient St : clear implicits.

(** *** A client that records what is appended *)

(** Modelled from the spec: the native hot store is an external service; this
    client keeps what [logAppend] is given.  The state is the connection flag
    and the entries appended so far, each with its log key and argument
    vector, oldest first; nothing is trimmed, as the store does while a log
    is shorter than its [MAXLEN].  The id of an entry is its position in the
    state: the append returns it as a decimal text and the range read
    returns it with the entry.  Every command throws when the connection is
    closed. *)
Record Recorder : Type := mkRecorder {
  rec_up : bool;
  rec_log : list (string * list string)
}.

Definition closed_error : string := "Connection is closed.".

Definition guarded {A : Type} (m : M Recorder A) : M Recorder A :=
  fun s => if rec_up s then m s else (Throw closed_error, s).

Definition key_entries (key : string) (s : Recorder) : list (string * list string) :=
  List.filter (fun e => bool_decide (fst e = key)) (rec_log s).

(** The entries appended under [key], each with its position in the state. *)
Definition key_positions (key : string) (s : Recorder)
  : list (nat * (string * list string)) :=
  List.filter (fun ie => bool_decide (fst (snd ie) = key))
              (imap (fun i e => (i, e)) (rec_log s)).

Definition invalid_stream_id : string :=
  "ERR Invalid stream ID specified as stream command argument".

Definition range_syntax_error : string := "ERR syntax error".

(** A bound of a range read: [-] is below and [+] is above every id,
    another bound is the decimal text of a position. *)
Inductive range_bound : Type := Lowest | Highest | Position (z : Z).

Definition read_bound (text : string) : option range_bound :=
  if bool_decide (text = "-") then Some Lowest
  else if bool_decide (text = "+") then Some Highest
  else if bool_decide (text = "") then None
  else Position <$> Mongo.digits_val text 0.

Definition in_range (lo hi : range_bound) (i : nat) : bool :=
  match lo with
  | Lowest => true
  | Highest => false
  | Position z => (z <=? Z.of_nat i)%Z
  end
  && match hi with
     | Lowest => false
     | Highest => true
     | Position z => (Z.of_nat i <=? z)%Z
     end.

(** The options of a range read: none, or [COUNT n] as [peekDlq] writes
    it. *)
Definition range_count (args : list Mongo.jsarg) : option (option Z) :=
  match args with
  | [] => Some None
  | [Mongo.AStr "COUNT"; Mongo.ANum n] => Some (Some n)
  | _ => None
  end.

(** The range read: the entries of the log within the bounds, oldest first,
    up to the count: each with its id and with the field-value array that
    followed [MAXLEN ~ n *] in its append. *)
Definition recorder_xrange (key start stop : string) (args : list Mongo.jsarg)
  : M Recorder (list (string * list string)) :=
  fun s =>
    match read_bound start, read_bound stop with
    | Some lo, Some hi =>
        match range_count args with
        | Some count =>
            let within :=
              List.filter (fun ie => in_range lo hi (fst ie)) (key_positions key s) in
            let counted :=
              match count with
              | Some n => take (Z.to_nat n) within
              | None => within
              end in
            (Return (map (fun ie => (pretty (fst ie), drop 4 (snd (snd ie)))) counted), s)
        | None => (Throw range_syntax_error, s)
        end
    | _, _ => (Throw invalid_stream_id, s)
    end.

Definition recorder : RedisClient Recorder :=
  mkRedisClient
    (fun key args => guarded (fun s =>
       (Return (pretty (length (rec_log s))),
        mkRecorder (rec_up s) (rec_log s ++ [(key, args)]))))
    (fun key => guarded (fun s => (Return (length (key_entries key s)), s)))
    (fun key start stop args => guarded (recorder_xrange key start stop args))
    (fun _ key => guarded (fun s =>
       (Return [JStr "length"; JNum (Z.of_nat (length (key_entries key s)))], s))).

(** The text of a string value, for examples. *)
Definition json_text (v : jsval) : string :=
  match v with JStr s => s | _ => "null" end.

(** Producer defaults with a payload bound of 4 bytes, for examples. *)
Definition example_producer : ProducerDefaults :=
  mkProducerDefaults "default" "default" "cw:" 100000 4.

(** The payload text carried by the argument vector of an appended entry. *)
Definition payload_of (args : list string) : option string :=
  match drop 4 args with
  | "payload" :: p :: _ => Some p
  | _ => None
  end.

(** No appended entry carries a payload longer than [maxBytes]. *)
Definition log_bounded (maxBytes : Z) (log : list (string * list string)) : Prop :=
  Forall (fun e => forall p, payload_of (snd e) = Some p ->
                             (Z.of_nat (String.length p) <= maxBytes)%Z) log.

End Bus.

(* ===================================================================== *)
(** ** The consumer loop: src/bus/consumer.ts and src/bus/retry.ts *)
(* ===================================================================== *)

Module Consumer.

Local Open Scope list_scope.

#[global] Instance Q_eq_dec : EqDecision Q.
Proof. solve_decision. Defined.

Section WithPayload.

(** The JSON values carried as [payload] and [headers]; the consumer only
    moves them around. *)
Context {Payload : Type} `{!EqDecision Payload}.

(** An entry of the topic log; [e_retryOf] and [e_attempt] are the fields
    written by [processRetries]. *)
Record LogEntry : Type := mkLogEntry {
  e_id : nat;
  e_payload : Payload;
  e_headers : Payload;
  e_retryOf : option nat;
  e_attempt : option Z
}.

(** [RetryEntry] of src/bus/retry.ts. *)
Record RetryEntry : Type := mkRetryEntry {
  re_msgId : nat;
  re_payload : Payload;
  re_headers : Payload;
  re_attempt : Z;
  re_nextRetryMs : Q
}.

#[global] Instance RetryEntry_eq_dec : EqDecision RetryEntry.
Proof. solve_decision. Defined.

(** An entry of the dead-letter log. *)
Record DeadLetter : Type := mkDeadLetter {
  dl_originalMsgId : nat;
  dl_payload : Payload;
  dl_headers : Payload;
  dl_reason : string;
  dl_deliveries : Z
}.

(** Modelled from the spec: the native hot store is an external service, so
    the store behind the consumer follows the contract of the hot-store
    interface, for one topic log with one consumer group, its retry set and
    its dead-letter log.  Message ids are the positions in the log;
    [lastDelivered] counts the entries the group has read with start id
    ['>'], [pel] holds the ids in flight. *)
Record Hot : Type := mkHot {
  topicLog : list LogEntry;
  lastDelivered : nat;
  pel : list nat;
  retrySet : list (Q * RetryEntry);
  dlqLog : list DeadLetter
}.

(** Modelled from the spec: [logAppend] returns a new id, larger than every
    id of the log. *)
Definition logAppend (payload headers : Payload) (retryOf : option nat)
    (attempt : option Z) (h : Hot) : Hot * nat :=
  let id := length (topicLog h) in
  (mkHot (topicLog h ++ [mkLogEntry id payload headers retryOf attempt])
         (lastDelivered h) (pel h) (retrySet h) (dlqLog h), id).

(** Modelled from the spec: [groupRead] delivers up to [count]
    never-before-delivered entries and records each as in flight. *)
Definition groupRead (count : nat) (h : Hot) : Hot * list LogEntry :=
  let items := take count (drop (lastDelivered h) (topicLog h)) in
  (mkHot (topicLog h) (lastDelivered h + length items)
         (pel h ++ map e_id items) (retrySet h) (dlqLog h), items).

(** Modelled from the spec: [groupAck] removes the entry from the in-flight
    set. *)
Definition groupAck (id : nat) (h : Hot) : Hot :=
  mkHot (topicLog h) (lastDelivered h)
        (List.filter (fun i => negb (bool_decide (i = id))) (pel h))
        (retrySet h) (dlqLog h).

(** Modelled from the spec: [zsetAdd] inserts or updates a scored member. *)
Definition zsetAdd (score : Q) (member : RetryEntry) (h : Hot) : Hot :=
  mkHot (topicLog h) (lastDelivered h) (pel h)
        (List.filter (fun e => negb (bool_decide (snd e = member))) (retrySet h)
           ++ [(score, member)])
        (dlqLog h).

Fixpoint insert_by_score (x : Q * RetryEntry) (l : list (Q * RetryEntry))
  : list (Q * RetryEntry) :=
  match l with
  | [] => [x]
  | y :: rest => if Qle_bool (fst x) (fst y) then x :: y :: rest
                 else y :: insert_by_score x rest
  end.

(** Modelled from the spec: [zsetRangeByScore(key, -inf, max, limit)] gives
    the members with score at most [max], ascending by score, up to
    [limit]. *)
Definition zsetRangeByScore (max : Q) (limit : nat) (h : Hot) : list RetryEntry :=
  map snd (take limit (foldr insert_by_score []
                         (List.filter (fun e => Qle_bool (fst e) max) (retrySet h)))).

(** Modelled from the spec: [zsetRemove]. *)
Definition zsetRemove (member : RetryEntry) (h : Hot) : Hot :=
  mkHot (topicLog h) (lastDelivered h) (pel h)
        (List.filter (fun e => negb (bool_decide (snd e = member))) (retrySet h))
        (dlqLog h).

(** [sendToDeadLetter] of src/bus/dlq.ts: the append to the dead-letter log;
    the warm copy is the stub's. *)
Definition sendToDeadLetter (msgId : nat) (payload headers : Payload)
    (reason : string) (deliveries : Z) (h : Hot) : Hot :=
  mkHot (topicLog h) (lastDelivered h) (pel h) (retrySet h)
        (dlqLog h ++ [mkDeadLetter msgId payload headers reason deliveries]).

(** *** RetryManager *)

(** [scheduleRetry(topic, subscription, msgId, payload, headers, attempt,
    backoffMs, opts)] at clock reading [now], with [random] the value of
    [Math.random()]. *)
Definition scheduleRetry (now random : Q) (msgId : nat) (payload headers : Payload)
    (attempt : Z) (backoffMs : list Q) (h : Hot) : Hot :=
  let delay := Time.calculateBackoff attempt backoffMs true random in
  let nextRetryMs := (now + delay)%Q in
  let entry := mkRetryEntry msgId payload headers attempt nextRetryMs in
  zsetAdd nextRetryMs entry h.

(** [getReadyRetries(topic, subscription, limit, opts)] *)
Definition getReadyRetries (now : Q) (limit : nat) (h : Hot) : list RetryEntry :=
  zsetRangeByScore now limit h.

(** [removeRetry(topic, subscription, entry, opts)] *)
Definition removeRetry (entry : RetryEntry) (h : Hot) : Hot := zsetRemove entry h.

(** *** Consumer *)

(** The fields of [SubscriptionState] read by the loop. *)
Record SubscriptionState : Type := mkSubscriptionState {
  maxDeliveries : option Z;
  retryBackoffMs : option (list Q);
  count : option nat
}.

(** The state of one [consume] call: the local [deliveryCounts] map and the
    store. *)
Record State : Type := mkState {
  deliveryCounts : gmap nat Z;
  hot : Hot
}.

(** The fields of a [ChronowMessage]. *)
Record Message : Type := mkMessage {
  m_id : nat;
  m_payload : Payload;
  m_headers : Payload;
  m_redeliveryCount : Z
}.

(** [deliveryCounts.get(msgId) || d] *)
Definition count_or (dc : gmap nat Z) (msgId : nat) (d : Z) : Z :=
  match dc !! msgId with
  | Some c => if (c =? 0)%Z then d else c
  | None => d
  end.

(** The dispatch of one entry: the delivery count is read and incremented and
    the message handle is built. *)
Definition dispatch (e : LogEntry) (st : State) : State * Message :=
  let currentCount := count_or (deliveryCounts st) (e_id e) 0 in
  let redeliveryCount := currentCount in
  (mkState (<[e_id e := (currentCount + 1)%Z]> (deliveryCounts st)) (hot st),
   mkMessage (e_id e) (e_payload e) (e_headers e) redeliveryCount).

(** [message.ack()] *)
Definition ack (m : Message) (st : State) : State :=
  mkState (delete (m_id m) (deliveryCounts st)) (groupAck (m_id m) (hot st)).

(** [message.nack(opts)] with [opts.requeue] as [requeue]. *)
Definition nack (config : SubscriptionState) (now random : Q) (m : Message)
    (requeue : bool) (st : State) : State :=
  let deliveries := count_or (deliveryCounts st) (m_id m) 1 in
  if (default 5%Z (maxDeliveries config) <=? deliveries)%Z then
    let h := sendToDeadLetter (m_id m) (m_payload m) (m_headers m)
                              "Max deliveries exceeded" deliveries (hot st) in
    mkState (delete (m_id m) (deliveryCounts st)) (groupAck (m_id m) h)
  else if requeue then
    let h := scheduleRetry now random (m_id m) (m_payload m) (m_headers m) deliveries
               (default [1000; 5000; 30000]%Q (retryBackoffMs config)) (hot st) in
    mkState (deliveryCounts st) (groupAck (m_id m) h)
  else st.

(** [message.deadLetter(reason)] *)
Definition deadLetter (m : Message) (reason : string) (st : State) : State :=
  let deliveries := count_or (deliveryCounts st) (m_id m) 1 in
  let h := sendToDeadLetter (m_id m) (m_payload m) (m_headers m) reason deliveries
                            (hot st) in
  mkState (delete (m_id m) (deliveryCounts st)) (groupAck (m_id m) h).

(** [processRetries]: each ready retry is appended to the topic log as a new
    entry and removed from the retry set. *)
Definition processRetries (now : Q) (st : State) : State :=
  let readyRetries := getReadyRetries now 10 (hot st) in
  foldl (fun acc retry =>
           let h := fst (logAppend (re_payload retry) (re_headers retry)
                                   (Some (re_msgId retry)) (Some (re_attempt retry))
                                   (hot acc)) in
           mkState (deliveryCounts acc) (removeRetry retry h))
        st readyRetries.

(** [autoClaim]: the reply of [xautoclaim] is dropped; a claim changes the
    holder and the idle clock of entries in flight, which the store record
    does not keep. *)
Definition autoClaim (st : State) : State := st.

(** What the caller does with a yielded message before asking for the next. *)
Inductive Action : Type :=
| DoAck
| DoNack (requeue : bool)
| DoDeadLetter (reason : string)
| DoNothing.

Definition perform (config : SubscriptionState) (now random : Q) (m : Message)
    (a : Action) (st : State) : State :=
  match a with
  | DoAck => ack m st
  | DoNack requeue => nack config now random m requeue st
  | DoDeadLetter reason => deadLetter m reason st
  | DoNothing => st
  end.

(** The body of the loop over the entries read: the entry is dispatched and
    the message is yielded to the caller [handler], whose call on the handle
    runs before the next entry. *)
Definition yield_step (config : SubscriptionState) (handler : Message -> Action)
    (now random : Q) (acc : State * list Message) (e : LogEntry)
  : State * list Message :=
  let '(st', m) := dispatch e (fst acc) in
  (perform config now random m (handler m) st', snd acc ++ [m]).

(** One turn of the [while (true)] loop of [consume] at clock reading [now]:
    drain the retries, claim, read, and yield each entry.  The result lists
    the messages yielded. *)
Definition iteration (config : SubscriptionState) (handler : Message -> Action)
    (now random : Q) (st : State) : State * list Message :=
  let st1 := processRetries now st in
  let st2 := autoClaim st1 in
  let '(h, items) := groupRead (default 10%nat (count config)) (hot st2) in
  foldl (yield_step config handler now random)
        (mkState (deliveryCounts st2) h, []) items.

(** The loop run at the clock readings [times]. *)
Fixpoint run (config : SubscriptionState) (handler : Message -> Action)
    (random : Q) (times : list Q) (st : State) : State * list Message :=
  match times with
  | [] => (st, [])
  | now :: rest =>
      let '(st1, ms1) := iteration config handler now random st in
      let '(st2, ms2) := run config handler random rest st1 in
      (st2, ms1 ++ ms2)
  end.

Definition empty_hot : Hot := mkHot [] 0 [] [] [].

(** The caller of the repository's retry example
    (examples/retry-and-dlq.ts): every message is nacked with
    [requeue: true]. *)
Definition always_requeue : Message -> Action := fun _ => DoNack true.

(** The ids of a log are its positions. *)
Definition ids_are_positions (h : Hot) : Prop :=
  forall i e, topicLog h !! i = Some e -> e_id e = i.

(** No entry is dead-lettered, and no counter exists for an id the group has
    not read yet. *)
Definition fresh_ahead (st : State) : Prop :=
  dlqLog (hot st) = []
  /\ ids_are_positions (hot st)
  /\ forall id, (lastDelivered (hot st) <= id)%nat -> deliveryCounts st !! id = None.

End WithPayload.

Arguments LogEntry Payload : clear implicits.
Arguments RetryEntry Payload : clear implicits.
Arguments DeadLetter Payload : clear implicits.
Arguments Hot Payload : clear implicits.
Arguments State Payload : clear implicits.
Arguments Message Payload : clear implicits.

End Consumer.

(* ===================================================================== *)
(** ** Flat arrays given by their pairs *)
(* ===================================================================== *)

Module FlatArrays.

(** The array [[k1, v1, k2, v2, ...]] of a list of key/value pairs. *)
Fixpoint of_pairs (pairs : list (string * string)) : list string :=
  match pairs with
  | [] => []
  | (k, v) :: rest => k :: v :: of_pairs rest
  end.

End FlatArrays.

(* ===================================================================== *)
(** ** src/core/mongoAdapter.ts: keys and sorted sets *)
(* ===================================================================== *)

Module MongoKv.
Import Mongo.

(** [del(...keys)]: [deleteMany({ key: { $in: fullKeys } })] on the [kv]
    collection; the result is [deletedCount]. *)
Definition del (s : Store) (keys : list string) : Store * nat :=
  let fullKeys := map (fun k => keyPrefix s +:+ k) keys in
  let kv' := filter (fun e => e.1 ∉ fullKeys) (kv s) in
  (with_kv kv' s, (size (kv s) - size kv')%nat).

(** [exists(...keys)]: [countDocuments({ key: { $in: fullKeys } })]. *)
Definition exists_ (s : Store) (keys : list string) : nat :=
  let fullKeys := map (fun k => keyPrefix s +:+ k) keys in
  size (filter (fun e => e.1 ∈ fullKeys) (kv s)).

(** A score bound: [-Infinity], [Infinity], a number, or [NaN]. *)
Inductive bound : Type := NegInf | PosInf | Fin (q : Q) | NotANumber.

(** [min === '-inf' ? -Infinity : Number(min)] *)
Definition min_bound (min : string) : bound :=
  if bool_decide (min = "-inf") then NegInf
  else match Number_str min with Some z => Fin (inject_Z z) | None => NotANumber end.

(** [max === '+inf' ? Infinity : Number(max)] *)
Definition max_bound (max : string) : bound :=
  if bool_decide (max = "+inf") then PosInf
  else match Number_str max with Some z => Fin (inject_Z z) | None => NotANumber end.

(** The bound texts covered: the two names of an infinity, each of which is
    read as that infinity in its own place and as [NaN] in the other, and
    the whole numbers of magnitude up to [2^53]. *)
Definition bound_text (s : string) : Prop :=
  s = "-inf" \/ s = "+inf" \/ exists z, whole_text s z.

(** The count after [LIMIT], when it is given as a text, is a whole number
    of magnitude up to [2^53]. *)
Definition limit_text (args : list jsarg) : Prop :=
  forall t, arg_at args (indexOf (AStr "LIMIT") args + 2) = Some (AStr t) ->
            exists z, whole_text t z.

(** [score >= minScore] *)
Definition ge_bound (score : Q) (b : bound) : bool :=
  match b with
  | NegInf => true
  | PosInf => false
  | Fin q => Qle_bool q score
  | NotANumber => false
  end.

(** [score <= maxScore] *)
Definition le_bound (score : Q) (b : bound) : bool :=
  match b with
  | NegInf => false
  | PosInf => true
  | Fin q => Qle_bool score q
  | NotANumber => false
  end.

(** [.sort(([, a], [, b]) => a - b)]: a stable sort by score. *)
Fixpoint insert_scored (x : string * Q) (l : list (string * Q)) : list (string * Q) :=
  match l with
  | [] => [x]
  | y :: rest => if Qle_bool (snd x) (snd y) then x :: y :: rest
                 else y :: insert_scored x rest
  end.

Definition sort_scored (l : list (string * Q)) : list (string * Q) :=
  foldr insert_scored [] l.

(** [.slice(0, limit)]: a negative [limit] counts from the end and [NaN]
    gives the empty array. *)
Definition slice0 {A : Type} (lim : option Z) (l : list A) : list A :=
  match lim with
  | Some z => if (z <? 0)%Z then take (length l - Z.abs_nat z) l
              else take (Z.to_nat z) l
  | None => []
  end.

(** [zrangebyscore(key, min, max, ...args)].  The members come from
    [Object.entries(doc.members)]; members with equal scores keep the order
    of that listing, for which the order of the map stands here. *)
Definition zrangebyscore (s : Store) (key min max : string) (args : list jsarg)
  : list string :=
  let fullKey := keyPrefix s +:+ key in
  match kv s !! fullKey with
  | Some doc =>
      if bool_decide (kv_type doc = Some "zset") then
        let minScore := min_bound min in
        let maxScore := max_bound max in
        let limitIdx := indexOf (AStr "LIMIT") args in
        let lim :=
          if (0 <=? limitIdx)%Z then Number_arg (arg_at args (limitIdx + 2))
          else Some 100%Z in
        map fst
          (slice0 lim
             (sort_scored
                (List.filter (fun e => ge_bound (snd e) minScore
                                       && le_bound (snd e) maxScore)
                             (map_to_list (kv_members doc)))))
      else []
  | None => []
  end.

(** [zrem(key, ...members)]: [$unset] of each path [`members.${member}`]
    on the document found by [{ key, type: 'zset' }], for members that are
    one field of the path ([field_name]); the result is [modifiedCount], 1
    when a member was there to remove.  [updatedAt] is not touched. *)
Definition zrem (s : Store) (key : string) (members : list string) : Store * nat :=
  let fullKey := keyPrefix s +:+ key in
  match kv s !! fullKey with
  | Some doc =>
      if bool_decide (kv_type doc = Some "zset") then
        let members' := foldr delete (kv_members doc) members in
        (with_kv (<[fullKey := mkKvDoc (kv_type doc) (kv_fields doc) members'
                                       (kv_updatedAt doc)]> (kv s)) s,
         if bool_decide (members' = kv_members doc) then 0%nat else 1%nat)
      else (s, 0%nat)
  | None => (s, 0%nat)
  end.

(** [zcard(key)] *)
Definition zcard (s : Store) (key : string) : nat :=
  let fullKey := keyPrefix s +:+ key in
  match kv s !! fullKey with
  | Some doc =>
      if bool_decide (kv_type doc = Some "zset") then size (kv_members doc) else 0%nat
  | None => 0%nat
  end.

(** The order of [.sort({ timestamp: 1, sequence: 1 })]: by timestamp, and
    by sequence number within one timestamp. *)
Definition doc_leq (a b : StreamDoc) : Prop :=
  (d_timestamp a < d_timestamp b)%Z
  \/ (d_timestamp a = d_timestamp b /\ (d_sequence a <= d_sequence b)%nat).

(** There is no [COUNT], or the argument after it is read as a whole
    number of 32 bits. *)
Definition count_text (args : list jsarg) : Prop :=
  (indexOf (AStr "COUNT") args < 0)%Z
  \/ exists z, Number_arg (arg_at args (indexOf (AStr "COUNT") args + 1)) = Some z
               /\ limit_number z.

(** [xrange(stream, start, end, ...args)]: [start] and [end] are not read. *)
Definition xrange (s : Store) (stream start end_ : string) (args : list jsarg)
  : list (string * list (option string)) :=
  let fullStream := keyPrefix s +:+ stream in
  let countIdx := indexOf (AStr "COUNT") args in
  let lim :=
    if (0 <=? countIdx)%Z then Number_arg (arg_at args (countIdx + 1))
    else Some 10%Z in
  render (limit lim (sort_docs (List.filter (in_stream fullStream) (streams s)))).

(** The [_id]s of the [streams] collection are distinct and below the next
    one to hand out. *)
Definition oids_unique (s : Store) : Prop :=
  NoDup (map d_oid (streams s))
  /\ Forall (fun d => (d_oid d < next_oid s)%nat) (streams s).

(** The argument vector [MAXLEN ~ <maxlen> * f1 v1 ...] of an append. *)
Definition maxlen_args (maxlen : string) (fields : list string) : list string :=
  "MAXLEN" :: "~" :: maxlen :: "*" :: fields.

End MongoKv.

(* ===================================================================== *)
(** ** src/core/mongoAdapter.ts: reads of a consumer group *)
(* ===================================================================== *)

Module MongoReads.
Import Mongo.

(** The argument vector of a group read as the consumer issues it:
    [GROUP g c BLOCK blockMs COUNT count STREAMS stream >]. *)
Definition group_read_args (group consumer : string) (blockMs count : Z)
    (stream : string) : list jsarg :=
  [AStr "GROUP"; AStr group; AStr consumer; AStr "BLOCK"; ANum blockMs;
   AStr "COUNT"; ANum count; AStr "STREAMS"; AStr stream; AStr ">"].

(** The names that [xreadgroup] looks for in its argument vector. *)
Definition keyword (x : string) : bool :=
  bool_decide (x ∈ ["GROUP"; "BLOCK"; "COUNT"; "STREAMS"]).

(** The documents selected by the query of [xreadgroup] with start id ['>']:
    the entries of [stream] without [pending.<group>]. *)
Definition undelivered (s : Store) (stream group : string) : list StreamDoc :=
  List.filter (fun d => in_stream (keyPrefix s +:+ stream) d
                        && bool_decide (pending_of group d = None))
              (streams s).

(** The documents whose [_id] is not among those of [batch]. *)
Definition without (batch : list StreamDoc) (l : list StreamDoc) : list StreamDoc :=
  List.filter (fun d => negb (bool_decide (d_oid d ∈ map d_oid batch))) l.

End MongoReads.

(* ===================================================================== *)
(** ** src/core/mongoAdapter.ts: the states that the adapter reaches *)
(* ===================================================================== *)

Module MongoRuns.
Import Mongo MongoKv.

(** The commands of the adapter that write the [streams] collection, a hash
    or a sorted set, with the clock reading of the call. *)
Inductive command : Type :=
| Xadd (now : Z) (stream : string) (args : list string)
| Xreadgroup (now : Z) (args : list jsarg)
| Xack (stream group : string) (ids : list string)
| Xclaim (now : Z) (stream group consumer : string) (minIdleTime : Z)
         (ids : list string)
| Xautoclaim (now : Z) (stream group consumer : string) (minIdleTime : Z)
             (start : string) (args : list jsarg)
| Hset (now : Z) (key field value : string)
| Zadd (now : Z) (key : string) (score : Q) (member : string)
| Zrem (key : string) (members : list string)
| Del (keys : list string).

(** The store after a command, whether the call returned or threw. *)
Definition run_command (c : command) (s : Store) : Store :=
  match c with
  | Xadd now stream args => fst (xadd s now stream args)
  | Xreadgroup now args => fst (xreadgroup s now args)
  | Xack stream group ids => fst (xack s stream group ids)
  | Xclaim now stream group consumer minIdleTime ids =>
      fst (xclaim s now stream group consumer minIdleTime ids)
  | Xautoclaim now stream group consumer minIdleTime start args =>
      fst (xautoclaim s now stream group consumer minIdleTime start args)
  | Hset now key field value => fst (hset s now key field value)
  | Zadd now key score member =>
      match zadd s now key score member with
      | inr (s', _) => s'
      | inl _ => s
      end
  | Zrem key members => fst (zrem s key members)
  | Del keys => fst (del s keys)
  end.

Definition run (commands : list command) (s : Store) : Store :=
  foldl (fun acc c => run_command c acc) s commands.

(** The names that a command puts into an update path are names of one
    field, and a group name is not an index; the field names of an appended
    entry are names that an inserted document holds. *)
Definition well_named (c : command) : bool :=
  match c with
  | Xadd _ _ args => forallb inserted_name (xadd_names args)
  | Xreadgroup _ args => group_name (read_group args) && field_name (read_consumer args)
  | Xack _ group _ => group_name group
  | Xclaim _ _ group consumer _ _ => group_name group && field_name consumer
  | Xautoclaim _ _ group consumer _ _ _ => group_name group && field_name consumer
  | Hset _ _ field _ => field_name field
  | Zadd _ _ _ member => field_name member
  | Zrem _ members => forallb field_name members
  | Del _ => true
  end.

(** Every stream document holds the array that [xadd] wrote as its
    [pending]. *)
Definition pending_arrays (s : Store) : Prop :=
  Forall (fun d => d_pending d = PendingArray) (streams s).

(** Whether [id] names an entry of the log [full]. *)
Definition names_entry (full : string) (s : Store) (id : string) : bool :=
  existsb (fun d => in_stream full d && bool_decide (d_id d = id)) (streams s).


End MongoRuns.

(* ===================================================================== *)
(** ** src/core/config.ts and the mode selection of src/index.ts *)
(* ===================================================================== *)

Module Config.
Import Mongo.

(** [EnvConfig]: every variable is a string or absent. *)
Record EnvConfig : Type := mkEnvConfig {
  REDIS_URL : option string;
  REDIS_TLS : option string;
  REDIS_USERNAME : option string;
  REDIS_PASSWORD : option string;
  REDIS_DB : option string;
  REDIS_KEY_PREFIX : option string;
  REDIS_RETRY_MS : option string;
  REDIS_CLUSTER_NODES : option string;
  REDIS_CA_CERT : option string;
  MONGO_URI : option string;
  SPACE_ACCESS_KEY : option string;
  SPACE_SECRET_KEY : option string;
  SPACE_ENDPOINT : option string;
  REDIS_VISIBILITY_TIMEOUT_MS : option string;
  REDIS_MAX_STREAM_LEN : option string;
  REDIS_MAX_PAYLOAD_BYTES : option string;
  CHRONOW_MONGO_ONLY : option string
}.

(** [a || d] on an optional string: absent and empty are falsy. *)
Definition str_or (a : option string) (d : string) : string :=
  if truthy_str a then default "" a else d.

(** [Number(a || d)] with a numeric default; [None] is [NaN]. *)
Definition number_or (a : option string) (d : Z) : option Z :=
  if truthy_str a then Number_str (default "" a) else Some d.

(** [a ? Number(a) : d] *)
Definition number_if (a : option string) (d : Z) : option Z :=
  if truthy_str a then Number_str (default "" a) else Some d.

(** The [redis] part of a configuration; an absent field is [None], a number
    that is [NaN] is [Some None]. *)
Record RedisOptions : Type := mkRedisOptions {
  rc_url : string;
  rc_tls : option bool;
  rc_username : option string;
  rc_password : option string;
  rc_db : option (option Z);
  rc_keyPrefix : option string;
  rc_retryMs : option (option Z);
  rc_clusterNodes : option jsval;
  rc_caCertPath : option string
}.

(** An entry of [spacesConnections]. *)
Record SpaceConnection : Type := mkSpaceConnection {
  sc_accessKey : string;
  sc_secretKey : string;
  sc_endpoint : string
}.

(** The object built by [buildChronosConfig]: the connection [mongo-primary],
    the optional connection [space-primary]; the [databases] part is a
    constant. *)
Record ChronosConfig : Type := mkChronosConfig {
  cc_mongoUri : string;
  cc_space : option SpaceConnection
}.

(** [ChronowConfig.defaults] as [configFromEnv] fills it. *)
Record Defaults : Type := mkDefaults {
  d_namespace : string;
  d_tenantId : string;
  d_hotTtlSeconds : Z;
  d_warmRetentionDays : Z;
  d_maxValueBytes : Z;
  d_visibilityTimeoutMs : option Z;
  d_maxDeliveries : Z;
  d_retryBackoffMs : list Z;
  d_maxStreamLen : option Z;
  d_maxPayloadBytes : option Z;
  d_pollIntervalMs : Z
}.

(** [ChronowConfig]; [chronos_config] is [config.chronos?.config], [None]
    when it is missing or falsy. *)
Record ChronowConfig : Type := mkChronowConfig {
  mongoOnly : bool;
  redis : option RedisOptions;
  chronos_config : option ChronosConfig;
  defaults : option Defaults
}.

Section WithJSON.

(** [JSON.parse] is the platform's; [None] is a thrown [SyntaxError], whose
    message is [syntax_error]. *)
Variable JSON_parse : string -> option jsval.
Variable syntax_error : string.

(** [buildChronosConfig(env)] *)
Definition buildChronosConfig (env : EnvConfig) : ChronosConfig :=
  let mongoUri := str_or (MONGO_URI env) "mongodb://localhost:27017" in
  mkChronosConfig mongoUri
    (if truthy_str (SPACE_ACCESS_KEY env) && truthy_str (SPACE_SECRET_KEY env)
        && truthy_str (SPACE_ENDPOINT env)
     then Some (mkSpaceConnection (default "" (SPACE_ACCESS_KEY env))
                                  (default "" (SPACE_SECRET_KEY env))
                                  (default "" (SPACE_ENDPOINT env)))
     else None).

(** [configFromEnv(env)]; [inl] is the error thrown by [JSON.parse] on
    [REDIS_CLUSTER_NODES]. *)
Definition configFromEnv (env : EnvConfig) : string + ChronowConfig :=
  let mongoOnly := bool_decide (CHRONOW_MONGO_ONLY env = Some "true") in
  let chronos := buildChronosConfig env in
  let defaults :=
    mkDefaults "default" "default" 3600 30 (256 * 1024)
      (number_or (REDIS_VISIBILITY_TIMEOUT_MS env) 30000)
      5 [1000; 5000; 30000]%Z
      (number_or (REDIS_MAX_STREAM_LEN env) 100000)
      (number_or (REDIS_MAX_PAYLOAD_BYTES env) 262144)
      1000 in
  if negb mongoOnly && truthy_str (REDIS_URL env) then
    let build (clusterNodes : option jsval) :=
      mkChronowConfig mongoOnly
        (Some (mkRedisOptions
                 (default "" (REDIS_URL env))
                 (Some (bool_decide (REDIS_TLS env = Some "true")))
                 (REDIS_USERNAME env)
                 (REDIS_PASSWORD env)
                 (Some (number_if (REDIS_DB env) 0))
                 (Some (str_or (REDIS_KEY_PREFIX env) "cw:"))
                 (Some (number_if (REDIS_RETRY_MS env) 1000))
                 clusterNodes
                 (REDIS_CA_CERT env)))
        (Some chronos) (Some defaults) in
    if truthy_str (REDIS_CLUSTER_NODES env) then
      match JSON_parse (default "" (REDIS_CLUSTER_NODES env)) with
      | Some nodes => inr (build (Some nodes))
      | None => inl syntax_error
      end
    else inr (build None)
  else inr (mkChronowConfig mongoOnly None (Some chronos) (Some defaults)).

End WithJSON.

(** [validateConfig(config)]; [inl] is the message of the error thrown. *)
Definition validateConfig (config : ChronowConfig) : string + unit :=
  if negb (mongoOnly config) && negb (bool_decide (is_Some (redis config))) then
    inl "Either Redis configuration must be provided or mongoOnly must be set to true"
  else if negb (bool_decide (is_Some (chronos_config config))) then
    inl "Chronos-DB configuration is required"
  else inr tt.

(** The choice of the hot store in [Chronow.init]:
    [config.mongoOnly || !config.redis]. *)
Definition init_mongoOnly (config : ChronowConfig) : bool :=
  mongoOnly config || negb (bool_decide (is_Some (redis config))).

(** The key prefix given to the adapter in [Chronow.init]:
    [config.redis?.keyPrefix || 'cw:']. *)
Definition init_adapter_keyPrefix (config : ChronowConfig) : string :=
  str_or (redis config ≫= rc_keyPrefix) "cw:".

(** The key prefix of the bus components in [Chronow.init]:
    [config.redis?.keyPrefix ?? 'cw:']. *)
Definition init_defaults_keyPrefix (config : ChronowConfig) : string :=
  default "cw:" (redis config ≫= rc_keyPrefix).

End Config.

(* ===================================================================== *)
(** ** src/bus/topics.ts over the adapter of src/core/mongoAdapter.ts *)
(* ===================================================================== *)

Module Topics.
Import Mongo MongoKv Bus.

(** A document of the [groups] collection. *)
Record GroupDoc : Type := mkGroupDoc {
  g_lastId : string;
  g_createdAt : Z
}.

(** The adapter with its [groups] collection.  The collection has a unique
    index on [(stream, group)], so it is a map from that pair; a group that
    is [undefined] is stored as [null], here [None]. *)
Record Adapter : Type := mkAdapter {
  ad_store : Store;
  ad_groups : gmap (string * option string) GroupDoc
}.

#[local] Notation "x <- m ;; k" := (bind m (fun x => k))
  (at level 100, m at next level, right associativity).

(** The text of an optional string inside a concatenation. *)
Definition String_opt (a : option string) : string := default "undefined" a.

(** [a || d] on an optional string. *)
Definition or_str (a : option string) (d : string) : string :=
  if truthy_str a then default "" a else d.

(** [xgroup(command, ...args)] at clock reading [now]. *)
Definition xgroup (now : Z) (command : string) (args : list string)
  : M Adapter jsarg :=
  fun a =>
    let stream := args !! 0%nat in
    let group := args !! 1%nat in
    let fullStream := keyPrefix (ad_store a) +:+ String_opt stream in
    if bool_decide (command = "CREATE") then
      match ad_groups a !! (fullStream, group) with
      | Some _ => (Throw "BUSYGROUP Consumer Group name already exists", a)
      | None =>
          (Return (AStr "OK"),
           mkAdapter (ad_store a)
             (<[(fullStream, group) := mkGroupDoc (or_str (args !! 2%nat) "0-0") now]>
                (ad_groups a)))
      end
    else if bool_decide (command = "DESTROY") then
      (Return (ANum 1),
       mkAdapter (ad_store a) (delete (fullStream, group) (ad_groups a)))
    else (Return (AStr "OK"), a).

(** [xinfo(command, stream)] *)
Definition xinfo (command stream : string) : M Adapter (list jsval) :=
  fun a =>
    let fullStream := keyPrefix (ad_store a) +:+ stream in
    if bool_decide (command = "STREAM") then
      let count := count_stream fullStream (streams (ad_store a)) in
      let groups := size (filter (fun e => fst (fst e) = fullStream) (ad_groups a)) in
      (Return [JStr "length"; JNum (Z.of_nat count);
               JStr "groups"; JNum (Z.of_nat groups)], a)
    else (Return [], a).

(** The commands on the [kv] collection, as calls of the client. *)
Definition redis_hset (now : Z) (key field value : string) : M Adapter nat :=
  fun a => let '(s, n) := hset (ad_store a) now key field value in
           (Return n, mkAdapter s (ad_groups a)).

Definition redis_hget (key field : string) : M Adapter (option hval) :=
  fun a => (Return (hget (ad_store a) key field), a).

Definition redis_del (keys : list string) : M Adapter nat :=
  fun a => let '(s, n) := del (ad_store a) keys in
           (Return n, mkAdapter s (ad_groups a)).

(** [s.includes(sub)] *)
Definition includes (s sub : string) : bool :=
  match String.index 0 sub s with Some _ => true | None => false end.

(** [TopicManagerDefaults] *)
Record TopicManagerDefaults : Type := mkTopicManagerDefaults {
  t_namespace : string;
  t_tenantId : string;
  t_keyPrefix : string;
  t_visibilityTimeoutMs : Z;
  t_maxDeliveries : Z;
  t_retryBackoffMs : list Z
}.

(** [SubscriptionConfig]: every field is optional. *)
Record SubscriptionConfig : Type := mkSubscriptionConfig {
  s_visibilityTimeoutMs : option Z;
  s_maxDeliveries : option Z;
  s_retryBackoffMs : option (list Z);
  s_deadLetterEnabled : option bool;
  s_shardCount : option Z;
  s_blockMs : option Z;
  s_count : option Z
}.

Section WithDefaults.

Variable tdefaults : TopicManagerDefaults.

(** [JSON.stringify] and [JSON.parse] are the platform's; a text that does
    not parse throws [syntax_error]. *)
Variable JSON_stringify : jsval -> string.
Variable JSON_parse : string -> option jsval.
Variable syntax_error : string.

Definition topicKey_of (topic : string) (opts : ScopeOptions) : string :=
  let namespace := default (t_namespace tdefaults) (o_namespace opts) in
  let tenantId := default (t_tenantId tdefaults) (o_tenantId opts) in
  Keys.buildTopicKey topic tenantId namespace (t_keyPrefix tdefaults).

(** [`${topicKey}:sub:${subscription}:config`] *)
Definition configKey_of (topic subscription : string) (opts : ScopeOptions) : string :=
  topicKey_of topic opts +:+ ":sub:" +:+ subscription +:+ ":config".

(** The [catch] of [ensureTopic] and [ensureSubscription]. *)
Definition ignore_busygroup (e : string) : M Adapter unit :=
  if includes e "BUSYGROUP" then ret tt else throw e.

(** [ensureTopic(topic, opts)]; [warm.saveTopic] is the stub's. *)
Definition ensureTopic (now : Z) (topic : string) (opts : ScopeOptions)
  : M Adapter unit :=
  let topicKey := topicKey_of topic opts in
  _ <- try_catch
         (_ <- xgroup now "CREATE" [topicKey; "_init"; "0"; "MKSTREAM"] ;;
          _ <- xgroup now "DESTROY" [topicKey; "_init"] ;;
          ret tt)
         ignore_busygroup ;;
  ret tt.

(** The [SubscriptionState] object written by [ensureSubscription]. *)
Definition subscription_state (now : Z) (topic subscription : string)
    (config : SubscriptionConfig) : jsval :=
  JObj [("topic", JStr topic);
        ("subscription", JStr subscription);
        ("visibilityTimeoutMs",
         JNum (default (t_visibilityTimeoutMs tdefaults) (s_visibilityTimeoutMs config)));
        ("maxDeliveries",
         JNum (default (t_maxDeliveries tdefaults) (s_maxDeliveries config)));
        ("retryBackoffMs",
         JArr (map JNum (default (t_retryBackoffMs tdefaults) (s_retryBackoffMs config))));
        ("deadLetterEnabled", JBool (default true (s_deadLetterEnabled config)));
        ("shardCount", JNum (default 1%Z (s_shardCount config)));
        ("blockMs", JNum (default 10000%Z (s_blockMs config)));
        ("count", JNum (default 10%Z (s_count config)));
        ("createdAt", JNum now)].

(** [ensureSubscription(topic, subscription, config, opts)] *)
Definition ensureSubscription (now : Z) (topic subscription : string)
    (config : SubscriptionConfig) (opts : ScopeOptions) : M Adapter unit :=
  let namespace := default (t_namespace tdefaults) (o_namespace opts) in
  let tenantId := default (t_tenantId tdefaults) (o_tenantId opts) in
  let topicKey := topicKey_of topic opts in
  let groupName := Keys.buildConsumerGroup subscription in
  _ <- ensureTopic now topic (mkScope (Some namespace) (Some tenantId)) ;;
  _ <- try_catch
         (_ <- xgroup now "CREATE" [topicKey; groupName; "0"; "MKSTREAM"] ;; ret tt)
         ignore_busygroup ;;
  _ <- redis_hset now (configKey_of topic subscription opts) "config"
         (JSON_stringify (subscription_state now topic subscription config)) ;;
  ret tt.

(** [getSubscriptionConfig(topic, subscription, opts)]; [None] is [null].
    A value that is not a string is no JSON text either. *)
Definition getSubscriptionConfig (topic subscription : string) (opts : ScopeOptions)
  : M Adapter (option jsval) :=
  configStr <- redis_hget (configKey_of topic subscription opts) "config" ;;
  match configStr with
  | None => ret None
  | Some (HStr str) =>
      match JSON_parse str with
      | Some v => ret (Some v)
      | None => throw syntax_error
      end
  | Some (HInherited _) => throw syntax_error
  end.

(** [deleteSubscription(topic, subscription, opts)] *)
Definition deleteSubscription (now : Z) (topic subscription : string)
    (opts : ScopeOptions) : M Adapter unit :=
  let topicKey := topicKey_of topic opts in
  let groupName := Keys.buildConsumerGroup subscription in
  _ <- xgroup now "DESTROY" [topicKey; groupName] ;;
  _ <- redis_del [configKey_of topic subscription opts] ;;
  ret tt.

(** [purgeTopic(topic, opts)] *)
Definition purgeTopic (now : Z) (topic : string) (opts : ScopeOptions)
  : M Adapter unit :=
  let namespace := default (t_namespace tdefaults) (o_namespace opts) in
  let tenantId := default (t_tenantId tdefaults) (o_tenantId opts) in
  _ <- redis_del [topicKey_of topic opts] ;;
  ensureTopic now topic (mkScope (Some namespace) (Some tenantId)).

End WithDefaults.

(** A fresh adapter. *)
Definition connect (prefix : string) : Adapter := mkAdapter (Mongo.connect prefix) ∅.

End Topics.

(* ===================================================================== *)
(** ** Runs of the consumer loop under any caller *)
(* ===================================================================== *)

Module ConsumerRuns.
Import Consumer.

Section WithPayload.

Context {Payload : Type} `{!EqDecision Payload}.

(** The ids of the log are its positions, and no counter exists for an id
    the group has not read yet. *)
Definition counters_ahead (st : State Payload) : Prop :=
  ids_are_positions (hot st)
  /\ forall id, (lastDelivered (hot st) <= id)%nat -> deliveryCounts st !! id = None.

(** A dead letter written at a first delivery; when the cap is above 1 it
    is one that the caller asked for with [deadLetter(reason)]. *)
Definition first_delivery_dead_letter (config : SubscriptionState)
    (handler : Message Payload -> Action) (d : DeadLetter Payload) : Prop :=
  dl_deliveries d = 1%Z
  /\ ((2 <= default 5 (maxDeliveries config))%Z ->
      exists m, handler m = DoDeadLetter (dl_reason d)
                /\ m_id m = dl_originalMsgId d
                /\ m_redeliveryCount m = 0%Z).

(** No retry of the set is due at [now]. *)
Definition none_due (now : Q) (h : Hot Payload) : Prop :=
  Forall (fun e => (now < fst e)%Q) (retrySet h).

End WithPayload.

End ConsumerRuns.

(* ===================================================================== *)
(** ** src/bus/producer.ts: a batch published one message at a time *)
(* ===================================================================== *)

Module Batches.
Import Bus.

Section WithStore.

Context {St : Type}.
Variable redis : RedisClient St.
Variable JSON_stringify : jsval -> string.
Variable hashValue : jsval -> string.
Variable isoNow : string.
Variable pdefaults : ProducerDefaults.

(** The caller's loop
    [for (const msg of messages) ids.push(await publish(topic, msg.payload,
    { ...opts, headers: msg.headers }))]. *)
Fixpoint publish_each (topic : string) (messages : list BatchMessage)
    (opts : PublishOptions) : M St (list string) :=
  match messages with
  | [] => ret []
  | msg :: rest =>
      bind (publish redis JSON_stringify hashValue isoNow pdefaults topic
              (bm_payload msg)
              (mkPublishOptions (po_persistWarmCopy opts) (bm_headers msg)
                                (po_scope opts)))
           (fun id =>
              bind (publish_each topic rest opts) (fun ids => ret (id :: ids)))
  end.

(** The command that [publishBatch] queues for a message. *)
Definition queued_xadd (topicKey : string) (msg : BatchMessage)
  : string * list string :=
  (topicKey,
   publish_args JSON_stringify hashValue isoNow pdefaults (bm_payload msg)
                (default (JObj []) (bm_headers msg))).

End WithStore.

End Batches.

(* ===================================================================== *)
(** ** The bus components with the adapter as their client:
       src/bus/producer.ts, src/bus/dlq.ts, src/bus/retry.ts *)
(* ===================================================================== *)

Module AdapterClient.
Import Mongo MongoKv Bus.

(** The adapter's commands as calls of the client, at clock reading [now]. *)
Definition adapter_xadd (now : Z) (key : string) (args : list string)
  : M Store string :=
  fun s => let '(s', id) := xadd s now key args in (Return id, s').

Definition adapter_xlen (key : string) : M Store nat :=
  fun s => (Return (xlen s key), s).

Definition adapter_del (keys : list string) : M Store nat :=
  fun s => let '(s', n) := del s keys in (Return n, s').

Definition adapter_zcard (key : string) : M Store nat :=
  fun s => (Return (zcard s key), s).

(** [purgeDlq(topic, opts)] of src/bus/dlq.ts *)
Definition purgeDlq (mdefaults : ManagerDefaults) (topic : string)
    (opts : ScopeOptions) : M Store unit :=
  let namespace := default (m_namespace mdefaults) (o_namespace opts) in
  let tenantId := default (m_tenantId mdefaults) (o_tenantId opts) in
  let dlqKey := Keys.buildDlqKey topic tenantId namespace (m_keyPrefix mdefaults) in
  bind (adapter_del [dlqKey]) (fun _ => ret tt).

(** [RetryManagerDefaults] *)
Record RetryManagerDefaults : Type := mkRetryManagerDefaults {
  rm_namespace : string;
  rm_tenantId : string;
  rm_keyPrefix : string;
  rm_retryBackoffMs : list Q
}.

(** [getRetryCount(topic, subscription, opts)] of src/bus/retry.ts *)
Definition getRetryCount (rdefaults : RetryManagerDefaults)
    (topic subscription : string) (opts : ScopeOptions) : M Store nat :=
  let namespace := default (rm_namespace rdefaults) (o_namespace opts) in
  let tenantId := default (rm_tenantId rdefaults) (o_tenantId opts) in
  let retryKey := Keys.buildRetryKey topic subscription tenantId namespace
                                     (rm_keyPrefix rdefaults) in
  adapter_zcard retryKey.

(** [clearRetries(topic, subscription, opts)] of src/bus/retry.ts *)
Definition clearRetries (rdefaults : RetryManagerDefaults)
    (topic subscription : string) (opts : ScopeOptions) : M Store unit :=
  let namespace := default (rm_namespace rdefaults) (o_namespace opts) in
  let tenantId := default (rm_tenantId rdefaults) (o_tenantId opts) in
  let retryKey := Keys.buildRetryKey topic subscription tenantId namespace
                                     (rm_keyPrefix rdefaults) in
  bind (adapter_del [retryKey]) (fun _ => ret tt).

End AdapterClient.

(* ===================================================================== *)
(** ** src/bus/consumer.ts: the decoding of an entry in [consume] *)
(* ===================================================================== *)

Module Decode.

(** The values that are falsy in [a || b]. *)
Definition js_truthy (v : jsval) : bool :=
  match v with
  | JUndef | JNull | JBool false | JNum 0 | JStr "" => false
  | _ => true
  end.

Section WithJSON.

Variable JSON_parse : string -> option jsval.

(** [data.k] for a name [k] that the built-in prototypes do not define
    ([payload], [headers]): the own property, or else the property of a
    parsed object that was made the prototype, or else [undefined]. *)
Definition field (data : Codecs.Obj) (k : string) : jsval :=
  match Codecs.own data !! k with
  | Some v => v
  | None =>
      match Codecs.proto data with
      | Codecs.ValuePrototype (JObj l) =>
          default JUndef (snd <$> List.find (fun e => bool_decide (fst e = k)) l)
      | _ => JUndef
      end
  end.

(** The body of the [try] in [consume]:
    [payload = typeof data.payload === 'string' ? JSON.parse(data.payload)
    : data.payload] and [headers = typeof data.headers === 'string' ?
    JSON.parse(data.headers) : data.headers || {}], on
    [data = fromFlatArray(fields)].  [None] is the [catch]: the entry is
    acknowledged and skipped. *)
Definition decode (fields : list string) : option (jsval * jsval) :=
  let data := Codecs.fromFlatArray JSON_parse fields in
  let payload :=
    match field data "payload" with
    | JStr s => JSON_parse s
    | v => Some v
    end in
  let headers :=
    match field data "headers" with
    | JStr s => JSON_parse s
    | v => Some (if js_truthy v then v else JObj [])
    end in
  match payload, headers with
  | Some p, Some h => Some (p, h)
  | _, _ => None
  end.

End WithJSON.

(** The field-value array of the entry that [publish] appends: the
    arguments of its [xadd] after [MAXLEN ~ n *]. *)
Definition published_fields (JSON_stringify hashValue : jsval -> string)
    (isoNow : string) (pdefaults : Bus.ProducerDefaults) (payload headers : jsval)
  : list string :=
  drop 4 (Bus.publish_args JSON_stringify hashValue isoNow pdefaults payload headers).

End Decode.

(* ===================================================================== *)
(** * Properties *)
(* ===================================================================== *)

Section StringFacts.

Lemma app_prefix_cancel (p x y : string) : p +:+ x = p +:+ y -> x = y.
Proof.
  induction p as [|c p IH]; simpl; intros H; [exact H|].
  injection H as H. auto.
Qed.

(** Two strings that agree up to their first separator, when the parts
    before it hold no separator. *)
Lemma colon_split (a b x y : string) :
  Keys.colon_free a = true -> Keys.colon_free b = true ->
  a +:+ ":" +:+ x = b +:+ ":" +:+ y -> a = b /\ x = y.
Proof.
  revert b. induction a as [|c a IH]; intros [|d b] Ha Hb H; simpl in *.
  - injection H as H. auto.
  - injection H as Hc _. subst d.
    apply andb_true_iff in Hb as [Hb _]. simpl in Hb. discriminate.
  - injection H as Hc _. subst c.
    apply andb_true_iff in Ha as [Ha _]. simpl in Ha. discriminate.
  - injection H as Hc H. subst d.
    apply andb_true_iff in Ha as [_ Ha]. apply andb_true_iff in Hb as [_ Hb].
    destruct (IH b Ha Hb H) as [-> ->]. auto.
Qed.

End StringFacts.

(* --------------------------------------------------------------------- *)
(** ** Key composition *)
(* --------------------------------------------------------------------- *)

Module KeysProps.
Import Keys.

Lemma kind_str_colon_free (k : Kind) : colon_free (kind_str k) = true.
Proof. destruct k; reflexivity. Qed.

Lemma kind_str_inj (k1 k2 : Kind) : kind_str k1 = kind_str k2 -> k1 = k2.
Proof. destruct k1, k2; simpl; intros H; try reflexivity; discriminate. Qed.

(** Past the scope, the kind is read off the key: the kind texts hold no
    separator. *)
Lemma kind_of_tail (k1 k2 : Kind) (nm1 nm2 : string) :
  kind_str k1 +:+ ":" +:+ nm1 = kind_str k2 +:+ ":" +:+ nm2 -> k1 = k2.
Proof.
  intros H. apply colon_split in H as [H _]; [|apply kind_str_colon_free..].
  apply kind_str_inj, H.
Qed.

(** Under one tenant and one namespace the kind separates keys, whatever the
    strings are. *)
Lemma buildKey_kind_same_scope (pre t n nm1 nm2 : string) (k1 k2 : Kind) :
  buildKey (mkKeyParams t n k1 nm1) pre = buildKey (mkKeyParams t n k2 nm2) pre ->
  k1 = k2.
Proof.
  unfold buildKey; simpl. intros H.
  apply (app_prefix_cancel pre) in H. apply (app_prefix_cancel t) in H.
  simpl in H. injection H as H. apply (app_prefix_cancel n) in H.
  simpl in H. injection H as H.
  apply kind_of_tail in H. exact H.
Qed.

(** With tenants and namespaces free of the separator the kind separates
    keys, whatever the names are. *)
Lemma buildKey_kind_colon_free (pre : string) (p1 p2 : KeyParams) :
  colon_free (tenantId p1) = true -> colon_free (namespace p1) = true ->
  colon_free (tenantId p2) = true -> colon_free (namespace p2) = true ->
  buildKey p1 pre = buildKey p2 pre -> kind p1 = kind p2.
Proof.
  intros Ht1 Hn1 Ht2 Hn2 H. unfold buildKey in H.
  apply (app_prefix_cancel pre) in H.
  apply colon_split in H as [_ H]; [|assumption..].
  apply colon_split in H as [_ H]; [|assumption..].
  apply kind_of_tail in H. exact H.
Qed.

(** C7, as stated, fails: two keys of distinct kinds are equal when a
    namespace holds the separator.  The [sm] key named ["topic:x"] in
    namespace ["b"] and the [topic] key named ["x"] in namespace ["b:sm"]
    are both ["cw:a:b:sm:topic:x"]. *)
Lemma buildKey_kinds_collide :
  ~ (forall (pre : string) (p1 p2 : KeyParams),
        kind p1 <> kind p2 -> buildKey p1 pre <> buildKey p2 pre).
Proof.
  intros H.
  apply (H "cw:" (mkKeyParams "a" "b" Sm "topic:x") (mkKeyParams "a" "b:sm" Topic "x")).
  - simpl. discriminate.
  - reflexivity.
Qed.

(** C7, amended: a key is the prefix followed by tenant, namespace, kind and
    name joined by [':'], and under one prefix two keys of distinct kinds
    differ when they have the same tenant and namespace, or when their
    tenants and namespaces hold no [':']; the names are arbitrary and may
    hold [':']. *)
Theorem buildKey_kinds_disjoint (pre : string) (p1 p2 : KeyParams) :
  (tenantId p1 = tenantId p2 /\ namespace p1 = namespace p2)
  \/ (colon_free (tenantId p1) = true /\ colon_free (namespace p1) = true
      /\ colon_free (tenantId p2) = true /\ colon_free (namespace p2) = true) ->
  kind p1 <> kind p2 ->
  buildKey p1 pre
    = pre +:+ tenantId p1 +:+ ":" +:+ namespace p1 +:+ ":"
          +:+ kind_str (kind p1) +:+ ":" +:+ name p1
  /\ buildKey p1 pre <> buildKey p2 pre.
Proof.
  intros Hscope Hk. split; [reflexivity|]. intros H. apply Hk.
  destruct Hscope as [[Ht Hn]|(Ht1 & Hn1 & Ht2 & Hn2)].
  - destruct p1 as [t1 n1 k1 nm1], p2 as [t2 n2 k2 nm2]. simpl in *. subst t2 n2.
    by apply (buildKey_kind_same_scope pre t1 n1 nm1 nm2).
  - by apply (buildKey_kind_colon_free pre p1 p2).
Qed.

(** The retry key of topic ["orders"] and subscription ["fraud"], whose name
    holds [':'], against the topic key of a topic named ["orders:fraud"]; and
    two keys under the tenant ["a:b"]. *)
Lemma buildKey_kinds_disjoint_witness :
  (buildRetryKey "orders" "fraud" "t1" "ns" "cw:" = "cw:t1:ns:retry:orders:fraud"
   /\ buildRetryKey "orders" "fraud" "t1" "ns" "cw:"
      <> buildTopicKey "orders:fraud" "t1" "ns" "cw:")
  /\ buildDlqKey "x" "a:b" "ns" "cw:" <> buildTopicKey "dlq:x" "a:b" "ns" "cw:".
Proof.
  split.
  - apply (buildKey_kinds_disjoint "cw:"
             (mkKeyParams "t1" "ns" Retry "orders:fraud")
             (mkKeyParams "t1" "ns" Topic "orders:fraud")).
    + right. repeat split; reflexivity.
    + simpl. discriminate.
  - apply (buildKey_kinds_disjoint "cw:"
             (mkKeyParams "a:b" "ns" Dlq "x") (mkKeyParams "a:b" "ns" Topic "dlq:x")).
    + left. split; reflexivity.
    + simpl. discriminate.
Defined.

End KeysProps.

(* --------------------------------------------------------------------- *)
(** ** The flat-array codec *)
(* --------------------------------------------------------------------- *)

Module CodecsProps.
Import Codecs.

Lemma assign_other (key : string) (v : jsval) (o : Obj) :
  key <> "__proto__" -> assign key v o = mkObj (<[key := v]> (own o)) (proto o).
Proof.
  intros Hk. unfold assign. by rewrite (bool_decide_eq_false_2 _ Hk).
Qed.

Section WithJSON.

Variable JSON_parse : string -> option jsval.
Variable JSON_stringify : jsval -> string.

Abbreviation parse_or_keep := (parse_or_keep JSON_parse).
Abbreviation fromFlatArray := (fromFlatArray JSON_parse).
Abbreviation toFlatArray := (toFlatArray JSON_stringify).
Abbreviation text_of := (text_of JSON_stringify).

Lemma loop_entries (es : list (string * jsval)) :
  NoDup es.*1 -> "__proto__" ∉ es.*1 ->
  forall (obj : Obj) (k : string),
    own (fromFlatArray_loop JSON_parse (toFlatArray_entries JSON_stringify es) obj) !! k
    = match (list_to_map es : gmap string jsval) !! k with
      | Some v => Some (parse_or_keep (text_of v))
      | None => own obj !! k
      end.
Proof.
  induction es as [|[k0 v0] es IH]; intros Hnd Hproto obj k.
  - simpl. by rewrite lookup_empty.
  - simpl in Hnd, Hproto. apply NoDup_cons in Hnd as [Hk0 Hnd].
    apply not_elem_of_cons in Hproto as [Hne0 Hproto].
    cbn [toFlatArray_entries fromFlatArray_loop list_to_map foldr].
    rewrite (IH Hnd Hproto). cbn [uncurry Datatypes.uncurry fst snd].
    rewrite assign_other by congruence. cbn [own].
    destruct (decide (k = k0)) as [->|Hne].
    + rewrite (not_elem_of_list_to_map_1 (M := gmap string) es k0 Hk0).
      rewrite !lookup_insert_eq. destruct v0; reflexivity.
    + rewrite (lookup_insert_ne (list_to_map es)) by congruence.
      destruct (list_to_map es !! k); [reflexivity|].
      rewrite lookup_insert_ne by congruence. reflexivity.
Qed.

Lemma loop_entries_proto (es : list (string * jsval)) :
  "__proto__" ∉ es.*1 ->
  forall obj : Obj,
    proto (fromFlatArray_loop JSON_parse (toFlatArray_entries JSON_stringify es) obj)
    = proto obj.
Proof.
  induction es as [|[k0 v0] es IH]; intros Hproto obj; [reflexivity|].
  simpl in Hproto. apply not_elem_of_cons in Hproto as [Hne0 Hproto].
  cbn [toFlatArray_entries fromFlatArray_loop].
  rewrite (IH Hproto). by rewrite assign_other by congruence.
Qed.

Lemma no_proto_key (obj : gmap string jsval) :
  obj !! "__proto__" = None -> "__proto__" ∉ (map_to_list obj).*1.
Proof.
  intros Hnone Hin. apply list_elem_of_fmap in Hin as ([k v] & Hk & Hin).
  cbn in Hk. subst k. apply elem_of_map_to_list in Hin. congruence.
Qed.

(** For every dictionary without a property named [__proto__], also one
    with values that are not strings, the round trip re-reads the text
    written for each value and keeps the prototype. *)
Lemma fromFlatArray_toFlatArray_lookup (obj : gmap string jsval) (k : string) :
  obj !! "__proto__" = None ->
  own (fromFlatArray (toFlatArray obj)) !! k
  = (fun v => parse_or_keep (text_of v)) <$> obj !! k
  /\ proto (fromFlatArray (toFlatArray obj)) = ObjectPrototype.
Proof.
  intros Hnone. apply no_proto_key in Hnone.
  unfold Codecs.fromFlatArray, Codecs.toFlatArray, Object_entries. split.
  - rewrite loop_entries by (apply NoDup_fst_map_to_list || exact Hnone).
    rewrite list_to_map_to_list. cbn [own empty_obj]. rewrite lookup_empty.
    destruct (obj !! k); reflexivity.
  - by rewrite loop_entries_proto.
Qed.

(** C8, amended: the round trip of a string-to-string dictionary [m] that
    has no property named [__proto__] is an object with the prototype of
    [{}] that binds each key to [JSON.parse] of its value when the value is
    JSON text and to the value itself otherwise; and, since parsing a text
    never gives back that same text as a string, the round trip is the
    identity exactly when no value of [m] parses as JSON. *)
Theorem fromFlatArray_toFlatArray (m : gmap string string) :
  m !! "__proto__" = None ->
  (forall k : string,
      own (fromFlatArray (toFlatArray (JStr <$> m))) !! k
      = (fun v => match JSON_parse v with Some j => j | None => JStr v end) <$> m !! k)
  /\ proto (fromFlatArray (toFlatArray (JStr <$> m))) = ObjectPrototype
  /\ ((forall s : string, JSON_parse s <> Some (JStr s)) ->
      (fromFlatArray (toFlatArray (JStr <$> m)) = mkObj (JStr <$> m) ObjectPrototype
       <-> forall k v, m !! k = Some v -> JSON_parse v = None)).
Proof.
  intros Hnone.
  assert (Hnone' : (JStr <$> m : gmap string jsval) !! "__proto__" = None)
    by (by rewrite lookup_fmap, Hnone).
  assert (Hlk : forall k : string,
      own (fromFlatArray (toFlatArray (JStr <$> m))) !! k
      = (fun v => match JSON_parse v with Some j => j | None => JStr v end) <$> m !! k).
  { intros k.
    rewrite (proj1 (fromFlatArray_toFlatArray_lookup _ k Hnone')), lookup_fmap.
    destruct (m !! k); reflexivity. }
  pose proof (proj2 (fromFlatArray_toFlatArray_lookup _ "" Hnone')) as Hproto.
  split; [exact Hlk|]. split; [exact Hproto|]. intros Hstr. split.
  - intros Heq k v Hkv.
    pose proof (Hlk k) as Hk. rewrite Heq in Hk. cbn [own] in Hk.
    rewrite lookup_fmap, Hkv in Hk. simpl in Hk.
    destruct (JSON_parse v) as [j|] eqn:Hp; [|reflexivity].
    injection Hk as <-. by destruct (Hstr v).
  - intros Hnone2.
    destruct (fromFlatArray (toFlatArray (JStr <$> m))) as [o p] eqn:Hr.
    cbn [own proto] in Hlk, Hproto. subst p. f_equal. apply map_eq. intros k.
    rewrite Hlk, lookup_fmap. destruct (m !! k) as [v|] eqn:Hkv; [|reflexivity].
    simpl. by rewrite (Hnone2 k v Hkv).
Qed.

End WithJSON.

Lemma literal_parse_not_same (s : string) : literal_parse s <> Some (JStr s).
Proof.
  unfold literal_parse. repeat case_bool_decide; discriminate.
Qed.

(** C8, as stated, fails for a dictionary with a property named
    [__proto__]: the value ["x"] is no JSON text, yet the round trip of
    [{ "__proto__": "x" }] does not bind that key to ["x"]: the assignment of
    a string to [__proto__] is ignored and the object comes back empty. *)
Lemma fromFlatArray_drops_proto_key :
  let m : gmap string string := {[ "__proto__" := "x" ]} in
  toFlatArray (fun _ => "") (JStr <$> m) = ["__proto__"; "x"]
  /\ literal_parse "x" = None
  /\ fromFlatArray literal_parse (toFlatArray (fun _ => "") (JStr <$> m)) = empty_obj
  /\ own (fromFlatArray literal_parse (toFlatArray (fun _ => "") (JStr <$> m)))
       !! "__proto__"
     <> (fun v => match literal_parse v with Some j => j | None => JStr v end)
          <$> m !! "__proto__".
Proof.
  intros m. subst m.
  assert (Hflat : toFlatArray (fun _ => "") (JStr <$> ({[ "__proto__" := "x" ]}
                                                     : gmap string string))
                  = ["__proto__"; "x"]).
  { unfold toFlatArray, Object_entries. rewrite map_fmap_singleton.
    by rewrite map_to_list_singleton. }
  rewrite Hflat. split; [reflexivity|]. split; [reflexivity|].
  split; [reflexivity|].
  rewrite lookup_singleton_eq. discriminate.
Qed.

(** The dictionary [{ n: "123", t: "hello" }]: ["123"] comes back as the
    number 123, so the round trip is not the identity. *)
Lemma fromFlatArray_toFlatArray_witness :
  let m : gmap string string := {[ "n" := "123"; "t" := "hello" ]} in
  own (fromFlatArray literal_parse (toFlatArray (fun _ => "") (JStr <$> m))) !! "n"
    = Some (JNum 123)
  /\ (fromFlatArray literal_parse (toFlatArray (fun _ => "") (JStr <$> m))
      = mkObj (JStr <$> m) ObjectPrototype
      <-> forall k v, m !! k = Some v -> literal_parse v = None).
Proof.
  intros m.
  destruct (fromFlatArray_toFlatArray literal_parse (fun _ => "") m)
    as (Hlk & _ & Hiff); [reflexivity|].
  split.
  - rewrite Hlk. reflexivity.
  - apply Hiff, literal_parse_not_same.
Defined.

End CodecsProps.

(* --------------------------------------------------------------------- *)
(** ** Retry delays *)
(* --------------------------------------------------------------------- *)

Module RetryProps.
Import Doubles Time Consumer.

Local Open Scope Q_scope.

Lemma js_or_pos (b : Q) (o : option Q) : 0 < b -> js_or (Some b) o = Some b.
Proof.
  intros Hb. unfold js_or.
  destruct (Qeq_bool b 0) eqn:E; [|reflexivity].
  apply Qeq_bool_eq in E. rewrite E in Hb. by apply Qlt_irrefl in Hb.
Qed.

(** With a positive entry at the index the code reads, that entry is the
    base delay. *)
Lemma calculateBackoff_base (attempt : Z) (backoffMs : list Q) (random b : Q) :
  arr_at backoffMs (Z.min attempt (Z.of_nat (length backoffMs) - 1)) = Some b ->
  0 < b ->
  calculateBackoff attempt backoffMs true random = b + random * (b * (2 # 10)).
Proof.
  intros Hat Hb. unfold calculateBackoff. cbv zeta.
  rewrite Hat, (js_or_pos b _ Hb), (js_or_pos b _ Hb). reflexivity.
Qed.

(** What [scheduleRetry] writes: one member, scored by its [nextRetryMs]. *)
Lemma scheduleRetry_last {Payload : Type} `{!EqDecision Payload}
    (now random : Q) (msgId : nat) (payload headers : Payload) (attempt : Z)
    (backoffMs : list Q) (h : Hot Payload) :
  let score := now + calculateBackoff attempt backoffMs true random in
  last (retrySet (scheduleRetry now random msgId payload headers attempt backoffMs h))
  = Some (score, mkRetryEntry msgId payload headers attempt score).
Proof. simpl. apply last_snoc. Qed.

(** C4, as stated, fails: at attempt 1 with the back-off list
    [1000; 5000; 30000] and jitter 0 the delay is 5000, above 1.2 times
    [backoff[min(attempt - 1, len - 1)] = 1000]. *)
Lemma scheduleRetry_delay_not_previous_entry :
  ~ (forall (now random : Q) (attempt : Z) (backoffMs : list Q) (b score : Q)
            (entry : RetryEntry string),
        (1 <= attempt)%Z -> 0 <= random -> random < 1 ->
        arr_at backoffMs (Z.min (attempt - 1) (Z.of_nat (length backoffMs) - 1)) = Some b ->
        last (retrySet (scheduleRetry now random 0%nat "p"%string "h"%string attempt
                                      backoffMs empty_hot))
        = Some (score, entry) ->
        b <= score - now /\ score - now <= (12 # 10) * b).
Proof.
  intros H.
  pose (score := 0 + calculateBackoff 1 [1000; 5000; 30000] true 0).
  assert (Hle : score - 0 <= (12 # 10) * 1000).
  { apply (H 0 0 1%Z [1000; 5000; 30000] 1000 score
             (mkRetryEntry 0%nat "p"%string "h"%string 1%Z score));
      [lia | lra | lra | reflexivity | apply scheduleRetry_last]. }
  vm_compute in Hle. by apply Hle.
Qed.

(** *** The same computation on doubles *)

Section WithRounding.

Variable fl : Q -> Q.
Hypothesis Hfl : rounding fl.

Lemma fl_zero : fl 0 == 0.
Proof. apply (fl_whole fl Hfl 0). vm_compute. discriminate. Qed.

Lemma fl_nonneg (x : Q) : 0 <= x -> 0 <= fl x.
Proof. intros Hx. rewrite <- fl_zero. by apply (fl_monotone fl Hfl). Qed.

Lemma eps_range : 0 <= eps /\ eps <= 1.
Proof. split; apply Qle_bool_imp_le; vm_compute; reflexivity. Qed.

(** In the normal range the rounding moves a positive number by at most
    [eps] times itself. *)
Lemma fl_near (x : Q) :
  normal_min <= x -> x <= normal_max ->
  x * (1 - eps) <= fl x /\ fl x <= x * (1 + eps).
Proof.
  intros Hlo Hhi.
  assert (H0 : 0 <= x).
  { apply Qle_trans with normal_min; [|exact Hlo].
    apply Qle_bool_imp_le. vm_compute. reflexivity. }
  pose proof (fl_relative fl Hfl x) as Hrel.
  rewrite (Qabs_pos x H0) in Hrel. specialize (Hrel Hlo Hhi).
  apply Qabs_Qle_condition in Hrel as [H1 H2].
  split; lra.
Qed.

Lemma point_two_range :
  (2 # 10) * (1 - eps) <= point_two fl /\ point_two fl <= (2 # 10) * (1 + eps).
Proof.
  apply fl_near; apply Qle_bool_imp_le; vm_compute; reflexivity.
Qed.

Lemma jitter_polynomial (b e : Q) :
  0 <= b -> 0 <= e -> e <= 1 ->
  (b + b * ((2 # 10) * (1 + e)) * (1 + e)) * (1 + e) <= (12 # 10) * b * (1 + 2 * e).
Proof.
  intros Hb He0 He1.
  assert (H : (12 # 10) * b * (1 + 2 * e)
              - (b + b * ((2 # 10) * (1 + e)) * (1 + e)) * (1 + e)
              == b * e * ((8 # 10) - (6 # 10) * e - (2 # 10) * (e * e))) by ring.
  assert (He2 : e * e <= 1 * e) by (apply Qmult_le_compat_r; lra).
  assert (Hpos : 0 <= b * e * ((8 # 10) - (6 # 10) * e - (2 # 10) * (e * e))).
  { apply Qmult_le_0_compat; [apply Qmult_le_0_compat; lra|lra]. }
  lra.
Qed.

(** The base delay [b] with its jitter: three roundings lie between the
    exact value and the result. *)
Lemma jitter_bounds (b random : Q) :
  fl b == b -> delay_min <= b -> b <= delay_max -> 0 <= random -> random < 1 ->
  b <= add fl b (mul fl random (mul fl b (point_two fl)))
  /\ add fl b (mul fl random (mul fl b (point_two fl)))
     <= (12 # 10) * b * (1 + 2 * eps).
Proof.
  intros Hb Hlo Hhi Hr0 Hr1. unfold add, mul.
  destruct point_two_range as [Hc1 Hc2]. destruct eps_range as [He0 He1].
  set (c := point_two fl) in *.
  assert (Hmin : 0 < delay_min) by reflexivity.
  assert (Hb0 : 0 < b) by lra.
  assert (Hc0 : 1 # 8 <= c).
  { apply Qle_trans with ((2 # 10) * (1 - eps)); [|exact Hc1].
    apply Qle_bool_imp_le. vm_compute. reflexivity. }
  assert (Hc3 : c <= 1 # 4).
  { apply Qle_trans with ((2 # 10) * (1 + eps)); [exact Hc2|].
    apply Qle_bool_imp_le. vm_compute. reflexivity. }
  assert (Hbc_lo : normal_min <= b * c).
  { apply Qle_trans with (delay_min * (1 # 8)).
    - apply Qle_bool_imp_le. vm_compute. reflexivity.
    - apply Qle_trans with (b * (1 # 8)).
      + apply Qmult_le_compat_r; [exact Hlo|discriminate].
      + apply Qmult_le_l; [exact Hb0|exact Hc0]. }
  assert (Hbc_hi' : b * c <= b * (1 # 4)) by (apply Qmult_le_l; assumption).
  assert (Hbc_hi : b * c <= normal_max).
  { apply Qle_trans with (delay_max * (1 # 4)).
    - apply Qle_trans with (b * (1 # 4)); [exact Hbc_hi'|].
      apply Qmult_le_compat_r; [exact Hhi|discriminate].
    - apply Qle_bool_imp_le. vm_compute. reflexivity. }
  destruct (fl_near (b * c) Hbc_lo Hbc_hi) as [Hj1 Hj2].
  set (j := fl (b * c)) in *.
  assert (Hj0 : 0 <= j).
  { apply fl_nonneg. apply Qmult_le_0_compat; lra. }
  assert (Hrj : 0 <= random * j) by (by apply Qmult_le_0_compat).
  assert (Hrj1 : random * j <= j).
  { rewrite <- (Qmult_1_l j) at 2. apply Qmult_le_compat_r; lra. }
  assert (Hp0 : 0 <= fl (random * j)) by (by apply fl_nonneg).
  assert (Hp1 : fl (random * j) <= j).
  { apply Qle_trans with (fl j); [by apply (fl_monotone fl Hfl)|].
    subst j. rewrite (fl_idempotent fl Hfl). apply Qle_refl. }
  set (p := fl (random * j)) in *.
  split.
  - rewrite <- Hb at 1. apply (fl_monotone fl Hfl). lra.
  - assert (Hj3 : j <= b * (1 # 4) * (1 + eps)).
    { apply Qle_trans with (b * c * (1 + eps)); [exact Hj2|].
      apply Qmult_le_compat_r; lra. }
    assert (Hj4 : j <= delay_max).
    { apply Qle_trans with (b * (1 # 4) * (1 + 1)).
      - apply Qle_trans with (b * (1 # 4) * (1 + eps)); [exact Hj3|].
        apply Qmult_le_l; lra.
      - lra. }
    assert (Hs_lo : normal_min <= b + p).
    { apply Qle_trans with delay_min; [|lra].
      apply Qle_bool_imp_le. vm_compute. reflexivity. }
    assert (Hs_hi : b + p <= normal_max).
    { apply Qle_trans with (delay_max + delay_max); [lra|].
      apply Qle_bool_imp_le. vm_compute. reflexivity. }
    destruct (fl_near (b + p) Hs_lo Hs_hi) as [_ Hs].
    apply Qle_trans with ((b + p) * (1 + eps)); [exact Hs|].
    apply Qle_trans with ((b + j) * (1 + eps)).
    { apply Qmult_le_compat_r; lra. }
    assert (Hj5 : j <= b * ((2 # 10) * (1 + eps)) * (1 + eps)).
    { apply Qle_trans with (b * c * (1 + eps)); [exact Hj2|].
      apply Qmult_le_compat_r; [|lra].
      apply Qmult_le_l; [exact Hb0|exact Hc2]. }
    apply Qle_trans
      with ((b + b * ((2 # 10) * (1 + eps)) * (1 + eps)) * (1 + eps)).
    { apply Qmult_le_compat_r; lra. }
    apply jitter_polynomial; lra.
Qed.

(** With a positive entry at the index the code reads, that entry is the
    base delay. *)
Lemma rounded_backoff_base (attempt : Z) (backoffMs : list Q) (random b : Q) :
  arr_at backoffMs (Z.min attempt (Z.of_nat (length backoffMs) - 1)) = Some b ->
  0 < b ->
  Doubles.calculateBackoff fl attempt backoffMs true random
  = add fl b (mul fl random (mul fl b (point_two fl))).
Proof.
  intros Hat Hb. unfold Doubles.calculateBackoff. cbv zeta.
  rewrite Hat, (js_or_pos b _ Hb), (js_or_pos b _ Hb). reflexivity.
Qed.

End WithRounding.

(** Arithmetic without rounding has the properties of [rounding]. *)
Lemma exact_rounding : rounding (fun x : Q => x).
Proof.
  constructor.
  - intros x y Hxy. exact Hxy.
  - intros x y Hxy. exact Hxy.
  - intros x. apply Qeq_refl.
  - intros z _. apply Qeq_refl.
  - intros x _ _. assert (H : x - x == 0) by ring. rewrite H. simpl.
    apply Qmult_le_0_compat; [discriminate|apply Qabs_nonneg].
Qed.

(** C4, amended: the delay that [scheduleRetry] computes for attempt
    [attempt] is at least [b = backoff[min(attempt, len - 1)]] and at most
    [1.2 * b * (1 + 2^-52)], for every jitter in [0,1), when [b] is a double
    between [2^-1000] and [2^1000]: the three roundings of the computation
    can carry the delay past [1.2 * b] in its last places, and no further.
    The score written is the double nearest to [now + delay]; it lies
    between the doubles nearest to [now + b] and to
    [now + 1.2 * b * (1 + 2^-52)], and is at least [b] after [now] when
    [now + b] is a double. *)
Theorem scheduleRetry_delay_bounds (fl : Q -> Q) (now random : Q) (attempt : Z)
    (backoffMs : list Q) (b : Q) :
  rounding fl ->
  0 <= random -> random < 1 ->
  arr_at backoffMs (Z.min attempt (Z.of_nat (length backoffMs) - 1)) = Some b ->
  fl b == b -> delay_min <= b -> b <= delay_max ->
  let delay := Doubles.calculateBackoff fl attempt backoffMs true random in
  let score := nextRetryMs fl now attempt backoffMs random in
  b <= delay /\ delay <= (12 # 10) * b * (1 + 2 * eps)
  /\ fl (now + b) <= score
  /\ score <= fl (now + (12 # 10) * b * (1 + 2 * eps))
  /\ (fl (now + b) == now + b -> b <= score - now).
Proof.
  intros Hfl Hr0 Hr1 Hat Hb Hlo Hhi delay score.
  assert (Hb0 : 0 < b).
  { apply Qlt_le_trans with delay_min; [reflexivity|exact Hlo]. }
  destruct (jitter_bounds fl Hfl b random Hb Hlo Hhi Hr0 Hr1) as [H1 H2].
  rewrite <- (rounded_backoff_base fl attempt backoffMs random b Hat Hb0) in H1, H2.
  fold delay in H1, H2.
  assert (Hs1 : fl (now + b) <= score).
  { unfold score, nextRetryMs, add. fold delay. apply (fl_monotone fl Hfl). lra. }
  split; [exact H1|]. split; [exact H2|]. split; [exact Hs1|]. split.
  - unfold score, nextRetryMs, add. fold delay. apply (fl_monotone fl Hfl). lra.
  - intros Hexact. rewrite Hexact in Hs1. lra.
Qed.

(** Attempt 1 on the list [1000; 5000; 30000] with jitter 1/2, computed
    without rounding: the delay is 5500. *)
Lemma scheduleRetry_delay_bounds_witness :
  let exact := fun x : Q => x in
  Doubles.calculateBackoff exact 1 [1000; 5000; 30000] true (1 # 2) == 5500
  /\ 5000 <= Doubles.calculateBackoff exact 1 [1000; 5000; 30000] true (1 # 2)
  /\ Doubles.calculateBackoff exact 1 [1000; 5000; 30000] true (1 # 2)
     <= (12 # 10) * 5000 * (1 + 2 * eps)
  /\ 5000 <= nextRetryMs exact 100 1 [1000; 5000; 30000] (1 # 2) - 100.
Proof.
  intros exact.
  destruct (scheduleRetry_delay_bounds exact 100 (1 # 2) 1 [1000; 5000; 30000] 5000
              exact_rounding) as (Hlo & Hhi & _ & _ & Hscore).
  - lra.
  - lra.
  - reflexivity.
  - reflexivity.
  - apply Qle_bool_imp_le. vm_compute. reflexivity.
  - apply Qle_bool_imp_le. vm_compute. reflexivity.
  - split; [reflexivity|]. split; [exact Hlo|]. split; [exact Hhi|].
    apply Hscore. reflexivity.
Defined.

End RetryProps.

Module MongoFacts.
Import Mongo MongoKv MongoReads MongoRuns AdapterClient.

Local Open Scope list_scope.

Lemma insert_sorted_perm (d : StreamDoc) (l : list StreamDoc) :
  insert_sorted d l ≡ₚ d :: l.
Proof.
  induction l as [|x l IH]; simpl; [reflexivity|].
  destruct (doc_le d x); [reflexivity|].
  rewrite IH. apply Permutation_swap.
Qed.

Lemma sort_docs_perm (l : list StreamDoc) : sort_docs l ≡ₚ l.
Proof.
  induction l as [|x l IH]; [reflexivity|].
  cbn [sort_docs foldr]. fold (sort_docs l).
  by rewrite insert_sorted_perm, IH.
Qed.

Lemma filter_perm {A : Type} (f : A -> bool) (l l' : list A) :
  l ≡ₚ l' -> List.filter f l ≡ₚ List.filter f l'.
Proof.
  induction 1 as [|x l l' _ IH|x y l|l l' l'' _ IH1 _ IH2]; simpl.
  - reflexivity.
  - destruct (f x); [by constructor|exact IH].
  - destruct (f x), (f y); try reflexivity. apply Permutation_swap.
  - by rewrite IH1.
Qed.

Lemma filter_comm {A : Type} (f g : A -> bool) (l : list A) :
  List.filter f (List.filter g l) = List.filter g (List.filter f l).
Proof.
  induction l as [|x l IH]; [reflexivity|]. simpl.
  destruct (g x) eqn:Hg, (f x) eqn:Hf; simpl; rewrite ?Hg, ?Hf, IH; reflexivity.
Qed.

Lemma filter_none {A : Type} (f : A -> bool) (l : list A) :
  (forall x, x ∈ l -> f x = false) -> List.filter f l = [].
Proof.
  induction l as [|x l IH]; intros H; [reflexivity|]. simpl.
  rewrite (H x) by left. apply IH. intros y Hy. apply H. by right.
Qed.

Lemma filter_all {A : Type} (f : A -> bool) (l : list A) :
  (forall x, x ∈ l -> f x = true) -> List.filter f l = l.
Proof.
  induction l as [|x l IH]; intros H; [reflexivity|]. simpl.
  rewrite (H x) by left. f_equal. apply IH. intros y Hy. apply H. by right.
Qed.

Lemma filter_sublist {A : Type} (f : A -> bool) (l : list A) :
  sublist (List.filter f l) l.
Proof.
  induction l as [|x l IH]; simpl; [constructor|].
  destruct (f x); by constructor.
Qed.

Lemma filter_elem {A : Type} (f : A -> bool) (l : list A) (x : A) :
  x ∈ List.filter f l <-> x ∈ l /\ f x = true.
Proof. rewrite !list_elem_of_In. apply filter_In. Qed.

Lemma limit_sub (n : option Z) (l : list StreamDoc) (d : StreamDoc) :
  d ∈ limit n l -> d ∈ l.
Proof.
  unfold limit. destruct n as [z|]; [|done].
  destruct (z =? 0)%Z; [done|apply subseteq_take].
Qed.

Lemma limit_nil (n : option Z) (l : list StreamDoc) :
  limit n l = [] -> l = [].
Proof.
  unfold limit. destruct n as [z|]; [|done].
  destruct (Z.eqb_spec z 0); [done|].
  destruct l as [|x l]; [done|].
  destruct (Z.abs_nat z) eqn:Hz; [lia|discriminate].
Qed.

Lemma sort_docs_nil (l : list StreamDoc) : sort_docs l = [] -> l = [].
Proof.
  intros H. apply Permutation_nil_r. by rewrite <- H, sort_docs_perm.
Qed.

Lemma trim_sublist (full : string) (maxlen : option Z) (docs : list StreamDoc) :
  sublist (trim full maxlen docs) docs.
Proof.
  unfold trim. destruct maxlen as [m|]; [|reflexivity].
  destruct (m =? 0)%Z; [reflexivity|]. cbv zeta.
  destruct (_ <? _)%Z; [apply filter_sublist|reflexivity].
Qed.

Lemma with_streams_same (s : Store) : with_streams (streams s) s = s.
Proof. by destruct s. Qed.

(** *** Stores whose entries keep the array written by [xadd] *)

Lemma pending_of_array (group : string) (d : StreamDoc) :
  d_pending d = PendingArray -> pending_of group d = None.
Proof. unfold pending_of. by intros ->. Qed.

Lemma set_pending_array (group consumer : string) (now : Z) (d : StreamDoc) :
  d_pending d = PendingArray -> set_pending group consumer now d = None.
Proof. unfold set_pending. by intros ->. Qed.

Lemma unset_pending_array (group : string) (d : StreamDoc) :
  d_pending d = PendingArray -> unset_pending group d = d.
Proof. unfold unset_pending. by intros ->. Qed.

Lemma try_update_first_refused (P : StreamDoc -> bool)
    (f : StreamDoc -> option StreamDoc) (l : list StreamDoc) (d : StreamDoc) :
  d ∈ l -> P d = true -> (forall x, x ∈ l -> f x = None) ->
  try_update_first P f l = None.
Proof.
  induction l as [|x l IH]; intros Hd HP Hf; [by apply elem_of_nil in Hd|].
  cbn [try_update_first]. destruct (P x) eqn:HPx.
  - by rewrite (Hf x) by left.
  - apply elem_of_cons in Hd as [->|Hd]; [congruence|].
    rewrite IH; [reflexivity|exact Hd|exact HP|].
    intros y Hy. apply Hf. by right.
Qed.

(** The first update of the loop is refused, so the loop marks nothing. *)
Lemma mark_all_arrays (group consumer : string) (now : Z) (m : StreamDoc)
    (msgs docs : list StreamDoc) :
  Forall (fun d => d_pending d = PendingArray) docs -> m ∈ docs ->
  mark_all group consumer now (m :: msgs) docs = (docs, false).
Proof.
  intros Harr Hm. cbn [mark_all].
  rewrite (try_update_first_refused _ _ docs m Hm); [reflexivity| |].
  - by apply bool_decide_eq_true_2.
  - intros x Hx. apply set_pending_array.
    by apply (proj1 (Forall_forall _ _) Harr).
Qed.

Lemma update_first_same (P : StreamDoc -> bool) (f : StreamDoc -> StreamDoc)
    (l : list StreamDoc) :
  (forall d, d ∈ l -> f d = d) -> update_first P f l = l.
Proof.
  induction l as [|x l IH]; intros Hf; [reflexivity|]. cbn [update_first].
  destruct (P x).
  - by rewrite (Hf x) by left.
  - rewrite IH; [reflexivity|]. intros d Hd. apply Hf. by right.
Qed.

(** On such a store an acknowledgement writes nothing. *)
Lemma xack_arrays (s : Store) (stream group : string) (ids : list string) :
  pending_arrays s -> xack s stream group ids = (s, length ids).
Proof.
  intros Harr. unfold xack.
  assert (Hfold : forall (full : string) (docs : list StreamDoc),
            Forall (fun d => d_pending d = PendingArray) docs ->
            foldl (fun acc id =>
                     update_first (fun d => in_stream full d && bool_decide (d_id d = id))
                                  (unset_pending group) acc)
                  docs ids = docs).
  { intros full. induction ids as [|id ids IH]; intros docs Hdocs; [reflexivity|].
    cbn [foldl]. rewrite update_first_same; [by apply IH|].
    intros d Hd. apply unset_pending_array.
    by apply (proj1 (Forall_forall _ _) Hdocs). }
  rewrite Hfold by exact Harr. by rewrite with_streams_same.
Qed.

(** On such a store a group read returns [null] when its query selects
    nothing and throws otherwise, and writes nothing. *)
Lemma xreadgroup_arrays (s : Store) (now : Z) (args : list jsarg) :
  pending_arrays s ->
  xreadgroup s now args = (s, inr None)
  \/ xreadgroup s now args = (s, inl (cannot_create_field (read_group args))).
Proof.
  intros Harr. unfold xreadgroup. cbv zeta.
  set (query := fun d : StreamDoc => _ && _).
  set (count := if (0 <=? indexOf (AStr "COUNT") args)%Z then _ else _).
  destruct (limit count (sort_docs (List.filter query (streams s))))
    as [|m msgs] eqn:Hfind.
  - destruct (match _ with Some b => (0 <? b)%Z | None => false end); by left.
  - right.
    assert (Hm : m ∈ streams s).
    { assert (Hin : m ∈ limit count (sort_docs (List.filter query (streams s))))
        by (rewrite Hfind; left).
      apply limit_sub in Hin. rewrite sort_docs_perm in Hin.
      by apply filter_elem in Hin as [Hin _]. }
    rewrite (mark_all_arrays _ _ _ m msgs (streams s) Harr Hm).
    by rewrite with_streams_same.
Qed.

Lemma keyword_false (x : string) :
  keyword x = false -> x <> "BLOCK" /\ x <> "COUNT" /\ x <> "STREAMS".
Proof.
  unfold keyword. intros H. apply bool_decide_eq_false_1 in H.
  repeat split; intros ->; apply H; set_solver.
Qed.

(** The read of the consumer on such a store: [null] on an empty log, the
    refused update on a log with an entry. *)
Lemma xreadgroup_arrays_read (s : Store) (now : Z) (group consumer : string)
    (blockMs count : Z) (stream : string) :
  keyword group = false -> keyword consumer = false ->
  pending_arrays s ->
  xreadgroup s now (group_read_args group consumer blockMs count stream)
  = (s, if decide (xlen s stream = 0%nat) then inr None
        else inl (cannot_create_field group)).
Proof.
  intros Hg Hc Harr.
  apply keyword_false in Hg as (Hg1 & Hg2 & Hg3).
  apply keyword_false in Hc as (Hc1 & Hc2 & Hc3).
  set (args := group_read_args group consumer blockMs count stream).
  assert (I7 : indexOf (AStr "STREAMS") args = 7%Z).
  { unfold indexOf, args, group_read_args. cbn [indexOf_from].
    repeat case_decide; first [reflexivity|congruence]. }
  destruct (xreadgroup_arrays s now args Harr) as [Hnull|Hthrow].
  - rewrite Hnull. f_equal. rewrite decide_True; [reflexivity|].
    revert Hnull. unfold xreadgroup. cbv zeta. rewrite I7.
    change (arg_at args (7 + 1)) with (Some (AStr stream)).
    change (arg_at args (7 + 2)) with (Some (AStr ">")).
    cbn [String_arg].
    set (query := fun d : StreamDoc => _ && _).
    set (cnt := if (0 <=? indexOf (AStr "COUNT") args)%Z then _ else _).
    assert (Hquery : List.filter query (streams s)
                     = List.filter (in_stream (keyPrefix s +:+ stream)) (streams s)).
    { apply filter_ext_in. intros d Hd. apply list_elem_of_In in Hd. subst query.
      cbn beta. rewrite (bool_decide_eq_true_2 (Some (AStr ">") = Some (AStr ">")))
        by reflexivity.
      rewrite pending_of_array by (by apply (proj1 (Forall_forall _ _) Harr)).
      rewrite (bool_decide_eq_true_2 (None = None)) by reflexivity.
      apply andb_true_r. }
    rewrite Hquery.
    destruct (limit cnt (sort_docs (List.filter (in_stream (keyPrefix s +:+ stream))
                                                (streams s))))
      as [|m msgs] eqn:Hfind.
    + intros _. apply limit_nil, sort_docs_nil in Hfind.
      unfold xlen, count_stream. by rewrite Hfind.
    + assert (Hm : m ∈ streams s).
      { assert (Hin : m ∈ limit cnt (sort_docs (List.filter
                            (in_stream (keyPrefix s +:+ stream)) (streams s))))
          by (rewrite Hfind; left).
        apply limit_sub in Hin. rewrite sort_docs_perm in Hin.
        by apply filter_elem in Hin as [Hin _]. }
      rewrite (mark_all_arrays _ _ _ m msgs (streams s) Harr Hm). discriminate.
  - rewrite Hthrow. f_equal. rewrite decide_False; [reflexivity|].
    intros H0. revert Hthrow. unfold xreadgroup. cbv zeta. rewrite I7.
    change (arg_at args (7 + 1)) with (Some (AStr stream)).
    cbn [String_arg].
    set (query := fun d : StreamDoc => _ && _).
    set (cnt := if (0 <=? indexOf (AStr "COUNT") args)%Z then _ else _).
    assert (Hnone : List.filter query (streams s) = []).
    { apply filter_none. intros d Hd. subst query. cbn beta.
      apply andb_false_iff. left. unfold xlen, count_stream in H0.
      apply nil_length_inv in H0.
      destruct (in_stream (keyPrefix s +:+ stream) d) eqn:Hin; [|reflexivity].
      assert (Hd' : d ∈ List.filter (in_stream (keyPrefix s +:+ stream)) (streams s))
        by (by apply filter_elem).
      rewrite H0 in Hd'. by apply elem_of_nil in Hd'. }
    rewrite Hnone. cbn [sort_docs foldr].
    assert (Hlim : limit cnt [] = []).
    { destruct cnt as [z|]; [|reflexivity]. cbn.
      destruct (z =? 0)%Z; [reflexivity|apply take_nil]. }
    rewrite Hlim.
    destruct (match _ with Some b => (0 <? b)%Z | None => false end); discriminate.
Qed.

(** On such a store a claim throws at the first id that names an entry of
    the log, and writes nothing. *)
Lemma xclaim_loop_arrays (full group consumer : string) (now : Z) (ids : list string)
    (s : Store) (messages : list (string * list (option string))) :
  pending_arrays s ->
  xclaim_loop full group consumer now ids s messages
  = (s, if existsb (names_entry full s) ids
        then inl (cannot_create_field group) else inr messages).
Proof.
  intros Harr. induction ids as [|id ids IH]; cbn [xclaim_loop existsb]; [reflexivity|].
  set (P := fun d : StreamDoc => in_stream full d && bool_decide (d_id d = id)).
  destruct (List.find P (streams s)) as [d|] eqn:Hfind.
  - pose proof (find_some _ _ Hfind) as [Hd HP]. apply list_elem_of_In in Hd.
    rewrite (set_pending_array group consumer now d)
      by (by apply (proj1 (Forall_forall _ _) Harr)).
    replace (names_entry full s id) with true; [reflexivity|].
    symmetry. apply existsb_exists. exists d. split; [by apply list_elem_of_In|exact HP].
  - rewrite IH. replace (names_entry full s id) with false; [reflexivity|].
    symmetry. apply not_true_is_false. intros Hex.
    apply existsb_exists in Hex as (d & Hd & HP).
    pose proof (find_none _ _ Hfind d Hd) as HP'. subst P. cbn beta in HP'. congruence.
Qed.

(** The query of [xautoclaim] selects no document, whatever the store
    holds. *)
Lemma xautoclaim_selects_nothing (s : Store) (now : Z) (stream group consumer : string)
    (minIdleTime : Z) (start : string) (args : list jsarg) :
  xautoclaim s now stream group consumer minIdleTime start args
  = (s, inr ("0-0", [])).
Proof.
  unfold xautoclaim. cbv zeta.
  rewrite filter_none.
  - assert (Hlim : forall n, limit n [] = []).
    { intros [z|]; [|reflexivity]. cbn. destruct (z =? 0)%Z; [reflexivity|apply take_nil]. }
    rewrite Hlim. cbn [mark_all render map]. by rewrite with_streams_same.
  - intros d _. apply andb_false_iff. right.
    by destruct (pending_of group d).
Qed.

(** Every command leaves the entries with the array they were written
    with. *)
Lemma run_command_arrays (c : command) (s : Store) :
  pending_arrays s -> pending_arrays (run_command c s).
Proof.
  intros Harr. destruct c; cbn [run_command].
  - unfold xadd. destruct (xadd_scan args 0) as [maxlen start]. cbn [fst].
    unfold pending_arrays. cbn [streams].
    apply Forall_forall. intros d Hd.
    apply (fun H => elem_of_sublist _ _ _ H (trim_sublist _ _ _)) in Hd.
    apply elem_of_app in Hd as [Hd|Hd];
      [by apply (proj1 (Forall_forall _ _) Harr)|].
    apply list_elem_of_singleton in Hd. by subst d.
  - by destruct (xreadgroup_arrays s now args Harr) as [-> | ->].
  - by rewrite xack_arrays.
  - unfold xclaim. by rewrite xclaim_loop_arrays.
  - by rewrite xautoclaim_selects_nothing.
  - exact Harr.
  - unfold zadd. destruct (kv s !! _) as [old|]; [|exact Harr].
    destruct (bool_decide _); exact Harr.
  - unfold zrem. destruct (kv s !! _) as [doc|]; [|exact Harr].
    destruct (bool_decide _); exact Harr.
  - exact Harr.
Qed.

Lemma run_arrays (commands : list command) (s : Store) :
  pending_arrays s -> pending_arrays (run commands s).
Proof.
  revert s. induction commands as [|c cs IH]; intros s Harr; [exact Harr|].
  cbn [run foldl]. apply IH. by apply run_command_arrays.
Qed.

Lemma connect_arrays (prefix : string) : pending_arrays (connect prefix).
Proof. constructor. Qed.

(** *** The fields of a stored entry *)

Lemma obj_get_set_eq (k : string) (v : option string) (o : fields_obj) :
  obj_get k (obj_set k v o) = Some v.
Proof.
  unfold obj_get. induction o as [|[k' v'] o IH]; cbn [obj_set List.find fst].
  - by rewrite bool_decide_eq_true_2 by reflexivity.
  - destruct (decide (k' = k)) as [->|Hne]; cbn [List.find fst].
    + by rewrite bool_decide_eq_true_2 by reflexivity.
    + destruct (listed_before k k'); cbn [List.find fst].
      * by rewrite bool_decide_eq_true_2 by reflexivity.
      * by rewrite bool_decide_eq_false_2 by exact Hne.
Qed.

Lemma obj_get_set_ne (k k0 : string) (v : option string) (o : fields_obj) :
  k0 <> k -> obj_get k0 (obj_set k v o) = obj_get k0 o.
Proof.
  intros Hk. unfold obj_get.
  induction o as [|[k' v'] o IH]; cbn [obj_set List.find fst].
  - by rewrite bool_decide_eq_false_2 by congruence.
  - destruct (decide (k' = k)) as [->|Hne]; cbn [List.find fst].
    + by rewrite !(bool_decide_eq_false_2 (k = k0)) by congruence.
    + destruct (listed_before k k'); cbn [List.find fst].
      * by rewrite (bool_decide_eq_false_2 (k = k0)) by congruence.
      * destruct (bool_decide (k' = k0)); [reflexivity|exact IH].
Qed.

Lemma obj_get_set_keys (k k0 : string) (v : option string) (o : fields_obj) :
  is_Some (obj_get k0 (obj_set k v o)) <-> k0 = k \/ is_Some (obj_get k0 o).
Proof.
  destruct (decide (k0 = k)) as [->|Hne].
  - rewrite obj_get_set_eq. split; [auto|eauto].
  - rewrite obj_get_set_ne by exact Hne. tauto.
Qed.

(** A field keeps its value when its name is not set again. *)
Lemma fields_from_get (l : list string) :
  forall (o : fields_obj) (k : string),
    k ∉ names l -> obj_get k (fields_from l o) = obj_get k o.
Proof.
  induction l as [l IH] using (induction_ltof1 _ (@length _)).
  unfold ltof in IH. intros o k Hk.
  destruct l as [|k1 [|v1 rest]]; cbn [fields_from names] in *.
  - reflexivity.
  - unfold fields_assign. case_bool_decide; [reflexivity|].
    apply obj_get_set_ne. intros ->. apply Hk. left.
  - rewrite IH; [|cbn; lia|intros Hin; apply Hk; by right].
    unfold fields_assign. case_bool_decide; [reflexivity|].
    apply obj_get_set_ne. intros ->. apply Hk. left.
Qed.

Lemma fields_assign_keys (k k0 : string) (v : option string) (o : fields_obj) :
  is_Some (obj_get k0 (fields_assign k v o))
  <-> (k0 <> "__proto__" /\ k0 = k) \/ is_Some (obj_get k0 o).
Proof.
  unfold fields_assign. case_bool_decide as Hk.
  - subst k. split; [auto|]. intros [[Hne Heq]|H]; [contradiction|exact H].
  - rewrite obj_get_set_keys. split.
    + intros [->|H]; [left; split; [exact Hk|reflexivity]|by right].
    + intros [[_ ->]|H]; [by left|by right].
Qed.

(** The fields of the object are those it had and the names assigned,
    [__proto__] apart. *)
Lemma fields_from_keys (l : list string) :
  forall (o : fields_obj) (k : string),
    is_Some (obj_get k (fields_from l o))
    <-> is_Some (obj_get k o) \/ (k <> "__proto__" /\ k ∈ names l).
Proof.
  induction l as [l IH] using (induction_ltof1 _ (@length _)).
  unfold ltof in IH. intros o k.
  destruct l as [|k1 [|v1 rest]]; cbn [fields_from names].
  - rewrite elem_of_nil. tauto.
  - rewrite fields_assign_keys, list_elem_of_singleton. tauto.
  - rewrite IH by (cbn; lia). rewrite fields_assign_keys, elem_of_cons. tauto.
Qed.

Lemma count_stream_snoc (full : string) (l : list StreamDoc) (d : StreamDoc) :
  count_stream full (l ++ [d])
  = (count_stream full l + if bool_decide (d_stream d = full) then 1 else 0)%nat.
Proof.
  unfold count_stream. rewrite List.filter_app, length_app. f_equal.
  unfold in_stream. cbn. by destruct (bool_decide _).
Qed.

Lemma xadd_scan_maxlen (n : string) (fields : list string) :
  n <> "" -> xadd_scan (maxlen_args n fields) 0 = (Number_str n, 3%nat).
Proof.
  intros Hn. unfold maxlen_args. cbn [xadd_scan].
  rewrite bool_decide_eq_true_2 by reflexivity.
  cbn [lookup list_lookup default truthy_str andb negb].
  rewrite (bool_decide_eq_false_2 (n = "")) by assumption. reflexivity.
Qed.

(** An append with [MAXLEN ~ n] above the length of the log: one document
    more, whose fields are read from the ['*'] marker on. *)
Lemma xadd_maxlen_appends (s : Store) (now : Z) (stream n : string) (m : Z)
    (fields : list string) :
  Number_str n = Some m -> (Z.of_nat (xlen s stream) < m)%Z ->
  exists doc,
    xadd s now stream (maxlen_args n fields)
    = (mkStore (keyPrefix s) (kv s) (streams s ++ [doc]) (S (next_oid s)), d_id doc)
    /\ d_stream doc = keyPrefix s +:+ stream
    /\ d_fields doc = fields_from ("*" :: fields) [].
Proof.
  intros Hn Hlen.
  assert (Hne : n <> "") by (intros ->; cbn in Hn; injection Hn as <-; lia).
  unfold xadd. rewrite (xadd_scan_maxlen n fields Hne), Hn.
  set (doc := mkStreamDoc _ _ _ _ _ _ _ _).
  exists doc. split; [|split; reflexivity].
  f_equal. f_equal. unfold trim.
  destruct (Z.eqb_spec m 0); [reflexivity|]. cbv zeta.
  unfold xlen in Hlen.
  rewrite count_stream_snoc.
  rewrite bool_decide_eq_true_2 by reflexivity.
  destruct (Z.ltb_spec m (Z.of_nat (count_stream (keyPrefix s +:+ stream) (streams s)
                                    + 1))); [lia|reflexivity].
Qed.

End MongoFacts.

(* --------------------------------------------------------------------- *)
(** ** The emulated hot store *)
(* --------------------------------------------------------------------- *)

Module MongoProps.
Import Mongo MongoKv MongoReads MongoRuns MongoFacts.

(** *** Hashes *)

(** C9, as stated, fails for a field name that [Object.prototype] defines:
    on a hash that holds the field [a] only, the absent field [constructor]
    does not read as [null] but as the inherited member. *)
Lemma hget_inherited_name_not_null :
  let s := fst (hset (connect "cw:") 1 "k" "a" "1") in
  (exists doc, kv s !! (keyPrefix s +:+ "k") = Some doc
               /\ kv_fields doc !! "constructor" = None)
  /\ hget s "k" "constructor" = Some (HInherited "constructor")
  /\ hget s "k" "constructor" <> None.
Proof.
  intros s. split; [|split].
  - eexists. split; [reflexivity|]. reflexivity.
  - reflexivity.
  - discriminate.
Qed.

(** C9, amended: [hget] gives [null] when the key is absent, when the
    field is absent and its name is not one that [Object.prototype] defines,
    and when the stored field value is the empty string; a field with such
    a name that is one field of the update path and was just set to [""]
    reads as [null], as it does in a store that never held it. *)
Theorem hget_empty_string_is_null (s : Store) (now : Z) (key field : string) :
  (kv s !! (keyPrefix s +:+ key) = None -> hget s key field = None)
  /\ (field ∉ Object_prototype_names ->
      forall doc, kv s !! (keyPrefix s +:+ key) = Some doc ->
                  kv_fields doc !! field = None -> hget s key field = None)
  /\ (forall doc, kv s !! (keyPrefix s +:+ key) = Some doc ->
                  kv_fields doc !! field = Some "" -> hget s key field = None)
  /\ (stored_name field = true ->
      hget (fst (hset s now key field "")) key field = None
      /\ hget (fst (hset s now key field "")) key field
         = hget (connect (keyPrefix s)) key field).
Proof.
  unfold hget. split; [|split; [|split]].
  - intros ->. reflexivity.
  - intros Hname doc -> ->. repeat case_bool_decide; done.
  - intros doc -> ->. repeat case_bool_decide; done.
  - intros _. simpl. rewrite lookup_insert_eq. simpl. rewrite lookup_insert_eq.
    rewrite lookup_empty. by repeat case_bool_decide.
Qed.

(** A hash with the field [f] set to [""] and the field [g] set to ["v"]:
    [f] reads as [null] like the field [h] that was never set, [g] reads as
    ["v"]. *)
Lemma hget_empty_string_is_null_witness :
  let s := fst (hset (fst (hset (connect "cw:") 1 "k" "g" "v")) 2 "k" "f" "") in
  hget s "k" "f" = None /\ hget s "k" "h" = None /\ hget s "k" "g" = Some (HStr "v")
  /\ hget (connect "cw:") "k" "f" = None
  /\ hget (fst (hset (connect "cw:") 3 "k" "f" "")) "k" "f" = None.
Proof.
  intros s.
  destruct (hget_empty_string_is_null s 0 "k" "f") as (_ & _ & Hempty & _).
  destruct (hget_empty_string_is_null s 0 "k" "h") as (_ & Hmissing & _).
  destruct (hget_empty_string_is_null (connect "cw:") 3 "k" "f")
    as (Habsent & _ & _ & Hset).
  split; [|split; [|split; [|split]]].
  - eapply Hempty; reflexivity.
  - eapply Hmissing; [|reflexivity|reflexivity].
    apply (bool_decide_unpack _). vm_compute. exact I.
  - reflexivity.
  - apply Habsent. reflexivity.
  - apply Hset. reflexivity.
Defined.

(** *** Acknowledgement *)



(** *** Claims *)

(** In every state that the adapter reaches no entry has an in-flight
    record, and a claim of an entry of the log throws. *)
Lemma reached_store_holds_no_record (prefix : string) (commands : list command)
    (now : Z) (stream group consumer : string) (minIdleTime : Z) (id : string) :
  let s := run commands (connect prefix) in
  (forall d, d ∈ streams s -> holders group d = 0%nat)
  /\ ((exists d, d ∈ streams s /\ d_stream d = keyPrefix s +:+ stream /\ d_id d = id) ->
      xclaim s now stream group consumer minIdleTime [id]
      = (s, inl (cannot_create_field group))).
Proof.
  intros s.
  assert (Harr : pending_arrays s) by apply run_arrays, connect_arrays.
  split.
  - intros d Hd. unfold holders.
    rewrite pending_of_array; [apply map_size_empty|].
    by apply (proj1 (Forall_forall _ _) Harr).
  - intros (d & Hd & Hs & Hi). unfold xclaim.
    rewrite xclaim_loop_arrays by exact Harr. cbn [existsb].
    replace (names_entry (keyPrefix s +:+ stream) s id) with true; [reflexivity|].
    symmetry. apply existsb_exists. exists d. split; [by apply list_elem_of_In|].
    unfold in_stream. by rewrite !bool_decide_eq_true_2.
Qed.


(** *** Message ids *)

(** C6 on the code: four appends within one millisecond to a log trimmed to
    two entries.  The third append deletes the entry ["5-0"], so the fourth
    counts two entries at that millisecond and returns ["5-2"] again; the log
    then holds two entries with the id ["5-2"]. *)
Theorem xadd_repeats_id_after_trim :
  let r1 := xadd (connect "cw:") 5 "orders" (append_args "2") in
  let r2 := xadd (fst r1) 5 "orders" (append_args "2") in
  let r3 := xadd (fst r2) 5 "orders" (append_args "2") in
  let r4 := xadd (fst r3) 5 "orders" (append_args "2") in
  [snd r1; snd r2; snd r3; snd r4] = ["5-0"; "5-1"; "5-2"; "5-2"]
  /\ map d_id (streams (fst r3)) = ["5-1"; "5-2"]
  /\ map d_id (streams (fst r4)) = ["5-2"; "5-2"].
Proof. vm_compute. repeat split; reflexivity. Qed.

Lemma count_at_snoc (full : string) (ts : Z) (docs : list StreamDoc) (d : StreamDoc) :
  count_at full ts (docs ++ [d])
  = (count_at full ts docs
     + if in_stream full d && (d_timestamp d =? ts)%Z then 1 else 0)%nat.
Proof.
  unfold count_at. rewrite List.filter_app, length_app. f_equal.
  simpl. by destruct (in_stream full d && (d_timestamp d =? ts)%Z).
Qed.

(** Without [MAXLEN], and with a clock that does not run backwards, an
    append returns an id above every entry of the log, and the two conditions
    hold again for the next append. *)
Lemma xadd_without_maxlen_increases (s : Store) (now : Z) (stream : string)
    (fields : list string) :
  let full := keyPrefix s +:+ stream in
  seq_below full (streams s) -> clock_at_most full now (streams s) ->
  exists doc,
    streams (fst (xadd s now stream ("*" :: fields))) = (streams s ++ [doc])%list
    /\ d_id doc = snd (xadd s now stream ("*" :: fields))
    /\ d_id doc = pretty (d_timestamp doc) +:+ "-" +:+ pretty (d_sequence doc)
    /\ Forall (fun d => d_stream d = full -> doc_lt d doc) (streams s)
    /\ seq_below full (streams s ++ [doc])
    /\ clock_at_most full now (streams s ++ [doc]).
Proof.
  intros full Hseq Hclock. unfold xadd. fold full. cbn.
  eexists. split; [reflexivity|]. split; [reflexivity|]. split; [reflexivity|].
  split; [|split].
  - apply Forall_forall. intros d Hd Hfull. unfold doc_lt. cbn.
    pose proof (proj1 (Forall_forall _ _) Hseq d Hd Hfull) as Hs.
    pose proof (proj1 (Forall_forall _ _) Hclock d Hd Hfull) as Hc.
    destruct (decide (d_timestamp d = now)) as [Heq|Hne]; [|left; lia].
    right. split; [exact Heq|]. by rewrite <- Heq.
  - apply Forall_app. split.
    + eapply Forall_impl; [exact Hseq|]. intros d Hd Hfull.
      rewrite count_at_snoc. specialize (Hd Hfull). lia.
    + apply Forall_singleton. intros _. cbn. rewrite count_at_snoc. cbn.
      unfold in_stream. rewrite bool_decide_eq_true_2 by reflexivity.
      rewrite Z.eqb_refl. cbn. lia.
  - apply Forall_app. split; [exact Hclock|].
    apply Forall_singleton. intros _. cbn. lia.
Qed.

End MongoProps.

(* --------------------------------------------------------------------- *)
(** ** The producer and the inspection calls *)
(* --------------------------------------------------------------------- *)

Module BusProps.
Import Bus.

Section WithStore.

Context {St : Type}.
Variable redis : RedisClient St.
Variable JSON_parse : string -> option jsval.
Variable JSON_stringify : jsval -> string.
Variable hashValue : jsval -> string.
Variable isoNow : string.

Abbreviation publish d := (publish redis JSON_stringify hashValue isoNow d).
Abbreviation publishBatch d := (publishBatch redis JSON_stringify hashValue isoNow d).
Abbreviation batch_queue d := (batch_queue JSON_stringify hashValue isoNow d).
Abbreviation publish_args d := (publish_args JSON_stringify hashValue isoNow d).

Abbreviation fits d := (fits JSON_stringify d).

(** An oversize payload: [publish] throws before any store call. *)
Lemma publish_too_large (d : ProducerDefaults) (topic : string) (payload : jsval)
    (opts : PublishOptions) (s : St) :
  (p_maxPayloadBytes d < byteLength (JSON_stringify payload))%Z ->
  publish d topic payload opts s
  = (Throw (payload_too_large d (byteLength (JSON_stringify payload))), s).
Proof.
  intros Hbig. unfold Bus.publish.
  apply Z.ltb_lt in Hbig. rewrite Hbig. reflexivity.
Qed.

(** The queue loop fails as soon as a message is oversize, and queues only
    commands whose payload is within the bound. *)
Lemma batch_queue_too_large (d : ProducerDefaults) (key : string)
    (messages : list BatchMessage) (queued : list (string * list string)) :
  Exists (fun msg => ~ fits d msg) messages ->
  exists e, batch_queue d key messages queued = inl e.
Proof.
  intros Hex. revert queued.
  induction messages as [|msg rest IH]; intros queued.
  - inversion Hex.
  - cbn [Bus.batch_queue]. cbv zeta.
    destruct (p_maxPayloadBytes d <? byteLength (JSON_stringify (bm_payload msg)))%Z
      eqn:E; [eauto|].
    apply IH. inversion Hex as [? ? Hhere|]; subst; [|assumption].
    exfalso. apply Hhere. unfold fits. by apply Z.ltb_ge.
Qed.

Lemma batch_queue_bounded (d : ProducerDefaults) (key : string)
    (messages : list BatchMessage) (queued ops : list (string * list string)) :
  log_bounded (p_maxPayloadBytes d) queued ->
  batch_queue d key messages queued = inr ops ->
  log_bounded (p_maxPayloadBytes d) ops.
Proof.
  revert queued. induction messages as [|msg rest IH]; intros queued Hq Hops.
  - cbn in Hops. by injection Hops as <-.
  - cbn [Bus.batch_queue] in Hops. cbv zeta in Hops.
    destruct (p_maxPayloadBytes d <? byteLength (JSON_stringify (bm_payload msg)))%Z
      eqn:E; [discriminate|].
    apply IH in Hops; [assumption|].
    apply Forall_app. split; [assumption|].
    apply Forall_singleton. intros p Hp. cbn in Hp. injection Hp as <-.
    apply Z.ltb_ge in E. exact E.
Qed.

End WithStore.

Section OnRecorder.

Variable JSON_stringify : jsval -> string.
Variable hashValue : jsval -> string.
Variable isoNow : string.

(** What a pipeline leaves in the recorder: the queued commands, in order,
    when the connection is up. *)
Lemma pipeline_run_recorder (ops : list (string * list string)) (s : Recorder) :
  rec_log (snd (pipeline_run recorder ops s))
  = (rec_log s ++ (if rec_up s then ops else []))%list.
Proof.
  revert s. induction ops as [|[key args] ops IH]; intros [up log].
  - simpl. destruct up; by rewrite app_nil_r.
  - cbn [pipeline_run]. cbn [r_xadd recorder]. unfold guarded. cbn [rec_up rec_log].
    destruct up.
    + specialize (IH (mkRecorder true (log ++ [(key, args)]))).
      destruct (pipeline_run recorder ops _) as [rs s2]. simpl in *.
      rewrite IH, <- app_assoc. reflexivity.
    + specialize (IH (mkRecorder false log)).
      destruct (pipeline_run recorder ops _) as [rs s2]. simpl in *.
      exact IH.
Qed.

Lemma publish_recorder_bounded (d : ProducerDefaults) (topic : string)
    (payload : jsval) (opts : PublishOptions) (s : Recorder) :
  log_bounded (p_maxPayloadBytes d) (rec_log s) ->
  log_bounded (p_maxPayloadBytes d)
    (rec_log (snd (publish recorder JSON_stringify hashValue isoNow d topic payload opts s))).
Proof.
  intros Hs. unfold publish.
  destruct (p_maxPayloadBytes d <? byteLength (JSON_stringify payload))%Z eqn:E;
    [exact Hs|].
  unfold bind. cbn [r_xadd recorder]. unfold guarded.
  destruct (rec_up s); [|exact Hs].
  destruct (po_persistWarmCopy opts); cbn.
  all: apply Forall_app; split; [exact Hs|].
  all: apply Forall_singleton; intros p Hp; cbn in Hp; injection Hp as <-.
  all: apply Z.ltb_ge in E; exact E.
Qed.

Lemma publishBatch_recorder_bounded (d : ProducerDefaults) (topic : string)
    (messages : list BatchMessage) (opts : PublishOptions) (s : Recorder) :
  log_bounded (p_maxPayloadBytes d) (rec_log s) ->
  log_bounded (p_maxPayloadBytes d)
    (rec_log (snd (publishBatch recorder JSON_stringify hashValue isoNow d topic
                                messages opts s))).
Proof.
  intros Hs. unfold publishBatch.
  destruct (batch_queue _ _ _ _ _ _ _) as [e|ops] eqn:Hq; [exact Hs|].
  apply batch_queue_bounded in Hq; [|apply Forall_nil_2].
  unfold bind, pipeline_exec.
  pose proof (pipeline_run_recorder ops s) as Hrun.
  destruct (pipeline_run recorder ops s) as [rs s'] eqn:E. simpl in Hrun.
  assert (Hb : log_bounded (p_maxPayloadBytes d) (rec_log s')).
  { rewrite Hrun. apply Forall_app. split; [exact Hs|].
    destruct (rec_up s); [exact Hq|apply Forall_nil_2]. }
  destruct (collect_ids rs); exact Hb.
Qed.

End OnRecorder.

(** C5: a payload whose JSON text is longer than [maxPayloadBytes] makes
    [publish] throw the payload-too-large error and leaves the store as it
    was; a batch with such a message makes [publishBatch] throw before the
    pipeline runs, with the store as it was; and on a store that keeps what is
    appended, neither call ever adds an entry whose payload is over the
    bound. *)
Theorem publish_payload_bound {St : Type} (redis : RedisClient St)
    (JSON_stringify hashValue : jsval -> string) (isoNow : string)
    (d : ProducerDefaults) (topic : string) (opts : PublishOptions) :
  (forall (payload : jsval) (s : St),
      (p_maxPayloadBytes d < byteLength (JSON_stringify payload))%Z ->
      publish redis JSON_stringify hashValue isoNow d topic payload opts s
      = (Throw (payload_too_large d (byteLength (JSON_stringify payload))), s))
  /\ (forall (messages : list BatchMessage) (s : St),
      Exists (fun msg => ~ fits JSON_stringify d msg) messages ->
      exists e,
        publishBatch redis JSON_stringify hashValue isoNow d topic messages opts s
        = (Throw e, s))
  /\ (forall (payload : jsval) (s : Recorder),
      log_bounded (p_maxPayloadBytes d) (rec_log s) ->
      log_bounded (p_maxPayloadBytes d)
        (rec_log (snd (publish recorder JSON_stringify hashValue isoNow d topic
                               payload opts s))))
  /\ (forall (messages : list BatchMessage) (s : Recorder),
      log_bounded (p_maxPayloadBytes d) (rec_log s) ->
      log_bounded (p_maxPayloadBytes d)
        (rec_log (snd (publishBatch recorder JSON_stringify hashValue isoNow d topic
                                    messages opts s)))).
Proof.
  split; [|split; [|split]].
  - intros payload s. apply publish_too_large.
  - intros messages s Hex. unfold publishBatch.
    destruct (batch_queue_too_large JSON_stringify hashValue isoNow d
                (Keys.buildTopicKey topic
                   (default (p_tenantId d) (o_tenantId (po_scope opts)))
                   (default (p_namespace d) (o_namespace (po_scope opts)))
                   (p_keyPrefix d))
                messages [] Hex) as [e He].
    exists e. by rewrite He.
  - intros payload s. apply publish_recorder_bounded.
  - intros messages s. apply publishBatch_recorder_bounded.
Qed.

(** With a bound of 4 bytes: the 9-byte payload is refused alone and in a
    batch after a fitting message, and the recorder's log stays empty. *)
Lemma publish_payload_bound_witness :
  let d := example_producer in
  let opts := mkPublishOptions false None (mkScope None None) in
  let s := mkRecorder true [] in
  publish recorder json_text json_text "" d "orders" (JStr "too-large") opts s
    = (Throw "Payload exceeds max size: 9 > 4 bytes", s)
  /\ (exists e,
        publishBatch recorder json_text json_text "" d "orders"
          [mkBatchMessage (JStr "ok") None; mkBatchMessage (JStr "too-large") None]
          opts s
        = (Throw e, s))
  /\ log_bounded 4 (rec_log (snd (publish recorder json_text json_text "" d "orders"
                                          (JStr "ok") opts s))).
Proof.
  intros d opts s.
  destruct (publish_payload_bound recorder json_text json_text "" d "orders" opts)
    as (Hone & Hbatch & Hlog & _).
  split; [|split].
  - apply (Hone (JStr "too-large") s). reflexivity.
  - apply (Hbatch _ s). apply Exists_cons_tl, Exists_cons_hd.
    intros Hfit. vm_compute in Hfit. by apply Hfit.
  - apply (Hlog (JStr "ok") s). apply Forall_nil_2.
Defined.

(** C10: when the store call throws, [getStats] returns
    [{ topic, length: 0, groups: 0 }], [getDlqLength] returns 0 and [peekDlq]
    returns the empty list; none of them throws, and the state is the one the
    failed call left, so a failed read leaves it as it was. *)
Theorem inspection_swallows_store_errors {St : Type} (redis : RedisClient St)
    (JSON_parse : string -> option jsval) (d : ManagerDefaults)
    (topic : string) (limit : Z) (opts : ScopeOptions) (s s' : St) (e : string) :
  let namespace := default (m_namespace d) (o_namespace opts) in
  let tenantId := default (m_tenantId d) (o_tenantId opts) in
  let topicKey := Keys.buildTopicKey topic tenantId namespace (m_keyPrefix d) in
  let dlqKey := Keys.buildDlqKey topic tenantId namespace (m_keyPrefix d) in
  (r_xinfo redis "STREAM" topicKey s = (Throw e, s') ->
   getStats redis d topic opts s = (Return (mkStats topic (JNum 0) (JNum 0)), s'))
  /\ (r_xlen redis dlqKey s = (Throw e, s') ->
      getDlqLength redis d topic opts s = (Return 0%nat, s'))
  /\ (r_xrange redis dlqKey "-" "+" [Mongo.AStr "COUNT"; Mongo.ANum limit] s
      = (Throw e, s') ->
      peekDlq redis JSON_parse d topic limit opts s = (Return [], s')).
Proof.
  intros namespace tenantId topicKey dlqKey. repeat split.
  - intros H. unfold getStats, try_catch, bind. fold namespace tenantId topicKey.
    by rewrite H.
  - intros H. unfold getDlqLength, try_catch. fold namespace tenantId dlqKey.
    by rewrite H.
  - intros H. unfold peekDlq, try_catch, bind. fold namespace tenantId dlqKey.
    by rewrite H.
Qed.

(** On a closed connection every call throws and the three inspections give
    their defaults, with the recorder as it was. *)
Lemma inspection_swallows_store_errors_witness :
  let d := mkManagerDefaults "default" "default" "cw:" 100000 in
  let opts := mkScope None None in
  let s := mkRecorder false [("cw:default:default:dlq:orders", ["x"])] in
  getStats recorder d "orders" opts s
    = (Return (mkStats "orders" (JNum 0) (JNum 0)), s)
  /\ getDlqLength recorder d "orders" opts s = (Return 0%nat, s)
  /\ peekDlq recorder Codecs.literal_parse d "orders" 10 opts s = (Return [], s).
Proof.
  intros d opts s.
  destruct (inspection_swallows_store_errors recorder Codecs.literal_parse d
              "orders" 10 opts s s closed_error) as (Hstats & Hlen & Hpeek).
  split; [|split].
  - apply Hstats. reflexivity.
  - apply Hlen. reflexivity.
  - apply Hpeek. reflexivity.
Defined.

End BusProps.

(* --------------------------------------------------------------------- *)
(** ** The consumer loop *)
(* --------------------------------------------------------------------- *)

Module ConsumerProps.
Import Consumer.

Local Open Scope list_scope.

Section WithPayload.

Context {Payload : Type} `{!EqDecision Payload}.

Implicit Types (st : State Payload) (h : Hot Payload) (m : Message Payload).

(** A nack at or over the cap dead-letters the message with the delivery
    count, acknowledges it and forgets its counter. *)
Lemma nack_at_cap (config : SubscriptionState) (now random : Q) m
    (requeue : bool) st (d : Z) :
  deliveryCounts st !! m_id m = Some d -> d <> 0%Z ->
  (default 5 (maxDeliveries config) <= d)%Z ->
  nack config now random m requeue st
  = mkState (delete (m_id m) (deliveryCounts st))
            (groupAck (m_id m)
               (sendToDeadLetter (m_id m) (m_payload m) (m_headers m)
                                 "Max deliveries exceeded" d (hot st))).
Proof.
  intros Hd Hnz Hcap. unfold nack, count_or. rewrite Hd.
  destruct (Z.eqb_spec d 0); [contradiction|].
  apply Z.leb_le in Hcap. by rewrite Hcap.
Qed.

(** A nack under the cap never dead-letters: with [requeue] it schedules a
    retry for attempt [d] and acknowledges, without it the state stays. *)
Lemma nack_under_cap (config : SubscriptionState) (now random : Q) m
    (requeue : bool) st (d : Z) :
  deliveryCounts st !! m_id m = Some d -> d <> 0%Z ->
  (d < default 5 (maxDeliveries config))%Z ->
  nack config now random m requeue st
  = if requeue
    then mkState (deliveryCounts st)
           (groupAck (m_id m)
              (scheduleRetry now random (m_id m) (m_payload m) (m_headers m) d
                 (default [1000; 5000; 30000]%Q (retryBackoffMs config)) (hot st)))
    else st.
Proof.
  intros Hd Hnz Hcap. unfold nack, count_or. rewrite Hd.
  destruct (Z.eqb_spec d 0); [contradiction|].
  apply Z.leb_gt in Hcap. by rewrite Hcap.
Qed.

Lemma processRetries_fresh (now : Q) st :
  fresh_ahead st -> fresh_ahead (processRetries now st).
Proof.
  unfold processRetries. generalize (getReadyRetries now 10 (hot st)).
  intros rs. revert st. induction rs as [|r rs IH]; intros st Hst; [exact Hst|].
  simpl. apply IH. destruct Hst as (Hdlq & Hpos & Hfresh).
  split; [exact Hdlq|]. split; [|exact Hfresh].
  intros i e. simpl. intros Hi.
  apply lookup_app_Some in Hi as [Hi|[Hge Hi]]; [by apply Hpos|].
  apply list_lookup_singleton_Some in Hi as [Hi <-]. simpl. lia.
Qed.

Lemma read_ids (c : nat) h :
  ids_are_positions h ->
  map e_id (take c (drop (lastDelivered h) (topicLog h)))
  = seq (lastDelivered h) (length (take c (drop (lastDelivered h) (topicLog h)))).
Proof.
  intros Hpos. apply list_eq. intros j.
  rewrite list_lookup_fmap.
  destruct (take c (drop (lastDelivered h) (topicLog h)) !! j) as [e|] eqn:Hj.
  - pose proof (lookup_lt_Some _ _ _ Hj) as Hlt.
    rewrite lookup_seq_lt by exact Hlt. simpl. f_equal.
    apply lookup_take_Some in Hj as [Hj _]. rewrite lookup_drop in Hj.
    by apply Hpos.
  - apply lookup_ge_None in Hj. simpl. symmetry. apply lookup_seq_ge. exact Hj.
Qed.

Section AlwaysRequeue.

Variable config : SubscriptionState.
Hypothesis cap_over_one : (2 <= default 5 (maxDeliveries config))%Z.

Abbreviation yield_step := (yield_step config always_requeue).

Lemma yield_step_fresh (now random : Q) st (ms : list (Message Payload))
    (e : LogEntry Payload) :
  deliveryCounts st !! e_id e = None ->
  yield_step now random (st, ms) e
  = (mkState (<[e_id e := 1%Z]> (deliveryCounts st))
       (groupAck (e_id e)
          (scheduleRetry now random (e_id e) (e_payload e) (e_headers e) 1
             (default [1000; 5000; 30000]%Q (retryBackoffMs config)) (hot st))),
     ms ++ [mkMessage (e_id e) (e_payload e) (e_headers e) 0%Z]).
Proof.
  intros He. unfold yield_step, dispatch, count_or. cbn [fst snd]. rewrite He.
  cbn [perform always_requeue]. f_equal.
  rewrite (nack_under_cap config now random _ true _ 1%Z);
    [reflexivity|apply lookup_insert_eq|lia|lia].
Qed.

Lemma yield_fold (now random : Q) (items : list (LogEntry Payload)) :
  forall (st : State Payload) (ms : list (Message Payload)),
    NoDup (map e_id items) ->
    (forall e, e ∈ items -> deliveryCounts st !! e_id e = None) ->
    dlqLog (hot (fst (foldl (yield_step now random) (st, ms) items)))
      = dlqLog (hot st)
    /\ topicLog (hot (fst (foldl (yield_step now random) (st, ms) items)))
       = topicLog (hot st)
    /\ lastDelivered (hot (fst (foldl (yield_step now random) (st, ms) items)))
       = lastDelivered (hot st)
    /\ (forall id, id ∉ map e_id items ->
          deliveryCounts (fst (foldl (yield_step now random) (st, ms) items)) !! id
          = deliveryCounts st !! id)
    /\ (Forall (fun m => m_redeliveryCount m = 0%Z) ms ->
        Forall (fun m => m_redeliveryCount m = 0%Z)
               (snd (foldl (yield_step now random) (st, ms) items))).
Proof.
  induction items as [|e items IH]; intros st ms Hnd Hnone.
  - simpl. auto.
  - simpl in Hnd. apply NoDup_cons in Hnd as [Hnotin Hnd].
    cbn [foldl].
    rewrite yield_step_fresh by (apply Hnone; left).
    set (st2 := mkState _ _).
    set (m := mkMessage _ _ _ _).
    destruct (IH st2 (ms ++ [m]) Hnd) as (Hdlq & Hlog & Hlast & Hdc & Hms).
    { intros e' He'. subst st2. cbn [deliveryCounts].
      rewrite lookup_insert_ne.
      - apply Hnone. by right.
      - intros Heq. apply Hnotin. rewrite Heq. apply list_elem_of_fmap. eauto. }
    split; [exact Hdlq|]. split; [exact Hlog|]. split; [exact Hlast|].
    split.
    + intros id Hid. rewrite Hdc.
      * subst st2. cbn [deliveryCounts]. apply lookup_insert_ne.
        intros <-. apply Hid. left.
      * intros Hin. apply Hid. by right.
    + intros Hall. apply Hms. apply Forall_app. split; [exact Hall|].
      by apply Forall_singleton.
Qed.

Lemma iteration_fresh (now random : Q) st :
  fresh_ahead st ->
  fresh_ahead (fst (iteration config always_requeue now random st))
  /\ Forall (fun m => m_redeliveryCount m = 0%Z)
            (snd (iteration config always_requeue now random st)).
Proof.
  intros Hst. apply (processRetries_fresh now) in Hst.
  unfold iteration, autoClaim. cbv zeta.
  set (st1 := processRetries now st) in *.
  destruct Hst as (Hdlq & Hpos & Hfresh).
  unfold groupRead.
  set (items := take _ (drop _ _)).
  pose proof (read_ids (default 10%nat (count config)) (hot st1) Hpos) as Hids.
  fold items in Hids.
  set (st2 := mkState _ _).
  destruct (yield_fold now random items st2 []) as (Hd & Hl & Hla & Hdc & Hms).
  { rewrite Hids. apply NoDup_seq. }
  { intros e He. subst st2. cbn [deliveryCounts]. apply Hfresh.
    assert (Hin : e_id e ∈ map e_id items) by (apply list_elem_of_fmap; eauto).
    rewrite Hids in Hin. apply elem_of_seq in Hin. lia. }
  split; [|by apply Hms].
  split; [by rewrite Hd|]. split.
  - intros i e. rewrite Hl. apply Hpos.
  - intros id Hid. rewrite Hla in Hid. subst st2. cbn in Hid.
    rewrite Hdc.
    + cbn. apply Hfresh. lia.
    + rewrite Hids. intros Hin. apply elem_of_seq in Hin. lia.
Qed.

(** Whatever the clock readings and the jitter, a caller that nacks every
    message with [requeue: true] never sees a redelivery count above 0 and
    nothing reaches the dead-letter log. *)
Lemma always_requeue_never_dead_letters (random : Q) (times : list Q) st :
  fresh_ahead st ->
  dlqLog (hot (fst (run config always_requeue random times st))) = []
  /\ Forall (fun m => m_redeliveryCount m = 0%Z)
            (snd (run config always_requeue random times st)).
Proof.
  revert st. induction times as [|now times IH]; intros st Hst.
  - simpl. split; [apply Hst|constructor].
  - cbn [run].
    destruct (iteration_fresh now random st Hst) as [Hst1 Hms1].
    destruct (iteration config always_requeue now random st) as [st1 ms1].
    destruct (IH st1 Hst1) as [Hdlq Hms2].
    destruct (run config always_requeue random times st1) as [st2 ms2].
    split; [exact Hdlq|]. apply Forall_app. auto.
Qed.

End AlwaysRequeue.

End WithPayload.

(** C1 on the code, at the run of the repository's retry example: the cap is
    3, one message is published and every delivery is nacked with
    [requeue: true].  Each retry enters the log as a new id whose counter
    starts at 0, so the five turns deliver the message five times, each with
    redelivery count 0 and attempt 1, and the dead-letter log stays empty. *)
Theorem requeue_retries_past_cap_without_dead_letter :
  let config := mkSubscriptionState (Some 3%Z) (Some [500; 2000; 5000]%Q) None in
  let st0 := mkState ∅ (fst (logAppend "task" "{}" None None empty_hot)) in
  let r := run config always_requeue 0 [0; 3000; 6000; 9000; 12000]%Q st0 in
  map (fun m => (m_id m, m_payload m, m_redeliveryCount m)) (snd r)
    = [(0%nat, "task", 0%Z); (1%nat, "task", 0%Z); (2%nat, "task", 0%Z);
       (3%nat, "task", 0%Z); (4%nat, "task", 0%Z)]
  /\ map (fun e => (e_retryOf e, e_attempt e)) (topicLog (hot (fst r)))
     = [(None, None); (Some 0%nat, Some 1%Z); (Some 1%nat, Some 1%Z);
        (Some 2%nat, Some 1%Z); (Some 3%nat, Some 1%Z)]
  /\ dlqLog (hot (fst r)) = [].
Proof. vm_compute. repeat split; reflexivity. Qed.

(** The cap does act on an id that the store hands out again: three
    deliveries of one entry, then a nack, dead-letter it. *)
Lemma redelivered_id_is_dead_lettered_at_cap :
  let config := mkSubscriptionState (Some 3%Z) None None in
  let e := mkLogEntry 0 "task" "{}" None None in
  let st0 := mkState ∅ (fst (logAppend "task" "{}" None None empty_hot)) in
  let d1 := dispatch e st0 in
  let d2 := dispatch e (nack config 0 0 (snd d1) false (fst d1)) in
  let d3 := dispatch e (nack config 0 0 (snd d2) false (fst d2)) in
  let st := nack config 0 0 (snd d3) false (fst d3) in
  map m_redeliveryCount [snd d1; snd d2; snd d3] = [0%Z; 1%Z; 2%Z]
  /\ dlqLog (hot st) = [mkDeadLetter 0 "task" "{}" "Max deliveries exceeded" 3%Z].
Proof. vm_compute. split; reflexivity. Qed.

End ConsumerProps.

(* ===================================================================== *)
(** * Further properties of the sources *)
(* ===================================================================== *)

(* --------------------------------------------------------------------- *)
(** ** Keys: what a key determines *)
(* --------------------------------------------------------------------- *)

Module KeysMore.
Import Keys KeysProps.

Lemma str_app_assoc (a b c : string) : (a +:+ b) +:+ c = a +:+ (b +:+ c).
Proof.
  induction a as [|x a IH]; [reflexivity|].
  change (String x ((a +:+ b) +:+ c) = String x (a +:+ (b +:+ c))).
  by rewrite IH.
Qed.

(** X1: under one prefix, with tenants and namespaces free of [':'], a key
    determines its tenant, namespace, kind and name: distinct scopes never
    share a key. *)
Theorem buildKey_injective (pre : string) (p1 p2 : KeyParams) :
  colon_free (tenantId p1) = true -> colon_free (namespace p1) = true ->
  colon_free (tenantId p2) = true -> colon_free (namespace p2) = true ->
  buildKey p1 pre = buildKey p2 pre -> p1 = p2.
Proof.
  intros Ht1 Hn1 Ht2 Hn2 H. unfold buildKey in H.
  apply (app_prefix_cancel pre) in H.
  apply colon_split in H as [Ht H]; [|assumption..].
  apply colon_split in H as [Hn H]; [|assumption..].
  apply colon_split in H as [Hk Hnm]; [|apply kind_str_colon_free..].
  apply kind_str_inj in Hk.
  destruct p1, p2; simpl in *; congruence.
Qed.

Lemma buildKey_injective_witness :
  mkKeyParams "t1" "ns1" Topic "orders"
  = mkKeyParams "t1" "ns1" Topic ("ord" +:+ "ers").
Proof.
  apply (buildKey_injective "cw:" (mkKeyParams "t1" "ns1" Topic "orders")
           (mkKeyParams "t1" "ns1" Topic ("ord" +:+ "ers"))); reflexivity.
Defined.

(** X2: the retry key does not tell where the topic ends: moving a part
    across the [':'] between topic and subscription gives the same key; with
    topics free of [':'] the key determines topic and subscription. *)
Theorem buildRetryKey_pairs (t u v t1 s1 t2 s2 tenant ns pre : string) :
  buildRetryKey (t +:+ ":" +:+ u) v tenant ns pre
  = buildRetryKey t (u +:+ ":" +:+ v) tenant ns pre
  /\ (colon_free t1 = true -> colon_free t2 = true ->
      buildRetryKey t1 s1 tenant ns pre = buildRetryKey t2 s2 tenant ns pre ->
      t1 = t2 /\ s1 = s2).
Proof.
  split.
  - unfold buildRetryKey, buildKey. cbn [tenantId namespace kind name].
    do 6 f_equal. rewrite str_app_assoc. reflexivity.
  - intros H1 H2 H. unfold buildRetryKey, buildKey in H. simpl in H.
    apply (app_prefix_cancel pre) in H. apply (app_prefix_cancel tenant) in H.
    simpl in H. injection H as H. apply (app_prefix_cancel ns) in H.
    simpl in H. injection H as H.
    by apply colon_split in H.
Qed.

Lemma buildRetryKey_pairs_witness :
  buildRetryKey "a:b" "c" "t" "n" "cw:" = buildRetryKey "a" "b:c" "t" "n" "cw:"
  /\ (buildRetryKey "orders" "fraud" "t" "n" "cw:"
      = buildRetryKey "orders" "fraud" "t" "n" "cw:" ->
      "orders" = "orders" /\ "fraud" = "fraud").
Proof.
  destruct (buildRetryKey_pairs "a" "b" "c" "orders" "fraud" "orders" "fraud"
              "t" "n" "cw:") as [Hlaw Hinj].
  split; [exact Hlaw|]. apply Hinj; reflexivity.
Defined.

End KeysMore.

(* --------------------------------------------------------------------- *)
(** ** Time: units and back-off *)
(* --------------------------------------------------------------------- *)

Module TimeMore.
Import Doubles Time.

Section WithRounding.

Local Open Scope Q_scope.

Variable fl : Q -> Q.
Hypothesis Hfl : rounding fl.

Lemma Qfloor_between (y : Q) (n : Z) :
  inject_Z n <= y -> y < inject_Z (n + 1) -> Qfloor y = n.
Proof.
  intros Hlo Hhi.
  pose proof (Qfloor_le y) as H1. pose proof (Qlt_floor y) as H2.
  assert (Ha : (n < Qfloor y + 1)%Z).
  { rewrite Zlt_Qlt. eapply Qle_lt_trans; [exact Hlo|exact H2]. }
  assert (Hb : (Qfloor y < n + 1)%Z).
  { rewrite Zlt_Qlt. eapply Qle_lt_trans; [exact H1|exact Hhi]. }
  lia.
Qed.

Lemma fl_whole_floor (z : Z) :
  (Z.abs z <= 2 ^ 53)%Z -> Qfloor (fl (inject_Z z)) = z.
Proof.
  intros Hz. rewrite (Qfloor_comp _ _ (fl_whole fl Hfl z Hz)). apply Qfloor_Z.
Qed.

(** A product that is a whole number up to [2^53] is not rounded. *)
Lemma secToMs_exact (sec : Z) :
  (Z.abs (sec * 1000) <= 2 ^ 53)%Z ->
  secToMs fl (inject_Z sec) == inject_Z (sec * 1000).
Proof.
  intros Hb. unfold secToMs.
  rewrite <- (fl_whole fl Hfl (sec * 1000) Hb).
  apply (fl_proper fl Hfl). rewrite inject_Z_mult. reflexivity.
Qed.

(** The quotient of a whole number below [2^53] by 1000 differs from its
    double by less than a thousandth, so the rounding does not carry it over
    the next whole number. *)
Lemma msToSec_floor (ms : Z) :
  (Z.abs ms < 2 ^ 53)%Z -> msToSec fl (inject_Z ms) = (ms / 1000)%Z.
Proof.
  intros Hb. unfold msToSec.
  pose proof (Z.div_mod ms 1000 ltac:(lia)) as Hdm.
  pose proof (Z.mod_pos_bound ms 1000 ltac:(lia)) as Hr.
  set (n := (ms / 1000)%Z) in *. set (r := (ms mod 1000)%Z) in *.
  set (q := inject_Z ms / 1000).
  assert (Hq : q == inject_Z n + inject_Z r * (1 # 1000)).
  { subst q. rewrite Hdm, inject_Z_plus, inject_Z_mult. field. }
  assert (Habs : Qabs q == inject_Z (Z.abs ms) * (1 # 1000)).
  { subst q. unfold Qdiv. rewrite Qabs_Qmult.
    rewrite (Qabs_pos (/ 1000)) by discriminate. reflexivity. }
  clearbody q.
  assert (Hn : (Z.abs n <= 2 ^ 53)%Z).
  { subst n. pose proof (Z.div_le_mono (Z.abs ms) (2 ^ 53) 1000 ltac:(lia) ltac:(lia)).
    destruct (Z.abs_spec ms) as [[H0 He]|[H0 He]].
    - assert (0 <= ms / 1000)%Z by (apply Z.div_pos; lia).
      rewrite Z.abs_eq by lia. rewrite He in H.
      etransitivity; [exact H|]. vm_compute. discriminate.
    - assert (ms / 1000 < 0)%Z by (apply Z.div_lt_upper_bound; lia).
      assert (- (2 ^ 53) <= ms / 1000)%Z.
      { apply Z.div_le_lower_bound; lia. }
      lia. }
  assert (Hr0 : 0 <= inject_Z r).
  { change (inject_Z 0 <= inject_Z r). rewrite <- Zle_Qle. lia. }
  assert (Hr1 : inject_Z r <= 999).
  { change (inject_Z r <= inject_Z 999). rewrite <- Zle_Qle. lia. }
  apply Qfloor_between.
  - rewrite <- (fl_whole fl Hfl n Hn). apply (fl_monotone fl Hfl). lra.
  - rewrite inject_Z_plus. change (inject_Z 1) with 1.
    destruct (decide (r = 0%Z)) as [Hz|Hnz].
    + assert (Hqn : q == inject_Z n) by (rewrite Hq, Hz; ring).
      rewrite (fl_proper fl Hfl _ _ Hqn), (fl_whole fl Hfl n Hn). lra.
    + assert (Hms : ms <> 0%Z) by (intros ->; apply Hnz; reflexivity).
      assert (Hbig : inject_Z (Z.abs ms) < inject_Z (2 ^ 53)) by (by rewrite <- Zlt_Qlt).
      assert (Hsmall : 1 <= inject_Z (Z.abs ms)).
      { change (inject_Z 1 <= inject_Z (Z.abs ms)). rewrite <- Zle_Qle. lia. }
      pose proof (fl_relative fl Hfl q) as Hrel.
      rewrite Habs in Hrel.
      assert (Hlo : normal_min <= inject_Z (Z.abs ms) * (1 # 1000)).
      { apply Qle_trans with (1 * (1 # 1000));
          [apply Qle_bool_imp_le; vm_compute; reflexivity|].
        apply Qmult_le_compat_r; [exact Hsmall|discriminate]. }
      assert (Hhi : inject_Z (Z.abs ms) * (1 # 1000) <= normal_max).
      { apply Qle_trans with (inject_Z (2 ^ 53) * (1 # 1000)).
        - apply Qmult_le_compat_r; [lra|discriminate].
        - apply Qle_bool_imp_le. vm_compute. reflexivity. }
      specialize (Hrel Hlo Hhi).
      apply Qabs_Qle_condition in Hrel as [_ Hup].
      assert (He : eps * (inject_Z (Z.abs ms) * (1 # 1000)) < 1 # 1000).
      { assert (H53 : eps * (inject_Z (2 ^ 53) * (1 # 1000)) == 1 # 1000)
          by (apply Qeq_bool_eq; vm_compute; reflexivity).
        apply Qlt_le_trans with (eps * (inject_Z (2 ^ 53) * (1 # 1000)));
          [|rewrite H53; apply Qle_refl].
        apply (proj2 (Qmult_lt_l _ _ eps eq_refl)).
        apply Qmult_lt_compat_r; [reflexivity|exact Hbig]. }
      lra.
Qed.

Lemma msToSec_secToMs (sec : Z) :
  (Z.abs (sec * 1000) <= 2 ^ 53)%Z -> msToSec fl (secToMs fl (inject_Z sec)) = sec.
Proof.
  intros Hb. unfold msToSec.
  assert (Hs : (Z.abs sec <= 2 ^ 53)%Z) by lia.
  rewrite <- (fl_whole_floor sec Hs) at 2.
  apply Qfloor_comp, (fl_proper fl Hfl).
  rewrite (secToMs_exact sec Hb), inject_Z_mult. field.
Qed.

End WithRounding.

(** X3: the unit conversions on doubles.  A whole number of seconds whose
    milliseconds are at most [2^53] is converted without rounding and comes
    back from its milliseconds; a whole number of milliseconds of magnitude
    below [2^53] is converted to the floor of its quotient by 1000, also
    when it is negative, and so is the clock reading of [nowSec]; away from
    the end of that range [secToMs(msToSec(ms))] is the last whole second at
    or before [ms]. *)
Theorem seconds_milliseconds_round_trip (fl : Q -> Q) (sec ms : Z) :
  rounding fl ->
  ((Z.abs (sec * 1000) <= 2 ^ 53)%Z ->
   (secToMs fl (inject_Z sec) == inject_Z (sec * 1000))%Q
   /\ msToSec fl (secToMs fl (inject_Z sec)) = sec)
  /\ ((Z.abs ms < 2 ^ 53)%Z ->
      msToSec fl (inject_Z ms) = (ms / 1000)%Z
      /\ nowSec fl ms = (ms / 1000)%Z)
  /\ ((Z.abs ms + 1000 <= 2 ^ 53)%Z ->
      (secToMs fl (inject_Z (msToSec fl (inject_Z ms))) <= inject_Z ms)%Q
      /\ (inject_Z ms < secToMs fl (inject_Z (msToSec fl (inject_Z ms))) + 1000)%Q).
Proof.
  intros Hfl. split; [|split].
  - intros Hb. split; [by apply secToMs_exact|by apply msToSec_secToMs].
  - intros Hb. split; by apply msToSec_floor.
  - intros Hb. rewrite (msToSec_floor fl Hfl ms) by lia.
    pose proof (Z.mul_div_le ms 1000 ltac:(lia)) as Hle.
    pose proof (Z.mul_succ_div_gt ms 1000 ltac:(lia)) as Hgt.
    rewrite (secToMs_exact fl Hfl (ms / 1000)) by lia.
    change 1000%Q with (inject_Z 1000). rewrite <- inject_Z_plus.
    rewrite <- Zle_Qle, <- Zlt_Qlt. lia.
Qed.

(** Computed without rounding: 7 seconds are 7000 milliseconds and back,
    and -1 millisecond lies in the second -1. *)
Lemma seconds_milliseconds_round_trip_witness :
  let exact := fun x : Q => x in
  msToSec exact (secToMs exact (inject_Z 7)) = 7%Z
  /\ msToSec exact (inject_Z (-1)) = (-1)%Z
  /\ nowSec exact 1999 = 1%Z.
Proof.
  intros exact.
  destruct (seconds_milliseconds_round_trip exact 7 (-1) RetryProps.exact_rounding)
    as (Hsec & Hms & _).
  destruct (seconds_milliseconds_round_trip exact 7 1999 RetryProps.exact_rounding)
    as (_ & Hnow & _).
  split; [apply Hsec; vm_compute; discriminate|]. split.
  - etransitivity; [apply Hms; vm_compute; reflexivity|reflexivity].
  - etransitivity; [apply Hnow; vm_compute; reflexivity|reflexivity].
Defined.

Local Open Scope Q_scope.

Lemma js_or_nonzero (a : option Q) (d : Q) :
  ~ d == 0 -> exists q, js_or a (Some d) = Some q /\ ~ q == 0.
Proof.
  intros Hd. destruct a as [q|]; simpl; [|eauto].
  destruct (Qeq_bool q 0) eqn:E; [eauto|].
  exists q. split; [reflexivity|]. intros Hq.
  apply Qeq_bool_iff in Hq. congruence.
Qed.

Lemma js_or_nonneg (a b : option Q) :
  (forall q, a = Some q -> 0 <= q) -> (forall q, b = Some q -> 0 <= q) ->
  forall q, js_or a b = Some q -> 0 <= q.
Proof.
  intros Ha Hb q. destruct a as [x|]; simpl; [|apply Hb].
  destruct (Qeq_bool x 0); [apply Hb|]. intros [= <-]. by apply Ha.
Qed.

(** The base delay chosen by [||] is never 0. *)
Lemma base_delay_nonzero (attempt : Z) (backoffMs : list Q) :
  ~ calculateBackoff attempt backoffMs false 0 == 0.
Proof.
  unfold calculateBackoff. cbv zeta.
  destruct (js_or_nonzero
              (js_or (arr_at backoffMs
                        (Z.min attempt (Z.of_nat (length backoffMs) - 1)))
                     (arr_at backoffMs (Z.of_nat (length backoffMs) - 1)))
              1000) as (q & -> & Hq); [discriminate|].
  exact Hq.
Qed.

(** The delay with jitter is the base delay times a factor in [1, 1.2). *)
Lemma calculateBackoff_jitter (attempt : Z) (backoffMs : list Q) (random : Q) :
  calculateBackoff attempt backoffMs true random
  == calculateBackoff attempt backoffMs false 0 * (1 + random * (2 # 10)).
Proof. unfold calculateBackoff. cbv zeta. ring. Qed.

(** X4: the delay is never 0, whatever the list holds: a zero, missing or
    out-of-range entry falls back to the last entry and then to 1000; with no
    negative entry the delay is positive. *)
Theorem calculateBackoff_never_zero (attempt : Z) (backoffMs : list Q)
    (jitter : bool) (random : Q) :
  0 <= random ->
  ~ calculateBackoff attempt backoffMs jitter random == 0
  /\ (Forall (fun b => 0 <= b) backoffMs ->
      0 < calculateBackoff attempt backoffMs jitter random).
Proof.
  intros Hr.
  assert (Hbase : ~ calculateBackoff attempt backoffMs false 0 == 0)
    by apply base_delay_nonzero.
  assert (Hcase : calculateBackoff attempt backoffMs jitter random
                  == calculateBackoff attempt backoffMs false 0
                     * (if jitter then 1 + random * (2 # 10) else 1)).
  { destruct jitter; [apply calculateBackoff_jitter|].
    unfold calculateBackoff. cbv zeta. ring. }
  set (base := calculateBackoff attempt backoffMs false 0) in *.
  set (f := if jitter then 1 + random * (2 # 10) else 1) in *.
  assert (Hf : 0 < f) by (subst f; destruct jitter; lra).
  split.
  - rewrite Hcase. intros H0.
    apply Qmult_integral in H0 as [H0|H0]; [by apply Hbase|lra].
  - intros Hnn. rewrite Hcase.
    assert (Hb : 0 <= base).
    { subst base. unfold calculateBackoff. cbv zeta.
      assert (Hat : forall i q, arr_at backoffMs i = Some q -> 0 <= q).
      { intros i q. unfold arr_at. destruct (i <? 0)%Z; [discriminate|].
        intros Hq. apply list_elem_of_lookup_2 in Hq.
        by apply (proj1 (Forall_forall _ _) Hnn). }
      destruct (js_or _ (Some 1000)) as [q|] eqn:Eq; [|simpl; lra].
      simpl. revert Eq. apply js_or_nonneg; [|intros ? [= <-]; lra].
      apply js_or_nonneg; apply Hat. }
    apply Qmult_lt_0_compat; [|exact Hf].
    apply Qle_lteq in Hb as [Hb|Hb]; [exact Hb|].
    exfalso. apply Hbase. by symmetry.
Qed.

(** The list [0; 5000] at attempt 0: the zero entry is skipped and the delay
    is taken from the last entry. *)
Lemma calculateBackoff_never_zero_witness :
  ~ calculateBackoff 0 [0; 5000] true (1 # 2) == 0
  /\ 0 < calculateBackoff 0 [0; 5000] true (1 # 2)
  /\ calculateBackoff 0 [0; 5000] false 0 == 5000
  /\ calculateBackoff 3 [] false 0 == 1000.
Proof.
  destruct (calculateBackoff_never_zero 0 [0; 5000] true (1 # 2)) as [Hnz Hpos];
    [lra|].
  split; [exact Hnz|]. split.
  - apply Hpos. repeat constructor; lra.
  - split; reflexivity.
Defined.

(** X5: when the list is positive and non-decreasing, the base delay does
    not decrease with the attempt number, and from attempt [len - 1] on it
    stays at the last entry. *)
Theorem calculateBackoff_monotone (a1 a2 : Z) (backoffMs : list Q) :
  Forall (fun b => 0 < b) backoffMs ->
  (forall (i j : nat) (x y : Q), (i <= j)%nat ->
      backoffMs !! i = Some x -> backoffMs !! j = Some y -> x <= y) ->
  (0 <= a1 <= a2)%Z ->
  calculateBackoff a1 backoffMs false 0 <= calculateBackoff a2 backoffMs false 0
  /\ ((Z.of_nat (length backoffMs) - 1 <= a1)%Z ->
      calculateBackoff a1 backoffMs false 0 == calculateBackoff a2 backoffMs false 0).
Proof.
  intros Hpos Hsorted Ha.
  destruct backoffMs as [|b0 rest] eqn:El.
  { assert (Hnil : forall a, calculateBackoff a [] false 0 = 1000).
    { intros a. unfold calculateBackoff, arr_at. cbv zeta.
      by repeat (destruct (_ <? 0)%Z). }
    rewrite !Hnil. split; [apply Qle_refl|intros _; reflexivity]. }
  rewrite <- El in *.
  assert (Hlen : (0 < length backoffMs)%nat) by (rewrite El; simpl; lia).
  assert (Hbase : forall a, (0 <= a)%Z ->
            exists q, backoffMs !! Z.to_nat (Z.min a (Z.of_nat (length backoffMs) - 1))
                      = Some q
                      /\ calculateBackoff a backoffMs false 0 = q).
  { intros a Ha0.
    destruct (lookup_lt_is_Some_2 backoffMs
                (Z.to_nat (Z.min a (Z.of_nat (length backoffMs) - 1))))
      as [q Hq]; [lia|].
    exists q. split; [exact Hq|].
    unfold calculateBackoff. cbv zeta. unfold arr_at at 1.
    destruct (Z.ltb_spec (Z.min a (Z.of_nat (length backoffMs) - 1)) 0); [lia|].
    rewrite Hq.
    assert (0 < q).
    { apply list_elem_of_lookup_2 in Hq.
      by apply (proj1 (Forall_forall _ _) Hpos). }
    rewrite !(RetryProps.js_or_pos q) by assumption. reflexivity. }
  destruct (Hbase a1 ltac:(lia)) as (q1 & Hq1 & ->).
  destruct (Hbase a2 ltac:(lia)) as (q2 & Hq2 & ->).
  split.
  - eapply Hsorted; [|exact Hq1|exact Hq2]. lia.
  - intros Hlast.
    replace (Z.min a2 (Z.of_nat (length backoffMs) - 1))
      with (Z.min a1 (Z.of_nat (length backoffMs) - 1)) in Hq2 by lia.
    rewrite Hq1 in Hq2. injection Hq2 as ->. reflexivity.
Qed.

Lemma calculateBackoff_monotone_witness :
  calculateBackoff 1 [1000; 5000; 30000] false 0
    <= calculateBackoff 2 [1000; 5000; 30000] false 0
  /\ calculateBackoff 2 [1000; 5000; 30000] false 0
     == calculateBackoff 9 [1000; 5000; 30000] false 0.
Proof.
  assert (Hs : forall (i j : nat) (x y : Q), (i <= j)%nat ->
             [1000; 5000; 30000] !! i = Some x ->
             [1000; 5000; 30000] !! j = Some y -> x <= y).
  { intros [|[|[|i]]] [|[|[|j]]] x y Hij Hx Hy; simpl in *;
      try discriminate; try lia;
      injection Hx as <-; injection Hy as <-; lra. }
  assert (Hp : Forall (fun b => 0 < b) [1000; 5000; 30000])
    by (repeat constructor; lra).
  split.
  - apply (calculateBackoff_monotone 1 2 [1000; 5000; 30000] Hp Hs). lia.
  - apply (calculateBackoff_monotone 2 9 [1000; 5000; 30000] Hp Hs); simpl; lia.
Defined.

End TimeMore.

(* --------------------------------------------------------------------- *)
(** ** Codec: arrays with repeated keys and odd length *)
(* --------------------------------------------------------------------- *)

Module CodecsMore.
Import Codecs FlatArrays.

Section WithJSON.

Variable JSON_parse : string -> option jsval.

Abbreviation parse_or_keep := (parse_or_keep JSON_parse).
Abbreviation fromFlatArray := (fromFlatArray JSON_parse).
Abbreviation fromFlatArray_loop := (fromFlatArray_loop JSON_parse).

Lemma loop_of_pairs_app (pairs : list (string * string)) (tail : list string)
    (obj : Obj) :
  fromFlatArray_loop (of_pairs pairs ++ tail)%list obj
  = fromFlatArray_loop tail (fromFlatArray_loop (of_pairs pairs) obj).
Proof.
  revert obj. induction pairs as [|[k v] pairs IH]; intros obj; [reflexivity|].
  cbn [of_pairs]. cbn. apply IH.
Qed.

Lemma loop_of_pairs_keys (pairs : list (string * string)) (obj : Obj) (k : string) :
  "__proto__" ∉ pairs.*1 ->
  (is_Some (own (fromFlatArray_loop (of_pairs pairs) obj) !! k)
   <-> k ∈ pairs.*1 \/ is_Some (own obj !! k))
  /\ proto (fromFlatArray_loop (of_pairs pairs) obj) = proto obj.
Proof.
  revert obj. induction pairs as [|[k0 v0] pairs IH]; intros obj Hproto.
  - simpl. rewrite elem_of_nil. split; [tauto|reflexivity].
  - cbn in Hproto. apply not_elem_of_cons in Hproto as [Hne Hproto].
    cbn [of_pairs]. cbn [Codecs.fromFlatArray_loop].
    destruct (IH (assign k0 (parse_or_keep v0) obj) Hproto) as [IH1 IH2].
    rewrite IH1, IH2. rewrite CodecsProps.assign_other by congruence. cbn [own proto].
    split; [|reflexivity]. cbn [fmap list_fmap fst]. rewrite elem_of_cons.
    destruct (decide (k = k0)) as [->|Hk].
    + rewrite lookup_insert_eq. split; [auto|]. intros _. right. eauto.
    + rewrite lookup_insert_ne by congruence. tauto.
Qed.

(** X6: in a flat array a later pair overrides an earlier pair with the same
    key and leaves the other keys alone, and a key left without a value at
    the end is bound to [undefined], for every key but [__proto__]; an
    array in which no key is [__proto__] gives an object with exactly the
    keys of the array and the prototype of [{}]. *)
Theorem fromFlatArray_last_pair_wins (pairs : list (string * string))
    (k v k' : string) :
  (k <> "__proto__" ->
   own (fromFlatArray (of_pairs pairs ++ [k; v])%list) !! k = Some (parse_or_keep v)
   /\ (k' <> k ->
       own (fromFlatArray (of_pairs pairs ++ [k; v])%list) !! k'
       = own (fromFlatArray (of_pairs pairs)) !! k')
   /\ own (fromFlatArray (of_pairs pairs ++ [k])%list) !! k = Some JUndef)
  /\ ("__proto__" ∉ pairs.*1 ->
      (is_Some (own (fromFlatArray (of_pairs pairs)) !! k') <-> k' ∈ pairs.*1)
      /\ proto (fromFlatArray (of_pairs pairs)) = ObjectPrototype).
Proof.
  unfold Codecs.fromFlatArray. rewrite !loop_of_pairs_app. split.
  - intros Hk. cbn [Codecs.fromFlatArray_loop].
    rewrite !CodecsProps.assign_other by exact Hk. cbn [own].
    split; [apply lookup_insert_eq|]. split.
    + intros Hne. apply lookup_insert_ne. congruence.
    + apply lookup_insert_eq.
  - intros Hproto.
    destruct (loop_of_pairs_keys pairs empty_obj k' Hproto) as [Hkeys Hp].
    split; [|exact Hp]. rewrite Hkeys. cbn [own empty_obj]. rewrite lookup_empty.
    split; [intros [?|[? [=]]]; assumption|auto].
Qed.

End WithJSON.

(** The array [a, 1, b, 123, a, true] read with the literal reader: [a] is
    [true], [b] is the number 123. *)
Lemma fromFlatArray_last_pair_wins_witness :
  own (fromFlatArray literal_parse ["a"; "1"; "b"; "123"; "a"; "true"]) !! "a"
    = Some (JBool true)
  /\ own (fromFlatArray literal_parse ["a"; "1"; "b"; "123"; "a"; "true"]) !! "b"
     = Some (JNum 123)
  /\ proto (fromFlatArray literal_parse ["a"; "1"; "b"; "123"]) = ObjectPrototype.
Proof.
  destruct (fromFlatArray_last_pair_wins literal_parse [("a", "1"); ("b", "123")]
              "a" "true" "b") as (Hk & Hkeys).
  destruct Hk as (Hk & Hother & _); [discriminate|].
  destruct Hkeys as (_ & Hproto).
  { apply (bool_decide_unpack _). vm_compute. exact I. }
  split; [exact Hk|]. split; [|exact Hproto].
  etransitivity; [apply Hother; discriminate|]. reflexivity.
Defined.

End CodecsMore.

(* --------------------------------------------------------------------- *)
(** ** The emulated store: hashes, acknowledgement, appended fields *)
(* --------------------------------------------------------------------- *)

Module MongoMore.
Import Mongo MongoKv MongoRuns AdapterClient MongoFacts.

Lemma full_key_inj (pre k1 k2 : string) : pre +:+ k1 = pre +:+ k2 -> k1 = k2.
Proof. apply app_prefix_cancel. Qed.

(** X7: for a field name that is one field of the update path and that
    [Object.prototype] does not define, a field set to a non-empty value
    reads back as that value; the set leaves every other key as it was,
    and the other fields of the same key too, when they are not inherited
    names and the key held a hash or nothing. *)
Theorem hset_then_hget (s : Store) (now : Z) (key field value key' field' : string) :
  stored_name field = true ->
  (value <> "" -> hget (fst (hset s now key field value)) key field = Some (HStr value))
  /\ (key' <> key ->
      hget (fst (hset s now key field value)) key' field' = hget s key' field')
  /\ (field' <> field -> field' ∉ Object_prototype_names ->
      (forall doc, kv s !! (keyPrefix s +:+ key) = Some doc ->
                   kv_type doc = Some "hash") ->
      hget (fst (hset s now key field value)) key field' = hget s key field').
Proof.
  intros _. unfold hget, hset. cbn [fst keyPrefix kv with_kv]. split; [|split].
  - intros Hv. rewrite lookup_insert_eq. cbn [kv_type kv_fields].
    rewrite bool_decide_eq_true_2 by reflexivity.
    rewrite bool_decide_eq_false_2 by apply insert_non_empty.
    rewrite lookup_insert_eq. by rewrite bool_decide_eq_false_2 by assumption.
  - intros Hk. rewrite lookup_insert_ne; [reflexivity|].
    intros Heq. apply Hk. symmetry. by apply full_key_inj in Heq.
  - intros Hf Hname Hhash. rewrite lookup_insert_eq. cbn [kv_type kv_fields].
    rewrite bool_decide_eq_true_2 by reflexivity.
    rewrite bool_decide_eq_false_2 by apply insert_non_empty.
    rewrite lookup_insert_ne by congruence.
    rewrite (bool_decide_eq_false_2 (field' ∈ Object_prototype_names)) by exact Hname.
    destruct (kv s !! (keyPrefix s +:+ key)) as [doc|] eqn:Hdoc; cbn [default].
    + rewrite (Hhash doc eq_refl). rewrite bool_decide_eq_true_2 by reflexivity.
      case_bool_decide as He; [|reflexivity].
      unfold id. by rewrite He, lookup_empty.
    + cbn [kv_fields]. by rewrite lookup_empty.
Qed.

Lemma hset_then_hget_witness :
  let s := fst (hset (connect "cw:") 1 "cfg" "a" "1") in
  hget (fst (hset s 2 "cfg" "b" "2")) "cfg" "b" = Some (HStr "2")
  /\ hget (fst (hset s 2 "cfg" "b" "2")) "other" "a" = None
  /\ hget (fst (hset s 2 "cfg" "b" "2")) "cfg" "a" = Some (HStr "1").
Proof.
  intros s.
  destruct (hset_then_hget s 2 "cfg" "b" "2" "other" "a" eq_refl)
    as (Hset & Hkey & Hfield).
  split; [apply Hset; discriminate|]. split.
  - etransitivity; [apply Hkey; discriminate|]. reflexivity.
  - etransitivity; [apply Hfield; [discriminate| |]|reflexivity].
    + apply (bool_decide_unpack _). vm_compute. exact I.
    + intros doc Hdoc. vm_compute in Hdoc. by injection Hdoc as <-.
Defined.

(** *** Acknowledgement *)

Lemma update_first_map {B : Type} (g : StreamDoc -> B) (P : StreamDoc -> bool)
    (f : StreamDoc -> StreamDoc) (l : list StreamDoc) :
  (forall d, g (f d) = g d) -> map g (update_first P f l) = map g l.
Proof.
  intros Hg. induction l as [|d l IH]; [reflexivity|].
  simpl. destruct (P d); simpl; [by rewrite Hg|by rewrite IH].
Qed.

Lemma xack_map {B : Type} (g : StreamDoc -> B) (s : Store) (stream group : string)
    (ids : list string) :
  (forall d, g (unset_pending group d) = g d) ->
  map g (streams (fst (xack s stream group ids))) = map g (streams s).
Proof.
  intros Hg. unfold xack. cbn [fst streams with_streams].
  generalize (streams s) as docs. induction ids as [|id ids IH]; intros docs;
    [reflexivity|].
  cbn [foldl]. rewrite IH. by apply update_first_map.
Qed.

Lemma count_stream_map (full : string) (l1 l2 : list StreamDoc) :
  map d_stream l1 = map d_stream l2 -> count_stream full l1 = count_stream full l2.
Proof.
  revert l2. induction l1 as [|a l1 IH]; intros [|b l2] Hm; try discriminate;
    [reflexivity|].
  cbn in Hm. injection Hm as Hab Hm. unfold count_stream in *.
  cbn [List.filter]. specialize (IH l2 Hm).
  assert (Hin : in_stream full a = in_stream full b)
    by (unfold in_stream; by rewrite Hab).
  rewrite Hin. destruct (in_stream full b); cbn [length]; by rewrite IH.
Qed.

(** X8: an acknowledgement for a well-formed group name never removes or
    rewrites an entry and never touches another group: ids, fields, log
    length and the records of the other groups are as before, and the call
    returns the number of ids it was given, whether or not they exist.  On
    a store whose entries hold the array written by [xadd] it changes
    nothing at all. *)
Theorem xack_keeps_entries (s : Store) (stream group : string) (ids : list string)
    (other stream' : string) :
  group_name group = true -> group_name other = true ->
  let s' := fst (xack s stream group ids) in
  map (fun d => (d_stream d, d_id d, d_fields d)) (streams s')
    = map (fun d => (d_stream d, d_id d, d_fields d)) (streams s)
  /\ xlen s' stream' = xlen s stream'
  /\ (other <> group ->
      map (pending_of other) (streams s') = map (pending_of other) (streams s))
  /\ snd (xack s stream group ids) = length ids
  /\ (pending_arrays s -> s' = s).
Proof.
  intros _ _ s'. subst s'.
  assert (Hkeep : forall d, (d_stream (unset_pending group d), d_id (unset_pending group d),
                             d_fields (unset_pending group d))
                            = (d_stream d, d_id d, d_fields d)).
  { intros d. unfold unset_pending. by destruct (d_pending d). }
  split; [|split; [|split; [|split]]].
  - by apply xack_map.
  - unfold xlen. apply count_stream_map. apply xack_map.
    intros d. unfold unset_pending. by destruct (d_pending d).
  - intros Hne. apply xack_map. intros d. unfold unset_pending, pending_of.
    destruct (d_pending d) as [|m] eqn:Hp; [by rewrite Hp|]. cbn.
    by apply lookup_delete_ne.
  - reflexivity.
  - intros Harr. by rewrite xack_arrays.
Qed.

Lemma xack_keeps_entries_witness :
  let s := fst (xadd (connect "cw:") 5 "orders" ["*"; "payload"; "1"]) in
  map d_id (streams (fst (xack s "orders" "sub:a" ["5-0"; "9-9"]))) = ["5-0"]
  /\ snd (xack s "orders" "sub:a" ["5-0"; "9-9"]) = 2%nat
  /\ fst (xack s "orders" "sub:a" ["5-0"; "9-9"]) = s.
Proof.
  intros s.
  destruct (xack_keeps_entries s "orders" "sub:a" ["5-0"; "9-9"] "sub:b" "orders"
              eq_refl eq_refl) as (_ & _ & _ & Hn & Hsame).
  split; [reflexivity|]. split; [exact Hn|].
  apply Hsame. repeat constructor.
Defined.

(** *** The fields of an appended entry *)

(** X9: with the argument form [MAXLEN ~ n * f1 v1 f2 v2 ...] that the bus
    uses, the field object of the stored entry is read from the ['*']
    marker on, one place early: its field named ["*"] holds the first name
    [f1], and its other field names are the values [v1], [v2], ... of the
    pairs; with the plain form [* f1 v1 ...] the field names are [f1],
    [f2], ... as given.  In both forms a name [__proto__] gives no field. *)
Theorem xadd_maxlen_shifts_fields (s : Store) (now : Z) (stream n : string)
    (m : Z) (f1 : string) (rest : list string) :
  Number_str n = Some m -> (Z.of_nat (xlen s stream) < m)%Z ->
  Forall (fun k => inserted_name k = true) (f1 :: rest) ->
  ("*" ∉ names rest) ->
  (exists doc,
      streams (fst (xadd s now stream (maxlen_args n (f1 :: rest))))
      = (streams s ++ [doc])%list
      /\ obj_get "*" (d_fields doc) = Some (Some f1)
      /\ forall k, is_Some (obj_get k (d_fields doc))
                   <-> k = "*" \/ (k <> "__proto__" /\ k ∈ names rest))
  /\ (exists doc,
      streams (fst (xadd s now stream ("*" :: f1 :: rest))) = (streams s ++ [doc])%list
      /\ forall k, is_Some (obj_get k (d_fields doc))
                   <-> k <> "__proto__" /\ k ∈ names (f1 :: rest)).
Proof.
  intros Hn Hlen _ Hstar. split.
  - destruct (xadd_maxlen_appends s now stream n m (f1 :: rest) Hn Hlen)
      as (doc & Hadd & _ & Hfields).
    exists doc. split; [by rewrite Hadd|]. rewrite Hfields.
    change (fields_from ("*" :: f1 :: rest) [])
      with (fields_from rest [("*", Some f1)]). split.
    + rewrite fields_from_get by exact Hstar. unfold obj_get. cbn.
      by rewrite bool_decide_eq_true_2 by reflexivity.
    + intros k. rewrite fields_from_keys. unfold obj_get. cbn [List.find fst].
      case_bool_decide as Hk; cbn; split; intros H.
      * by left.
      * left. eauto.
      * destruct H as [[? [=]]|H]; by right.
      * destruct H as [H|H]; [congruence|by right].
  - unfold xadd. cbn. eexists. split; [reflexivity|]. cbn [d_fields].
    intros k. rewrite (fields_from_keys (f1 :: rest) [] k). unfold obj_get. cbn.
    split; [intros [[? [=]]|H]; exact H|auto].
Qed.

(** The producer's argument form on a new adapter: the field named ["*"]
    holds the text ["payload"], and the payload text is a field name.  An
    index-like name is listed first. *)
Lemma xadd_maxlen_shifts_fields_witness :
  (exists doc,
      streams (fst (xadd (connect "cw:") 5 "orders"
                         (maxlen_args "100000" ["payload"; "7"; "size"; "1"])))
      = ([] ++ [doc])%list
      /\ obj_get "*" (d_fields doc) = Some (Some "payload")
      /\ forall k, is_Some (obj_get k (d_fields doc))
                   <-> k = "*" \/ (k <> "__proto__" /\ k ∈ names ["7"; "size"; "1"]))
  /\ map fst (d_fields (default (mkStreamDoc 0 "" "" 0 0 [] 0 PendingArray)
       (head (streams (fst (xadd (connect "cw:") 5 "orders"
                                 (maxlen_args "100000" ["payload"; "7"; "size"; "1"])))))))
     = ["1"; "7"; "*"].
Proof.
  split; [|reflexivity].
  apply (xadd_maxlen_shifts_fields (connect "cw:") 5 "orders" "100000" 100000
           "payload" ["7"; "size"; "1"]);
    [reflexivity|vm_compute; reflexivity|repeat constructor|].
  apply (bool_decide_unpack _). vm_compute. exact I.
Defined.

End MongoMore.

(* --------------------------------------------------------------------- *)
(** ** The emulated store: sorted sets *)
(* --------------------------------------------------------------------- *)

Module MongoSets.
Import Mongo MongoKv.

Local Open Scope Q_scope.

(** Ascending by score. *)
Abbreviation ascending := (StronglySorted (fun a b : string * Q => snd a <= snd b)).

Lemma insert_scored_elem (x y : string * Q) (l : list (string * Q)) :
  x ∈ insert_scored y l <-> x = y \/ x ∈ l.
Proof.
  induction l as [|z l IH]; simpl.
  - rewrite list_elem_of_singleton, elem_of_nil. tauto.
  - destruct (Qle_bool (snd y) (snd z)).
    + by rewrite elem_of_cons.
    + rewrite !elem_of_cons, IH. tauto.
Qed.

Lemma sort_scored_elem (x : string * Q) (l : list (string * Q)) :
  x ∈ sort_scored l <-> x ∈ l.
Proof.
  induction l as [|y l IH]; [reflexivity|].
  cbn [sort_scored foldr]. fold (sort_scored l).
  rewrite insert_scored_elem, IH, elem_of_cons. reflexivity.
Qed.

Lemma insert_scored_length (y : string * Q) (l : list (string * Q)) :
  length (insert_scored y l) = S (length l).
Proof.
  induction l as [|z l IH]; simpl; [reflexivity|].
  destruct (Qle_bool _ _); simpl; [reflexivity|by rewrite IH].
Qed.

Lemma sort_scored_length (l : list (string * Q)) :
  length (sort_scored l) = length l.
Proof.
  induction l as [|y l IH]; [reflexivity|].
  cbn [sort_scored foldr]. fold (sort_scored l).
  by rewrite insert_scored_length, IH.
Qed.

Lemma insert_scored_ascending (y : string * Q) (l : list (string * Q)) :
  ascending l -> ascending (insert_scored y l).
Proof.
  induction l as [|z l IH]; intros Hs; simpl.
  - repeat constructor.
  - destruct (Qle_bool (snd y) (snd z)) eqn:E.
    + apply Qle_bool_iff in E. constructor; [exact Hs|].
      constructor; [exact E|].
      apply StronglySorted_inv in Hs as [_ Hz].
      eapply Forall_impl; [exact Hz|]. intros w Hw. simpl in *.
      by apply Qle_trans with (snd z).
    + assert (Hzy : snd z <= snd y).
      { apply Qnot_lt_le. intros Hlt. apply Qlt_le_weak in Hlt.
        apply Qle_bool_iff in Hlt. congruence. }
      apply StronglySorted_inv in Hs as [Hs Hz].
      constructor; [by apply IH|].
      apply Forall_forall. intros w Hw.
      apply insert_scored_elem in Hw as [->|Hw]; [exact Hzy|].
      by apply (proj1 (Forall_forall _ _) Hz).
Qed.

Lemma sort_scored_ascending (l : list (string * Q)) : ascending (sort_scored l).
Proof.
  induction l as [|y l IH]; [constructor|].
  cbn [sort_scored foldr]. by apply insert_scored_ascending.
Qed.

Lemma take_ascending (n : nat) (l : list (string * Q)) :
  ascending l -> ascending (take n l).
Proof.
  revert n. induction l as [|x l IH]; intros [|n] Hs; simpl; try constructor.
  - apply IH. by apply StronglySorted_inv in Hs as [? _].
  - apply StronglySorted_inv in Hs as [_ Hx].
    apply Forall_forall. intros w Hw. apply (subseteq_take n l) in Hw.
    by apply (proj1 (Forall_forall _ _) Hx).
Qed.

Lemma slice0_sub {A : Type} (lim : option Z) (l : list A) (x : A) :
  x ∈ slice0 lim l -> x ∈ l.
Proof.
  unfold slice0. destruct lim as [z|]; [|by rewrite elem_of_nil].
  destruct (z <? 0)%Z; apply subseteq_take.
Qed.

Lemma slice0_ascending (lim : option Z) (l : list (string * Q)) :
  ascending l -> ascending (slice0 lim l).
Proof.
  unfold slice0. destruct lim as [z|]; [|constructor].
  destruct (z <? 0)%Z; apply take_ascending.
Qed.

(** What a range query returns is a member of the set with its score within
    the bounds. *)
Lemma zrangebyscore_members (s : Store) (key min max : string) (args : list jsarg)
    (m : string) :
  m ∈ zrangebyscore s key min max args ->
  exists doc score,
    kv s !! (keyPrefix s +:+ key) = Some doc
    /\ kv_type doc = Some "zset"%string
    /\ kv_members doc !! m = Some score
    /\ ge_bound score (min_bound min) = true
    /\ le_bound score (max_bound max) = true.
Proof.
  unfold zrangebyscore.
  destruct (kv s !! (keyPrefix s +:+ key)) as [doc|] eqn:Hdoc;
    [|by rewrite elem_of_nil].
  case_bool_decide as Htype; [|by rewrite elem_of_nil].
  cbv zeta. intros Hin.
  apply list_elem_of_fmap in Hin as ([m' score] & Hm & Hin). cbn [fst] in Hm. subst m'.
  apply slice0_sub in Hin. apply (proj1 (sort_scored_elem _ _)) in Hin.
  apply list_elem_of_In, filter_In in Hin as [Hin Hb].
  apply andb_true_iff in Hb as [Hge Hle]. cbn [snd] in Hge, Hle.
  apply list_elem_of_In, elem_of_map_to_list in Hin.
  exists doc, score. auto.
Qed.

(** X10: for bounds given as ['-inf'], ['+inf'] or whole numbers, a range
    query of a sorted set returns names of members of the set whose scores
    lie within the bounds, in ascending order of score, each member at most
    once, and at most 100 of them when no [LIMIT] is given. *)
Theorem zrangebyscore_sound (s : Store) (key min max : string) (args : list jsarg) :
  bound_text min -> bound_text max -> limit_text args ->
  exists scored : list (string * Q),
    zrangebyscore s key min max args = map fst scored
    /\ ascending scored
    /\ NoDup (map fst scored)
    /\ (forall m score, (m, score) ∈ scored ->
          exists doc, kv s !! (keyPrefix s +:+ key) = Some doc
                      /\ kv_type doc = Some "zset"%string
                      /\ kv_members doc !! m = Some score
                      /\ ge_bound score (min_bound min) = true
                      /\ le_bound score (max_bound max) = true)
    /\ (args = [] -> (length scored <= 100)%nat).
Proof.
  intros _ _ _. unfold zrangebyscore.
  destruct (kv s !! (keyPrefix s +:+ key)) as [doc|] eqn:Hdoc.
  2:{ exists []. repeat split; try constructor; try (simpl; lia).
      intros m score Hin. by apply elem_of_nil in Hin. }
  case_bool_decide as Htype.
  2:{ exists []. repeat split; try constructor; try (simpl; lia).
      intros m score Hin. by apply elem_of_nil in Hin. }
  cbv zeta.
  set (lim := if (0 <=? indexOf (AStr "LIMIT") args)%Z then _ else _).
  set (flt := List.filter _ (map_to_list (kv_members doc))).
  exists (slice0 lim (sort_scored flt)).
  assert (Hflt : forall x, x ∈ sort_scored flt ->
            x ∈ map_to_list (kv_members doc)
            /\ ge_bound (snd x) (min_bound min) = true
            /\ le_bound (snd x) (max_bound max) = true).
  { intros x Hx. apply (proj1 (sort_scored_elem _ _)) in Hx. subst flt.
    apply list_elem_of_In, filter_In in Hx as [Hx Hb].
    apply andb_true_iff in Hb. split; [by apply list_elem_of_In|exact Hb]. }
  split; [reflexivity|]. split; [apply slice0_ascending, sort_scored_ascending|].
  split; [|split].
  - assert (Hnd : NoDup (map fst (sort_scored flt))).
    { assert (Hp : sort_scored flt ≡ₚ flt).
      { clear. induction flt as [|y l IH]; [reflexivity|].
        cbn [sort_scored foldr]. fold (sort_scored l).
        rewrite <- IH at 2. clear.
        induction (sort_scored l) as [|z l' IH']; simpl; [reflexivity|].
        destruct (Qle_bool _ _); [reflexivity|].
        rewrite IH'. apply Permutation_swap. }
      rewrite Hp. subst flt.
      assert (Hsub : sublist (List.filter
                  (fun e => ge_bound (snd e) (min_bound min)
                            && le_bound (snd e) (max_bound max))
                  (map_to_list (kv_members doc))) (map_to_list (kv_members doc))).
      { clear. induction (map_to_list (kv_members doc)) as [|x l IH]; simpl;
          [constructor|].
        destruct (_ && _); by constructor. }
      apply (sublist_NoDup _ _ (NoDup_fst_map_to_list _)
                           (fmap_sublist fst _ _ Hsub)). }
    unfold slice0. destruct lim as [z|]; [|constructor].
    destruct (z <? 0)%Z;
      exact (sublist_NoDup _ _ Hnd (fmap_sublist fst _ _ (sublist_take _ _))).
  - intros m score Hin. apply slice0_sub, Hflt in Hin as (Hin & Hge & Hle).
    apply elem_of_map_to_list in Hin. exists doc. auto.
  - intros ->. subst lim. cbn. rewrite length_take. lia.
Qed.

Lemma zadd_inr (s s' : Store) (now : Z) (key : string) (score : Q)
    (member : string) (n : nat) :
  zadd s now key score member = inr (s', n) ->
  keyPrefix s' = keyPrefix s
  /\ exists flds members0,
       kv s' !! (keyPrefix s +:+ key)
       = Some (mkKvDoc (Some "zset"%string) flds (<[member := score]> members0) now).
Proof.
  unfold zadd. destruct (kv s !! (keyPrefix s +:+ key)) as [old|].
  - case_bool_decide; [|discriminate]. intros [= <- <-]. split; [reflexivity|].
    exists (kv_fields old), (kv_members old). cbn. apply lookup_insert_eq.
  - intros [= <- <-]. split; [reflexivity|].
    exists ∅, ∅. cbn. rewrite lookup_insert_eq. by rewrite insert_empty.
Qed.

Lemma zcard_lookup (s : Store) (key : string) (doc : KvDoc) :
  kv s !! (keyPrefix s +:+ key) = Some doc -> kv_type doc = Some "zset"%string ->
  zcard s key = size (kv_members doc).
Proof.
  intros Hdoc Ht. unfold zcard. rewrite Hdoc.
  by rewrite bool_decide_eq_true_2 by assumption.
Qed.

Lemma zrem_prefix (s : Store) (key : string) (members : list string) :
  keyPrefix (fst (zrem s key members)) = keyPrefix s.
Proof.
  unfold zrem. destruct (kv s !! _); [|reflexivity].
  by destruct (bool_decide _).
Qed.

Lemma zrem_lookup (s : Store) (key : string) (members : list string) (doc : KvDoc) :
  kv s !! (keyPrefix s +:+ key) = Some doc -> kv_type doc = Some "zset"%string ->
  kv (fst (zrem s key members)) !! (keyPrefix (fst (zrem s key members)) +:+ key)
  = Some (mkKvDoc (kv_type doc) (kv_fields doc)
                  (foldr delete (kv_members doc) members) (kv_updatedAt doc)).
Proof.
  intros Hdoc Ht. rewrite zrem_prefix. unfold zrem. rewrite Hdoc.
  rewrite bool_decide_eq_true_2 by assumption. cbn [fst kv with_kv].
  apply lookup_insert_eq.
Qed.

(** X11: a member whose name is one field of the update path and is not
    defined by [Object.prototype], added to a sorted set, is found by a
    range query up to [max] exactly when its score is at most [max] (for a
    set of at most 100 members read without [LIMIT], and bounds given as
    ['-inf'], ['+inf'] or whole numbers), and removing it returns 1, makes
    the set one smaller and hides it from every range query. *)
Theorem zadd_zrangebyscore_zrem (s s' : Store) (now : Z) (key : string) (score : Q)
    (member : string) (n : nat) (min max : string) (args : list jsarg) :
  stored_name member = true ->
  bound_text min -> bound_text max -> limit_text args ->
  zadd s now key score member = inr (s', n) ->
  (1 <= zcard s' key)%nat
  /\ (le_bound score (max_bound max) = false ->
      member ∉ zrangebyscore s' key min max args)
  /\ ((zcard s' key <= 100)%nat -> le_bound score (max_bound max) = true ->
      member ∈ zrangebyscore s' key "-inf" max [])
  /\ snd (zrem s' key [member]) = 1%nat
  /\ zcard (fst (zrem s' key [member])) key = (zcard s' key - 1)%nat
  /\ member ∉ zrangebyscore (fst (zrem s' key [member])) key min max args.
Proof.
  intros _ _ _ _ Hadd. apply zadd_inr in Hadd as (Hpre & flds & members0 & Hdoc).
  assert (Hm : (<[member := score]> members0 : gmap string Q) !! member = Some score)
    by apply lookup_insert_eq.
  assert (Hdoc' := Hdoc). rewrite <- Hpre in Hdoc'.
  split; [|split; [|split; [|split; [|split]]]].
  - rewrite (zcard_lookup s' key _ Hdoc' eq_refl). cbn [kv_members].
    destruct (size (<[member:=score]> members0)) eqn:Hsz; [|lia].
    apply map_size_empty_inv in Hsz. rewrite Hsz, lookup_empty in Hm.
    discriminate.
  - intros Hle Hin.
    apply zrangebyscore_members in Hin as (doc & sc & Hd & _ & Hsc & _ & Hle').
    rewrite Hdoc' in Hd. injection Hd as <-. cbn [kv_members] in Hsc.
    rewrite Hm in Hsc. injection Hsc as <-. congruence.
  - intros Hsmall Hle. rewrite (zcard_lookup s' key _ Hdoc' eq_refl) in Hsmall.
    cbn [kv_members] in Hsmall. unfold zrangebyscore. rewrite Hdoc'.
    cbn [kv_type kv_members]. rewrite bool_decide_eq_true_2 by reflexivity.
    cbv zeta. cbn [indexOf indexOf_from Z.leb Z.compare slice0 Z.ltb Z.to_nat].
    change (Pos.to_nat 100) with 100%nat.
    apply list_elem_of_fmap. exists (member, score). split; [reflexivity|].
    rewrite take_ge.
    + apply sort_scored_elem, list_elem_of_In, filter_In. split.
      * apply list_elem_of_In, elem_of_map_to_list. exact Hm.
      * cbn [snd]. change (min_bound "-inf") with NegInf. cbn [ge_bound andb].
        exact Hle.
    + rewrite sort_scored_length.
      etransitivity; [apply filter_length_le|].
      rewrite length_map_to_list. lia.
  - unfold zrem. rewrite Hdoc'. cbn [kv_type kv_members].
    rewrite bool_decide_eq_true_2 by reflexivity. cbn [snd foldr].
    rewrite bool_decide_eq_false_2; [reflexivity|].
    intros Heq. pose proof (lookup_delete_eq (<[member:=score]> members0) member) as Hd.
    rewrite Heq, Hm in Hd. discriminate.
  - rewrite (zcard_lookup s' key _ Hdoc' eq_refl).
    rewrite (zcard_lookup (fst (zrem s' key [member])) key _
               (zrem_lookup s' key [member] _ Hdoc' eq_refl) eq_refl).
    cbn [kv_members foldr].
    rewrite map_size_delete_Some by (rewrite Hm; eauto). lia.
  - intros Hin.
    apply zrangebyscore_members in Hin as (doc & sc & Hd & _ & Hsc & _).
    rewrite (zrem_lookup _ _ _ _ Hdoc' eq_refl) in Hd. injection Hd as <-.
    cbn [kv_members foldr] in Hsc. by rewrite lookup_delete_eq in Hsc.
Qed.

Lemma bound_text_inf : bound_text "-inf".
Proof. by left. Qed.

Lemma bound_text_whole (s : string) (z : Z) :
  Number_str s = Some z -> (Z.abs z <= 2 ^ 53)%Z -> bound_text s.
Proof. intros Hs Hz. right. right. by exists z. Qed.

Lemma limit_text_none : limit_text [].
Proof. intros t H. discriminate H. Qed.

(** A retry scheduled for time 1500 in an empty set: not returned up to 1000,
    returned up to 2000, gone after [zrem]. *)
Lemma zadd_zrangebyscore_zrem_witness :
  let r := zadd (connect "cw:") 7 "retry" 1500 "entry" in
  exists s', r = inr (s', 1%nat)
    /\ ("entry"%string ∉ zrangebyscore s' "retry" "-inf" "1000" [])
    /\ ("entry"%string ∈ zrangebyscore s' "retry" "-inf" "2000" [])
    /\ zcard (fst (zrem s' "retry" ["entry"%string])) "retry" = 0%nat.
Proof.
  eexists. split; [reflexivity|].
  assert (H1000 : bound_text "1000").
  { apply (bound_text_whole "1000" 1000); [reflexivity|vm_compute; discriminate]. }
  assert (H2000 : bound_text "2000").
  { apply (bound_text_whole "2000" 2000); [reflexivity|vm_compute; discriminate]. }
  match goal with |- (?x ∉ zrangebyscore ?s' _ _ _ _) /\ _ =>
    pose proof (zadd_zrangebyscore_zrem (connect "cw:") s' 7 "retry" 1500 "entry"
                  1%nat "-inf" "1000" [] eq_refl bound_text_inf H1000
                  limit_text_none eq_refl) as (_ & Hout & _);
    pose proof (zadd_zrangebyscore_zrem (connect "cw:") s' 7 "retry" 1500 "entry"
                  1%nat "-inf" "2000" [] eq_refl bound_text_inf H2000
                  limit_text_none eq_refl) as (_ & _ & Hin & _ & Hcard & _)
  end.
  split; [apply Hout; reflexivity|]. split.
  - apply Hin; [vm_compute; lia|reflexivity].
  - rewrite Hcard. reflexivity.
Defined.

(** A set with one member read without [LIMIT]. *)
Lemma zrangebyscore_sound_witness :
  let s := match zadd (connect "cw:") 7 "retry" 1500 "entry" with
           | inr (s1, _) => s1
           | inl _ => connect "cw:"
           end in
  exists scored : list (string * Q),
    zrangebyscore s "retry" "-inf" "2000" [] = map fst scored
    /\ (length scored <= 100)%nat.
Proof.
  intros s.
  destruct (zrangebyscore_sound s "retry" "-inf" "2000" [] bound_text_inf
              (bound_text_whole "2000" 2000 eq_refl ltac:(vm_compute; discriminate))
              limit_text_none)
    as (scored & Heq & _ & _ & _ & Hlen).
  exists scored. split; [exact Heq|by apply Hlen].
Defined.

End MongoSets.

(* ===================================================================== *)
(** ** src/core/mongoAdapter.ts: [del] and [exists] *)
(* ===================================================================== *)

Module MongoKeys.
Import Mongo MongoKv.

Lemma del_lookup (s : Store) (keys : list string) (k : string) :
  kv (fst (del s keys)) !! (keyPrefix s +:+ k)
  = if bool_decide (k ∈ keys) then None else kv s !! (keyPrefix s +:+ k).
Proof.
  unfold del. cbn [fst kv with_kv].
  case_bool_decide as Hk.
  - apply map_lookup_filter_None. right. intros x _ Hnot. apply Hnot. cbn [fst].
    apply list_elem_of_fmap. eauto.
  - destruct (kv s !! (keyPrefix s +:+ k)) as [x|] eqn:Hx.
    + apply map_lookup_filter_Some. split; [exact Hx|]. cbn [fst].
      intros Hin. apply list_elem_of_fmap in Hin as (k' & Heq & Hin).
      apply app_prefix_cancel in Heq. by subst k'.
    + apply map_lookup_filter_None. by left.
Qed.

(** X12: [del] returns the number of keys that [exists] counted, after it
    [exists] counts none of them and a hash field under a deleted key reads
    as [null]; the other keys keep their fields, and no log loses an entry:
    [del] only reaches the [kv] collection. *)
Theorem del_removes_keys_only (s : Store) (keys : list string)
    (key field stream : string) :
  snd (del s keys) = exists_ s keys
  /\ exists_ (fst (del s keys)) keys = 0%nat
  /\ hget (fst (del s keys)) key field
     = (if bool_decide (key ∈ keys) then None else hget s key field)
  /\ xlen (fst (del s keys)) stream = xlen s stream.
Proof.
  split; [|split; [|split]].
  - unfold del, exists_. cbn [snd].
    set (P := fun e : string * KvDoc => e.1 ∈ map (fun k => keyPrefix s +:+ k) keys).
    rewrite <- (map_filter_union_complement P (kv s)) at 1.
    rewrite map_size_disj_union by apply map_disjoint_filter_complement.
    subst P. cbn beta. lia.
  - unfold exists_, del. cbn [fst kv keyPrefix with_kv].
    apply map_size_empty_iff, map_empty. intros i.
    apply map_lookup_filter_None. right. intros x Hx Hin.
    apply map_lookup_filter_Some in Hx as [_ Hnot]. by apply Hnot.
  - unfold hget. change (keyPrefix (fst (del s keys))) with (keyPrefix s).
    rewrite del_lookup. by case_bool_decide.
  - reflexivity.
Qed.

End MongoKeys.

(* ===================================================================== *)
(** ** src/core/mongoAdapter.ts: the length of a log and group reads *)
(* ===================================================================== *)

Module MongoLogs.
Import Mongo MongoKv MongoReads MongoRuns MongoFacts.

Local Open Scope list_scope.

Lemma oid_inj (l : list StreamDoc) (a b : StreamDoc) :
  NoDup (map d_oid l) -> a ∈ l -> b ∈ l -> d_oid a = d_oid b -> a = b.
Proof.
  induction l as [|x l IH]; intros Hnd Ha Hb Heq; [by apply elem_of_nil in Ha|].
  cbn in Hnd. apply NoDup_cons in Hnd as [Hx Hnd].
  apply elem_of_cons in Ha as [->|Ha]; apply elem_of_cons in Hb as [->|Hb].
  - reflexivity.
  - exfalso. apply Hx. rewrite Heq. apply list_elem_of_fmap. eauto.
  - exfalso. apply Hx. rewrite <- Heq. apply list_elem_of_fmap. eauto.
  - by apply IH.
Qed.

Lemma without_prefix (pre post : list StreamDoc) :
  NoDup (map d_oid (pre ++ post)) -> without pre (pre ++ post) = post.
Proof.
  intros Hnd. unfold without. rewrite List.filter_app.
  rewrite map_app in Hnd. apply NoDup_app in Hnd as (_ & Hdisj & _).
  rewrite filter_none, filter_all; [reflexivity| |].
  - intros d Hd. apply negb_true_iff, bool_decide_eq_false_2.
    intros Hin. apply (Hdisj (d_oid d)); [exact Hin|].
    apply list_elem_of_fmap. eauto.
  - intros d Hd. apply negb_false_iff, bool_decide_eq_true_2.
    apply list_elem_of_fmap. eauto.
Qed.

(** Taking the [k] first documents of the sorted list away leaves [k] fewer. *)
Lemma without_take_length (k : nat) (l : list StreamDoc) :
  NoDup (map d_oid l) ->
  length (without (take k (sort_docs l)) l) = (length l - k)%nat.
Proof.
  intros Hnd.
  pose proof (sort_docs_perm l) as Hp.
  transitivity (length (without (take k (sort_docs l)) (sort_docs l))).
  { unfold without. symmetry. by apply Permutation_length, filter_perm. }
  rewrite <- (take_drop k (sort_docs l)) at 2.
  rewrite without_prefix.
  - rewrite length_drop. by rewrite (Permutation_length Hp).
  - rewrite take_drop. by rewrite Hp.
Qed.

Lemma count_stream_app (full : string) (l1 l2 : list StreamDoc) :
  count_stream full (l1 ++ l2) = (count_stream full l1 + count_stream full l2)%nat.
Proof. unfold count_stream. by rewrite List.filter_app, length_app. Qed.

(** The trim removes the [count - maxlen] oldest entries of the log and
    nothing else. *)
Lemma trim_without (full : string) (m : Z) (docs : list StreamDoc) :
  m <> 0%Z -> (m < Z.of_nat (count_stream full docs))%Z ->
  trim full (Some m) docs
  = without (take (Z.abs_nat (Z.of_nat (count_stream full docs) - m))
                  (sort_docs (List.filter (in_stream full) docs))) docs.
Proof.
  intros Hm Hlt. unfold trim. cbv zeta.
  destruct (Z.eqb_spec m 0); [contradiction|].
  apply Z.ltb_lt in Hlt. rewrite Hlt. unfold limit.
  apply Z.ltb_lt in Hlt.
  destruct (Z.eqb_spec (Z.of_nat (count_stream full docs) - m) 0); [lia|].
  reflexivity.
Qed.

Lemma trim_count (full : string) (m : Z) (docs : list StreamDoc) :
  NoDup (map d_oid docs) -> m <> 0%Z ->
  count_stream full (trim full (Some m) docs)
  = if (m <? Z.of_nat (count_stream full docs))%Z
    then (count_stream full docs
          - Z.abs_nat (Z.of_nat (count_stream full docs) - m))%nat
    else count_stream full docs.
Proof.
  intros Hnd Hm.
  destruct (Z.ltb_spec m (Z.of_nat (count_stream full docs))) as [Hlt|Hge].
  - rewrite trim_without by assumption.
    unfold count_stream at 1. unfold without. rewrite filter_comm.
    fold (without (take (Z.abs_nat (Z.of_nat (count_stream full docs) - m))
                        (sort_docs (List.filter (in_stream full) docs)))
                  (List.filter (in_stream full) docs)).
    rewrite without_take_length; [reflexivity|].
    exact (sublist_NoDup _ _ Hnd (fmap_sublist d_oid _ _ (filter_sublist _ _))).
  - unfold trim. destruct (Z.eqb_spec m 0); [contradiction|]. cbv zeta.
    apply Z.ltb_ge in Hge. by rewrite Hge.
Qed.

Lemma trim_other (full full' : string) (maxlen : option Z) (docs : list StreamDoc) :
  NoDup (map d_oid docs) -> full' <> full ->
  count_stream full' (trim full maxlen docs) = count_stream full' docs.
Proof.
  intros Hnd Hne. unfold trim. destruct maxlen as [m|]; [|reflexivity].
  destruct (m =? 0)%Z; [reflexivity|]. cbv zeta.
  destruct (_ <? _)%Z; [|reflexivity].
  unfold count_stream. rewrite filter_comm. f_equal. apply filter_all.
  intros d Hd. apply list_elem_of_In, filter_In in Hd as [Hd Hs].
  apply list_elem_of_In in Hd.
  apply negb_true_iff, bool_decide_eq_false_2. intros Hin.
  apply list_elem_of_fmap in Hin as (d' & Hoid & Hd').
  unfold limit in Hd'. 
  assert (Hd'' : d' ∈ List.filter (in_stream full) docs).
  { destruct (_ =? 0)%Z; [|apply subseteq_take in Hd'];
      by rewrite <- (sort_docs_perm _). }
  apply list_elem_of_In, filter_In in Hd'' as [Hd'' Hs'].
  apply list_elem_of_In in Hd''.
  assert (d = d') by (by apply (oid_inj docs)). subst d'.
  unfold in_stream in Hs, Hs'.
  apply bool_decide_eq_true_1 in Hs. apply bool_decide_eq_true_1 in Hs'.
  congruence.
Qed.

Lemma xadd_oids (s : Store) (now : Z) (stream : string) (args : list string) :
  oids_unique s -> oids_unique (fst (xadd s now stream args)).
Proof.
  intros [Hnd Hlt]. unfold xadd. destruct (xadd_scan args 0) as [maxlen start].
  cbn [fst]. set (doc := mkStreamDoc _ _ _ _ _ _ _ _).
  assert (Hnd' : NoDup (map d_oid (streams s ++ [doc]))).
  { rewrite map_app. apply NoDup_app. split; [exact Hnd|]. split.
    - intros x Hx Hx'. apply list_elem_of_singleton in Hx'. subst x.
      apply list_elem_of_fmap in Hx as (d & Hoid & Hd).
      apply (proj1 (Forall_forall _ _) Hlt) in Hd. cbn in Hoid. lia.
    - apply NoDup_singleton. }
  split; cbn [streams next_oid].
  - exact (sublist_NoDup _ _ Hnd' (fmap_sublist d_oid _ _ (trim_sublist _ _ _))).
  - apply Forall_forall. intros d Hd.
    apply (fun H => elem_of_sublist _ _ _ H (trim_sublist _ _ _)) in Hd.
    apply elem_of_app in Hd as [Hd|Hd].
    + apply (proj1 (Forall_forall _ _) Hlt) in Hd. lia.
    + apply list_elem_of_singleton in Hd. subst d. cbn. lia.
Qed.

(** X13: an append with [MAXLEN ~ n] leaves the log with one entry more, cut
    to [n] entries when [n] is positive; a negative [n] empties the log, the
    new entry included.  The other logs keep their entries, and document
    [_id]s stay distinct. *)
Theorem xadd_maxlen_bounds_length (s : Store) (now : Z) (stream n : string)
    (m : Z) (fields : list string) (stream' : string) :
  oids_unique s -> Number_str n = Some m -> m <> 0%Z ->
  let s' := fst (xadd s now stream (maxlen_args n fields)) in
  ((0 < m)%Z -> xlen s' stream = Nat.min (S (xlen s stream)) (Z.to_nat m))
  /\ ((m < 0)%Z -> xlen s' stream = 0%nat)
  /\ (stream' <> stream -> xlen s' stream' = xlen s stream')
  /\ oids_unique s'.
Proof.
  intros Hoids Hn Hm s'.
  assert (Hs' : oids_unique s') by (by apply xadd_oids).
  assert (Hne : n <> "") by (intros ->; cbn in Hn; congruence).
  subst s'. unfold xadd in *. rewrite (xadd_scan_maxlen n fields Hne), Hn in *.
  cbn [fst] in *. unfold xlen. cbn [keyPrefix streams].
  set (full := keyPrefix s +:+ stream).
  set (doc := mkStreamDoc _ _ _ _ _ _ _ _) in *.
  assert (Hnd : NoDup (map d_oid (streams s ++ [doc]))).
  { destruct Hoids as [Hnd Hlt]. rewrite map_app. apply NoDup_app.
    split; [exact Hnd|]. split; [|apply NoDup_singleton].
    intros x Hx Hx'. apply list_elem_of_singleton in Hx'. subst x.
    apply list_elem_of_fmap in Hx as (d & Hoid & Hd).
    apply (proj1 (Forall_forall _ _) Hlt) in Hd. cbn in Hoid. lia. }
  assert (Hcount : count_stream full (streams s ++ [doc])
                   = S (count_stream full (streams s))).
  { rewrite count_stream_snoc.
    rewrite bool_decide_eq_true_2 by reflexivity. lia. }
  split; [|split; [|split; [|exact Hs']]].
  - intros Hpos. rewrite trim_count by assumption. rewrite Hcount.
    destruct (Z.ltb_spec m (Z.of_nat (S (count_stream full (streams s))))); lia.
  - intros Hneg. rewrite trim_count by assumption. rewrite Hcount.
    destruct (Z.ltb_spec m (Z.of_nat (S (count_stream full (streams s))))); lia.
  - intros Hstream. rewrite trim_other; [|exact Hnd|].
    + rewrite count_stream_snoc.
      rewrite bool_decide_eq_false_2; [lia|]. cbn [d_stream doc].
      subst full. intros Heq. apply app_prefix_cancel in Heq. congruence.
    + subst full. intros Heq. apply app_prefix_cancel in Heq. congruence.
Qed.

(** Three appends cut to two entries, on a store that holds another log. *)
Lemma xadd_maxlen_bounds_length_witness :
  let s0 := fst (xadd (connect "cw:") 1 "audit" ["*"; "k"; "v"]) in
  let s2 := fst (xadd (fst (xadd s0 2 "orders" (maxlen_args "2" ["k"; "v"])))
                      3 "orders" (maxlen_args "2" ["k"; "v"])) in
  let s3 := fst (xadd s2 4 "orders" (maxlen_args "2" ["k"; "v"])) in
  xlen s2 "orders" = 2%nat /\ xlen s3 "orders" = 2%nat /\ xlen s3 "audit" = 1%nat.
Proof.
  intros s0 s2 s3.
  assert (H2 : oids_unique s2).
  { split; [apply (bool_decide_unpack _); vm_compute; exact I
           |vm_compute; repeat constructor]. }
  destruct (xadd_maxlen_bounds_length s2 4 "orders" "2" 2 ["k"; "v"] "audit"
              H2 eq_refl ltac:(lia)) as (Hlen & _ & Hother & _).
  subst s3. split; [reflexivity|]. split.
  - rewrite Hlen by lia. reflexivity.
  - rewrite Hother by discriminate. reflexivity.
Defined.

(** X14: on a store that the adapter has reached from a new one by
    commands with well-formed names, a group read with start id ['>'] hands
    out no entry: it answers [null] when the log is empty and throws the
    error of the refused update when the log holds an entry.  It writes
    nothing, so every entry of the log stays selected by the next read of
    every group. *)
Theorem xreadgroup_hands_out_nothing (prefix : string) (commands : list command)
    (now : Z) (group consumer : string) (blockMs count : Z) (stream : string) :
  Forall (fun c => well_named c = true) commands ->
  group_name group = true -> field_name consumer = true ->
  keyword group = false -> keyword consumer = false ->
  limit_number count ->
  let s := run commands (connect prefix) in
  xreadgroup s now (group_read_args group consumer blockMs count stream)
  = (s, if decide (xlen s stream = 0%nat) then inr None
        else inl (cannot_create_field group))
  /\ undelivered s stream group
     = List.filter (in_stream (keyPrefix s +:+ stream)) (streams s)
  /\ length (undelivered s stream group) = xlen s stream.
Proof.
  intros _ _ _ Hg Hc _ s.
  assert (Harr : pending_arrays s) by apply run_arrays, connect_arrays.
  assert (Hund : undelivered s stream group
                 = List.filter (in_stream (keyPrefix s +:+ stream)) (streams s)).
  { unfold undelivered. apply filter_ext_in. intros d Hd.
    apply list_elem_of_In in Hd.
    rewrite pending_of_array by (by apply (proj1 (Forall_forall _ _) Harr)).
    rewrite (bool_decide_eq_true_2 (None = None)) by reflexivity.
    apply andb_true_r. }
  split; [by apply xreadgroup_arrays_read|]. split; [exact Hund|].
  by rewrite Hund.
Qed.

(** Three entries appended and read by a group: the read throws, twice. *)
Lemma xreadgroup_hands_out_nothing_witness :
  let appends := [Xadd 1 "orders" ["*"; "k"; "a"]; Xadd 2 "orders" ["*"; "k"; "b"];
                  Xadd 3 "orders" ["*"; "k"; "c"]] in
  let s := run appends (connect "cw:") in
  let read := xreadgroup s 9 (group_read_args "sub:g" "c1" 10000 2 "orders") in
  read = (s, inl "Cannot create field 'sub:g' in element {pending: []}")
  /\ xreadgroup (fst read) 10 (group_read_args "sub:g" "c1" 10000 2 "orders") = read
  /\ length (undelivered s "orders" "sub:g") = 3%nat
  /\ xreadgroup s 9 (group_read_args "sub:g" "c1" 10000 2 "audit") = (s, inr None).
Proof.
  intros appends s read.
  destruct (xreadgroup_hands_out_nothing "cw:" appends 9 "sub:g" "c1" 10000 2 "orders")
    as (Hread & _ & Hlen); try reflexivity; [repeat constructor|].
  destruct (xreadgroup_hands_out_nothing "cw:" appends 9 "sub:g" "c1" 10000 2 "audit")
    as (Hother & _); try reflexivity; [repeat constructor|].
  fold s in Hread, Hlen, Hother.
  assert (Hr : read = (s, inl "Cannot create field 'sub:g' in element {pending: []}")).
  { subst read. etransitivity; [exact Hread|]. reflexivity. }
  split; [exact Hr|]. split; [|split].
  - rewrite Hr. cbn [fst]. etransitivity; [exact Hread|]. reflexivity.
  - etransitivity; [exact Hlen|]. reflexivity.
  - etransitivity; [exact Hother|]. reflexivity.
Defined.

Lemma sort_docs_length (l : list StreamDoc) : length (sort_docs l) = length l.
Proof. apply Permutation_length, sort_docs_perm. Qed.

Lemma doc_le_leq (a b : StreamDoc) : doc_le a b = true -> doc_leq a b.
Proof.
  unfold doc_le, doc_leq. intros H. apply orb_true_iff in H as [H|H].
  - left. by apply Z.ltb_lt.
  - right. apply andb_true_iff in H as [H1 H2].
    split; [by apply Z.eqb_eq|by apply Nat.leb_le].
Qed.

Lemma doc_le_total (a b : StreamDoc) : doc_le a b = false -> doc_leq b a.
Proof.
  unfold doc_le, doc_leq. intros H. apply orb_false_iff in H as [H1 H2].
  apply Z.ltb_ge in H1. apply andb_false_iff in H2 as [H2|H2].
  - apply Z.eqb_neq in H2. left. lia.
  - apply Nat.leb_gt in H2. destruct (decide (d_timestamp b = d_timestamp a)).
    + right. split; [assumption|lia].
    + left. lia.
Qed.

Lemma doc_leq_trans (a b c : StreamDoc) : doc_leq a b -> doc_leq b c -> doc_leq a c.
Proof. unfold doc_leq. intros [?|[? ?]] [?|[? ?]]; [left|left|left|right]; lia. Qed.

Lemma insert_sorted_sorted (d : StreamDoc) (l : list StreamDoc) :
  StronglySorted doc_leq l -> StronglySorted doc_leq (insert_sorted d l).
Proof.
  induction l as [|x l IH]; intros Hs; simpl.
  - repeat constructor.
  - destruct (doc_le d x) eqn:E.
    + apply doc_le_leq in E. constructor; [exact Hs|].
      constructor; [exact E|].
      apply StronglySorted_inv in Hs as [_ Hx].
      eapply Forall_impl; [exact Hx|]. intros w Hw. by apply doc_leq_trans with x.
    + apply doc_le_total in E.
      apply StronglySorted_inv in Hs as [Hs Hx].
      constructor; [by apply IH|].
      apply Forall_forall. intros w Hw.
      rewrite insert_sorted_perm in Hw.
      apply elem_of_cons in Hw as [->|Hw]; [exact E|].
      by apply (proj1 (Forall_forall _ _) Hx).
Qed.

Lemma sort_docs_sorted (l : list StreamDoc) : StronglySorted doc_leq (sort_docs l).
Proof.
  induction l as [|x l IH]; [constructor|].
  cbn [sort_docs foldr]. by apply insert_sorted_sorted.
Qed.

(** What [.limit(n)] returns and what it leaves out make up the list. *)
Lemma limit_split (n : option Z) (l : list StreamDoc) :
  exists rest, limit n l ++ rest = l.
Proof.
  unfold limit. destruct n as [z|]; [|exists []; apply app_nil_r].
  destruct (z =? 0)%Z; [exists []; apply app_nil_r|].
  exists (drop (Z.abs_nat z) l). apply take_drop.
Qed.

(** X27: [xrange] does not read [start] and [end]: it returns the oldest
    entries of the log, in the order of their timestamps and, within one
    timestamp, of their sequence numbers: what it returns, followed by the
    entries it leaves out, is the log in that order.  It returns 10 entries
    without [COUNT], [n] with [COUNT n] for a positive [n], and all of them
    with [COUNT 0]; never more than the log holds. *)
Theorem xrange_returns_oldest (s : Store) (stream start end_ : string) (n : Z)
    (args : list jsarg) :
  count_text args ->
  (exists returned rest : list StreamDoc,
      xrange s stream start end_ args = render returned
      /\ returned ++ rest ≡ₚ List.filter (in_stream (keyPrefix s +:+ stream)) (streams s)
      /\ StronglySorted doc_leq (returned ++ rest))
  /\ xrange s stream start end_ args = xrange s stream "-" "+" args
  /\ length (xrange s stream start end_ []) = Nat.min 10 (xlen s stream)
  /\ ((0 < n)%Z -> limit_number n ->
      length (xrange s stream start end_ [AStr "COUNT"; ANum n])
      = Nat.min (Z.to_nat n) (xlen s stream))
  /\ length (xrange s stream start end_ [AStr "COUNT"; ANum 0]) = xlen s stream
  /\ (length (xrange s stream start end_ args) <= xlen s stream)%nat.
Proof.
  intros _. unfold xrange, xlen, count_stream, render. cbv zeta.
  split; [|split; [reflexivity|split; [|split; [|split]]]].
  - set (lim := if (0 <=? _)%Z then _ else _).
    set (l := List.filter _ (streams s)).
    destruct (limit_split lim (sort_docs l)) as [rest Hrest].
    exists (limit lim (sort_docs l)), rest. split; [reflexivity|].
    rewrite Hrest. split; [apply sort_docs_perm|apply sort_docs_sorted].
  - rewrite length_map. cbn [indexOf indexOf_from Z.leb Z.compare limit Z.eqb].
    rewrite length_take, sort_docs_length. reflexivity.
  - intros Hn _. rewrite length_map.
    change (indexOf (AStr "COUNT") [AStr "COUNT"; ANum n]) with 0%Z.
    cbn [Z.leb Z.compare]. change (arg_at [AStr "COUNT"; ANum n] (0 + 1))
      with (Some (ANum n)). cbn [Number_arg limit].
    destruct (Z.eqb_spec n 0); [lia|].
    rewrite length_take, sort_docs_length.
    replace (Z.abs_nat n) with (Z.to_nat n) by lia. reflexivity.
  - rewrite length_map.
    change (indexOf (AStr "COUNT") [AStr "COUNT"; ANum 0]) with 0%Z.
    cbn [Z.leb Z.compare]. change (arg_at [AStr "COUNT"; ANum 0] (0 + 1))
      with (Some (ANum 0)). cbn [Number_arg limit Z.eqb].
    apply sort_docs_length.
  - rewrite length_map. set (lim := if (0 <=? _)%Z then _ else _).
    rewrite <- (sort_docs_length (List.filter _ (streams s))).
    unfold limit. destruct lim as [z|]; [|lia].
    destruct (z =? 0)%Z; [lia|]. rewrite length_take. lia.
Qed.

(** Three entries appended out of time order and read with [COUNT 2]: the
    two oldest come back, oldest first. *)
Lemma xrange_returns_oldest_witness :
  let s := fst (xadd (fst (xadd (fst (xadd (connect "cw:") 3 "orders" ["*"; "k"; "c"]))
                                1 "orders" ["*"; "k"; "a"]))
                     2 "orders" ["*"; "k"; "b"]) in
  length (xrange s "orders" "5-0" "6-0" [AStr "COUNT"; ANum 2]) = 2%nat
  /\ map fst (xrange s "orders" "5-0" "6-0" [AStr "COUNT"; ANum 2]) = ["1-0"; "2-0"].
Proof.
  intros s.
  destruct (xrange_returns_oldest s "orders" "5-0" "6-0" 2 [])
    as (_ & _ & _ & Hn & _); [left; reflexivity|].
  split; [|reflexivity].
  rewrite Hn by (unfold limit_number; lia). reflexivity.
Defined.

End MongoLogs.

(* ===================================================================== *)
(** ** src/core/config.ts with the mode selection of src/index.ts *)
(* ===================================================================== *)

Module ConfigProps.
Import Mongo Config.

Lemma str_or_some (x d : string) : x <> "" -> str_or (Some x) d = x.
Proof.
  intros Hx. unfold str_or. cbn [truthy_str default].
  by rewrite (bool_decide_eq_false_2 _ Hx).
Qed.

(** X15: [configFromEnv] throws only for a [REDIS_CLUSTER_NODES] that does
    not parse, and only outside the mongo-only mode with a [REDIS_URL];
    otherwise its result passes [validateConfig] exactly when
    [CHRONOW_MONGO_ONLY] is ["true"] or [REDIS_URL] is set and not empty, it
    never lacks the Chronos-DB part, and in the mongo-only mode it carries no
    [redis] part, so the adapter's key prefix is ["cw:"] whatever
    [REDIS_KEY_PREFIX] says. *)
Theorem configFromEnv_validates (JSON_parse : string -> option jsval)
    (syntax_error : string) (env : EnvConfig) :
  match configFromEnv JSON_parse syntax_error env with
  | inl e =>
      e = syntax_error
      /\ CHRONOW_MONGO_ONLY env <> Some "true"
      /\ truthy_str (REDIS_URL env) = true
      /\ truthy_str (REDIS_CLUSTER_NODES env) = true
      /\ JSON_parse (default "" (REDIS_CLUSTER_NODES env)) = None
  | inr cfg =>
      (validateConfig cfg = inr tt
       <-> CHRONOW_MONGO_ONLY env = Some "true" \/ truthy_str (REDIS_URL env) = true)
      /\ validateConfig cfg <> inl "Chronos-DB configuration is required"
      /\ (CHRONOW_MONGO_ONLY env = Some "true" ->
          redis cfg = None /\ init_adapter_keyPrefix cfg = "cw:")
      /\ (is_Some (redis cfg) ->
          init_adapter_keyPrefix cfg = str_or (REDIS_KEY_PREFIX env) "cw:"
          /\ init_adapter_keyPrefix cfg <> "")
  end.
Proof.
  unfold configFromEnv. cbv zeta.
  destruct (decide (CHRONOW_MONGO_ONLY env = Some "true")) as [Hm|Hm].
  - rewrite (bool_decide_eq_true_2 _ Hm). cbn [negb andb].
    split; [|split; [|split]].
    + split; [auto|reflexivity].
    + discriminate.
    + auto.
    + intros [x Hx]. discriminate Hx.
  - rewrite (bool_decide_eq_false_2 _ Hm). cbn [negb andb].
    destruct (truthy_str (REDIS_URL env)) eqn:Hurl.
    + assert (Hprefix : forall nodes,
        let cfg := mkChronowConfig false
          (Some (mkRedisOptions (default "" (REDIS_URL env))
                   (Some (bool_decide (REDIS_TLS env = Some "true")))
                   (REDIS_USERNAME env) (REDIS_PASSWORD env)
                   (Some (number_if (REDIS_DB env) 0))
                   (Some (str_or (REDIS_KEY_PREFIX env) "cw:"))
                   (Some (number_if (REDIS_RETRY_MS env) 1000))
                   nodes (REDIS_CA_CERT env)))
          (Some (buildChronosConfig env))
          (Some (mkDefaults "default" "default" 3600 30 (256 * 1024)
                   (number_or (REDIS_VISIBILITY_TIMEOUT_MS env) 30000)
                   5 [1000; 5000; 30000]%Z
                   (number_or (REDIS_MAX_STREAM_LEN env) 100000)
                   (number_or (REDIS_MAX_PAYLOAD_BYTES env) 262144) 1000)) in
        (validateConfig cfg = inr tt
         <-> CHRONOW_MONGO_ONLY env = Some "true" \/ true = true)
        /\ validateConfig cfg <> inl "Chronos-DB configuration is required"
        /\ (CHRONOW_MONGO_ONLY env = Some "true" ->
            redis cfg = None /\ init_adapter_keyPrefix cfg = "cw:")
        /\ (is_Some (redis cfg) ->
            init_adapter_keyPrefix cfg = str_or (REDIS_KEY_PREFIX env) "cw:"
            /\ init_adapter_keyPrefix cfg <> "")).
      { intros nodes cfg. split; [|split; [|split]].
        - split; [auto|reflexivity].
        - discriminate.
        - intros Hm'. contradiction.
        - intros _. subst cfg. unfold init_adapter_keyPrefix.
          change (str_or (Some (str_or (REDIS_KEY_PREFIX env) "cw:")) "cw:"
                  = str_or (REDIS_KEY_PREFIX env) "cw:"
                  /\ str_or (Some (str_or (REDIS_KEY_PREFIX env) "cw:")) "cw:" <> "").
          assert (Hne : str_or (REDIS_KEY_PREFIX env) "cw:" <> "").
          { unfold str_or. destruct (REDIS_KEY_PREFIX env) as [p|]; cbn; [|discriminate].
            case_bool_decide; cbn; [discriminate|assumption]. }
          by rewrite (str_or_some _ "cw:" Hne). }
      destruct (truthy_str (REDIS_CLUSTER_NODES env)) eqn:Hnodes; [|apply Hprefix].
      destruct (JSON_parse (default "" (REDIS_CLUSTER_NODES env))) eqn:Hparse;
        [apply Hprefix|auto].
    + split; [|split; [|split]].
      * split; [discriminate|]. intros [?|?]; [contradiction|discriminate].
      * discriminate.
      * intros Hm'. contradiction.
      * intros [x Hx]. discriminate Hx.
Qed.

(** X16: a configuration that passes [validateConfig] has the Chronos-DB part,
    and [Chronow.init] puts it in the mongo-only mode exactly when its
    [mongoOnly] flag is set: the fallback of [init] for a missing [redis]
    part is never taken, since validation throws first.  The adapter and
    the bus components are given the same key prefix, except that an empty
    prefix reaches the components only: the adapter falls back to ["cw:"]. *)
Theorem validated_config_mode (cfg : ChronowConfig) :
  validateConfig cfg = inr tt ->
  init_mongoOnly cfg = mongoOnly cfg
  /\ is_Some (chronos_config cfg)
  /\ (mongoOnly cfg = false -> is_Some (redis cfg))
  /\ (init_adapter_keyPrefix cfg = init_defaults_keyPrefix cfg
      \/ (init_defaults_keyPrefix cfg = "" /\ init_adapter_keyPrefix cfg = "cw:")).
Proof.
  unfold validateConfig, init_mongoOnly. intros H.
  assert (Hprefix : init_adapter_keyPrefix cfg = init_defaults_keyPrefix cfg
            \/ (init_defaults_keyPrefix cfg = ""
                /\ init_adapter_keyPrefix cfg = "cw:")).
  { unfold init_adapter_keyPrefix, init_defaults_keyPrefix, str_or.
    destruct (redis cfg ≫= rc_keyPrefix) as [p|]; cbn [truthy_str default];
      [|by left].
    destruct (decide (p = "")) as [->|Hne]; [by right|].
    rewrite (bool_decide_eq_false_2 _ Hne). by left. }
  destruct (mongoOnly cfg), (redis cfg) as [r|], (chronos_config cfg) as [c|];
    cbn in H; try discriminate H; repeat split; eauto; discriminate.
Qed.

(** The environment of a mongo-only deployment that also names a key
    prefix. *)
Lemma validated_config_mode_witness :
  let env := mkEnvConfig None None None None None (Some "app:") None None None
               (Some "mongodb://db:27017") None None None None None None
               (Some "true") in
  exists cfg, configFromEnv (fun _ => None) "SyntaxError" env = inr cfg
    /\ init_mongoOnly cfg = true
    /\ init_adapter_keyPrefix cfg = "cw:".
Proof.
  eexists. split; [reflexivity|]. split; [|reflexivity].
  match goal with |- init_mongoOnly ?cfg = _ =>
    exact (proj1 (validated_config_mode cfg eq_refl))
  end.
Defined.

(** An environment with a Redis URL and no cluster nodes. *)
Lemma configFromEnv_validates_witness :
  let env := mkEnvConfig (Some "redis://cache:6379") None None None None None None
               None None None None None None None None None None in
  exists cfg, configFromEnv (fun _ => None) "SyntaxError" env = inr cfg
              /\ validateConfig cfg = inr tt
              /\ init_adapter_keyPrefix cfg = "cw:".
Proof.
  intros env. eexists. split; [reflexivity|].
  pose proof (configFromEnv_validates (fun _ => None) "SyntaxError" env) as H.
  cbn in H. destruct H as (Hvalid & _ & _ & Hprefix).
  split; [apply Hvalid; by right|].
  destruct Hprefix as [Hp _]; [by eexists|exact Hp].
Defined.

End ConfigProps.

(* ===================================================================== *)
(** ** src/bus/topics.ts over the adapter *)
(* ===================================================================== *)

Module TopicsProps.
Import Mongo MongoKv Bus Topics.

Lemma xgroup_create (now : Z) (args : list string) (a : Adapter) :
  xgroup now "CREATE" args a
  = let key := (keyPrefix (ad_store a) +:+ String_opt (args !! 0%nat), args !! 1%nat) in
    match ad_groups a !! key with
    | Some _ => (Throw "BUSYGROUP Consumer Group name already exists", a)
    | None =>
        (Return (AStr "OK"),
         mkAdapter (ad_store a)
           (<[key := mkGroupDoc (or_str (args !! 2%nat) "0-0") now]> (ad_groups a)))
    end.
Proof. reflexivity. Qed.

Lemma xgroup_destroy (now : Z) (args : list string) (a : Adapter) :
  xgroup now "DESTROY" args a
  = (Return (ANum 1),
     mkAdapter (ad_store a)
       (delete (keyPrefix (ad_store a) +:+ String_opt (args !! 0%nat), args !! 1%nat)
               (ad_groups a))).
Proof. reflexivity. Qed.

Section WithDefaults.

Variable tdefaults : TopicManagerDefaults.

(** The block of [ensureTopic] that creates and destroys the helper group
    [_init]: it never throws and leaves the adapter as it was. *)
Lemma init_group_round (now : Z) (topicKey : string) (a : Adapter) :
  try_catch
    (bind (xgroup now "CREATE" [topicKey; "_init"; "0"; "MKSTREAM"])
          (fun _ => bind (xgroup now "DESTROY" [topicKey; "_init"])
                         (fun _ => ret tt)))
    (ignore_busygroup) a
  = (Return tt, a).
Proof.
  unfold bind, try_catch. rewrite xgroup_create. cbv zeta.
  set (key := (_, _)).
  destruct (ad_groups a !! key) as [g|] eqn:Hg.
  - reflexivity.
  - rewrite xgroup_destroy. cbn [ad_store ad_groups].
    change (keyPrefix (ad_store a) +:+ String_opt ([topicKey; "_init"] !! 0%nat),
            [topicKey; "_init"] !! 1%nat) with key.
    rewrite delete_insert_id by exact Hg. by destruct a.
Qed.

(** X17: over the adapter [ensureTopic] never throws and changes nothing:
    the helper group [_init] is created and destroyed again, or was there
    and stays, and no entry, key or other group is touched; the log is not
    created either. *)
Theorem ensureTopic_leaves_adapter (now : Z) (topic : string) (opts : ScopeOptions)
    (a : Adapter) :
  ensureTopic tdefaults now topic opts a = (Return tt, a).
Proof.
  unfold ensureTopic. cbv zeta. unfold bind at 1.
  rewrite init_group_round. reflexivity.
Qed.

(** X18: over the adapter [purgeTopic] removes no entry: it deletes the
    [kv] document under the topic's key, if there is one, and nothing else,
    so every log has the length it had, the answer of [xinfo] for the topic
    is the same and the groups are as before. *)
Theorem purgeTopic_keeps_entries (now : Z) (topic : string) (opts : ScopeOptions)
    (a : Adapter) (stream : string) :
  let r := purgeTopic tdefaults now topic opts a in
  fst r = Return tt
  /\ streams (ad_store (snd r)) = streams (ad_store a)
  /\ xlen (ad_store (snd r)) stream = xlen (ad_store a) stream
  /\ ad_groups (snd r) = ad_groups a
  /\ fst (xinfo "STREAM" (topicKey_of tdefaults topic opts) (snd r))
     = fst (xinfo "STREAM" (topicKey_of tdefaults topic opts) a).
Proof.
  intros r.
  assert (Hr : r = (Return tt,
                    mkAdapter (fst (del (ad_store a) [topicKey_of tdefaults topic opts]))
                              (ad_groups a))).
  { subst r. unfold purgeTopic. cbv zeta. unfold bind at 1. unfold redis_del.
    destruct (del (ad_store a) [topicKey_of tdefaults topic opts]) as [s n].
    cbn [fst]. unfold ensureTopic. cbv zeta. unfold bind at 1.
    rewrite init_group_round. reflexivity. }
  rewrite Hr. cbn [fst snd ad_store ad_groups].
  split; [reflexivity|]. split; [reflexivity|]. split; [reflexivity|].
  split; reflexivity.
Qed.

Variable JSON_stringify : jsval -> string.
Variable JSON_parse : string -> option jsval.
Variable syntax_error : string.

(** [ensureSubscription] is the registration of the group, if it is not
    registered yet, followed by the write of the state. *)
Lemma ensureSubscription_steps (now : Z) (topic subscription : string)
    (config : SubscriptionConfig) (opts : ScopeOptions) (a : Adapter) :
  let key := (keyPrefix (ad_store a) +:+ topicKey_of tdefaults topic opts,
              Some (Keys.buildConsumerGroup subscription)) in
  ensureSubscription tdefaults JSON_stringify now topic subscription config opts a
  = bind (redis_hset now (configKey_of tdefaults topic subscription opts) "config"
            (JSON_stringify (subscription_state tdefaults now topic subscription
                               config)))
         (fun _ => ret tt)
         (match ad_groups a !! key with
          | Some _ => a
          | None => mkAdapter (ad_store a)
                      (<[key := mkGroupDoc "0" now]> (ad_groups a))
          end).
Proof.
  intros key. unfold ensureSubscription. cbv zeta.
  unfold bind at 1. unfold ensureTopic. cbv zeta. unfold bind at 1.
  rewrite init_group_round. unfold ret at 1.
  unfold bind at 1. unfold try_catch. unfold bind at 1.
  rewrite xgroup_create. cbv zeta.
  change (keyPrefix (ad_store a) +:+ String_opt
            ([topicKey_of tdefaults topic opts; Keys.buildConsumerGroup subscription;
              "0"; "MKSTREAM"] !! 0%nat),
          [topicKey_of tdefaults topic opts; Keys.buildConsumerGroup subscription;
           "0"; "MKSTREAM"] !! 1%nat) with key.
  by destruct (ad_groups a !! key).
Qed.

(** X19: over the adapter [ensureSubscription] never throws, also when the
    subscription exists already; afterwards the group is registered for the
    topic's log, and [getSubscriptionConfig] returns the state that was
    written, with the defaults filled in, when [JSON.parse] reads back what
    [JSON.stringify] wrote.  No entry of a log is touched. *)
Theorem ensureSubscription_then_getSubscriptionConfig (now : Z)
    (topic subscription : string) (config : SubscriptionConfig)
    (opts : ScopeOptions) (a : Adapter) :
  let state := subscription_state tdefaults now topic subscription config in
  JSON_stringify state <> "" ->
  JSON_parse (JSON_stringify state) = Some state ->
  let r := ensureSubscription tdefaults JSON_stringify now topic subscription
             config opts a in
  fst r = Return tt
  /\ fst (getSubscriptionConfig tdefaults JSON_parse syntax_error topic
            subscription opts (snd r)) = Return (Some state)
  /\ is_Some (ad_groups (snd r)
                !! (keyPrefix (ad_store a) +:+ topicKey_of tdefaults topic opts,
                    Some (Keys.buildConsumerGroup subscription)))
  /\ streams (ad_store (snd r)) = streams (ad_store a).
Proof.
  intros state Hne Hparse r. subst r.
  rewrite ensureSubscription_steps. cbv zeta. fold state.
  set (key := (_, _)).
  set (a1 := match ad_groups a !! key with Some _ => a | None => _ end).
  assert (Hstore : ad_store a1 = ad_store a)
    by (subst a1; by destruct (ad_groups a !! key)).
  assert (Hgroup : is_Some (ad_groups a1 !! key)).
  { subst a1. destruct (ad_groups a !! key) eqn:Hg; [by rewrite Hg|].
    cbn [ad_groups]. by rewrite lookup_insert_eq. }
  clearbody a1.
  unfold bind, redis_hset, ret.
  destruct (hset (ad_store a1) now (configKey_of tdefaults topic subscription opts)
                 "config" (JSON_stringify state)) as [s n] eqn:Hset.
  cbn [fst snd ad_store ad_groups].
  assert (Hs : s = fst (hset (ad_store a1) now
                          (configKey_of tdefaults topic subscription opts)
                          "config" (JSON_stringify state))) by (by rewrite Hset).
  split; [reflexivity|]. split; [|split; [exact Hgroup|]].
  - unfold getSubscriptionConfig, bind, redis_hget. cbn [ad_store].
    assert (Hget : hget s (configKey_of tdefaults topic subscription opts) "config"
                   = Some (HStr (JSON_stringify state))).
    { rewrite Hs. unfold hget, hset. cbn [fst keyPrefix kv with_kv].
      rewrite lookup_insert_eq. cbn [kv_type kv_fields].
      rewrite bool_decide_eq_true_2 by reflexivity.
      rewrite bool_decide_eq_false_2 by apply insert_non_empty.
      rewrite lookup_insert_eq. by rewrite bool_decide_eq_false_2 by assumption. }
    rewrite Hget. by rewrite Hparse.
  - rewrite Hs. cbn. by rewrite Hstore.
Qed.

Lemma deleteSubscription_steps (now : Z) (topic subscription : string)
    (opts : ScopeOptions) (a : Adapter) :
  deleteSubscription tdefaults now topic subscription opts a
  = (Return tt,
     mkAdapter
       (fst (del (ad_store a) [configKey_of tdefaults topic subscription opts]))
       (delete (keyPrefix (ad_store a) +:+ topicKey_of tdefaults topic opts,
                Some (Keys.buildConsumerGroup subscription))
               (ad_groups a))).
Proof.
  unfold deleteSubscription. cbv zeta. unfold bind at 1. rewrite xgroup_destroy.
  unfold bind, redis_del, ret. cbn [ad_store ad_groups].
  by destruct (del (ad_store a) [configKey_of tdefaults topic subscription opts]).
Qed.

(** X20: over the adapter [deleteSubscription] never throws; afterwards the
    group is gone and [getSubscriptionConfig] answers [null], while the
    entries of the logs, with their in-flight records, stay as they were. *)
Theorem deleteSubscription_then_getSubscriptionConfig (now : Z)
    (topic subscription : string) (opts : ScopeOptions) (a : Adapter) :
  let r := deleteSubscription tdefaults now topic subscription opts a in
  fst r = Return tt
  /\ fst (getSubscriptionConfig tdefaults JSON_parse syntax_error topic
            subscription opts (snd r)) = Return None
  /\ ad_groups (snd r)
       !! (keyPrefix (ad_store a) +:+ topicKey_of tdefaults topic opts,
           Some (Keys.buildConsumerGroup subscription)) = None
  /\ streams (ad_store (snd r)) = streams (ad_store a).
Proof.
  intros r. subst r. rewrite deleteSubscription_steps.
  cbn [fst snd ad_store ad_groups].
  split; [reflexivity|]. split; [|split].
  - unfold getSubscriptionConfig, bind, redis_hget. cbn [ad_store].
    assert (Hget : hget (fst (del (ad_store a)
                                [configKey_of tdefaults topic subscription opts]))
                     (configKey_of tdefaults topic subscription opts) "config"
                   = None).
    { unfold hget.
      change (keyPrefix (fst (del (ad_store a)
                [configKey_of tdefaults topic subscription opts])))
        with (keyPrefix (ad_store a)).
      rewrite MongoKeys.del_lookup.
      by rewrite bool_decide_eq_true_2 by (apply list_elem_of_singleton; reflexivity). }
    by rewrite Hget.
  - apply lookup_delete_eq.
  - reflexivity.
Qed.

End WithDefaults.

(** X21: for a client whose [xinfo] is the adapter's, [getStats] reports the
    length of the topic's log and no number of groups: the adapter answers
    with four elements and [getStats] reads the sixth. *)
Theorem getStats_over_adapter (redis : RedisClient Adapter)
    (mdefaults : ManagerDefaults) (topic : string) (opts : ScopeOptions)
    (a : Adapter) :
  (forall command stream, r_xinfo redis command stream = xinfo command stream) ->
  let topicKey :=
    Keys.buildTopicKey topic (default (m_tenantId mdefaults) (o_tenantId opts))
                       (default (m_namespace mdefaults) (o_namespace opts))
                       (m_keyPrefix mdefaults) in
  getStats redis mdefaults topic opts a
  = (Return (mkStats topic (JNum (Z.of_nat (xlen (ad_store a) topicKey))) JUndef), a).
Proof.
  intros Hinfo topicKey. unfold getStats, try_catch, bind. rewrite Hinfo.
  reflexivity.
Qed.

(** A client made of the adapter's [xinfo] (the other commands are not
    called by [getStats]), on an adapter with one group registered. *)
Lemma getStats_over_adapter_witness :
  let redis := mkRedisClient (fun _ _ => throw "not called")
                             (fun _ => throw "not called")
                             (fun _ _ _ _ => throw "not called") xinfo in
  let a := snd (xgroup 3 "CREATE" ["cw:default:default:topic:orders"; "sub:g"; "0"]
                  (connect "cw:")) in
  fst (getStats redis (mkManagerDefaults "default" "default" "cw:" 100000)
         "orders" (mkScope None None) a)
  = Return (mkStats "orders" (JNum 0) JUndef)
  /\ fst (xinfo "STREAM" "cw:default:default:topic:orders" a)
     = Return [JStr "length"; JNum 0; JStr "groups"; JNum 1].
Proof.
  intros redis a. split; [|reflexivity].
  rewrite (getStats_over_adapter redis _ "orders" (mkScope None None) a
             (fun _ _ => eq_refl)).
  reflexivity.
Defined.

(** A subscription with a cap of 3 deliveries, for a platform whose
    [JSON.parse] reads back the text of the state. *)
Lemma ensureSubscription_then_getSubscriptionConfig_witness :
  let tdefaults := mkTopicManagerDefaults "default" "default" "cw:" 30000 5
                     [1000; 5000; 30000]%Z in
  let config := mkSubscriptionConfig None (Some 3%Z) None None None None None in
  let state := subscription_state tdefaults 7 "orders" "fraud" config in
  let stringify := fun _ : jsval => "{...}" in
  let parse := fun _ : string => Some state in
  let r := ensureSubscription tdefaults stringify 7 "orders" "fraud" config
             (mkScope None None) (connect "cw:") in
  fst (getSubscriptionConfig tdefaults parse "SyntaxError" "orders" "fraud"
         (mkScope None None) (snd r)) = Return (Some state).
Proof.
  intros tdefaults config state stringify parse r.
  exact (proj1 (proj2 (ensureSubscription_then_getSubscriptionConfig
                         tdefaults stringify parse "SyntaxError" 7 "orders" "fraud"
                         config (mkScope None None) (connect "cw:")
                         ltac:(discriminate) eq_refl))).
Defined.

End TopicsProps.

(* ===================================================================== *)
(** ** The consumer loop under any caller *)
(* ===================================================================== *)

Module ConsumerMore.
Import Consumer ConsumerRuns.

Local Open Scope list_scope.

Section WithPayload.

Context {Payload : Type} `{!EqDecision Payload}.

Implicit Types (st : State Payload) (h : Hot Payload) (m : Message Payload).

Variable config : SubscriptionState.
Variable handler : Message Payload -> Action.

Abbreviation dead_ok := (first_delivery_dead_letter config handler).

(** One entry without a counter: it is yielded with redelivery count 0, and
    whatever the caller does with it, the log and the read position stay,
    the other counters stay, and a dead letter is written only at this first
    delivery. *)
Lemma yield_step_first (now random : Q) st (ms : list (Message Payload))
    (e : LogEntry Payload) :
  deliveryCounts st !! e_id e = None ->
  let r := yield_step config handler now random (st, ms) e in
  snd r = ms ++ [mkMessage (e_id e) (e_payload e) (e_headers e) 0%Z]
  /\ topicLog (hot (fst r)) = topicLog (hot st)
  /\ lastDelivered (hot (fst r)) = lastDelivered (hot st)
  /\ (forall id, id <> e_id e -> deliveryCounts (fst r) !! id = deliveryCounts st !! id)
  /\ exists added, dlqLog (hot (fst r)) = dlqLog (hot st) ++ added
                   /\ Forall dead_ok added.
Proof.
  intros He r. subst r. unfold yield_step, dispatch, count_or. cbn [fst snd].
  rewrite He. cbv beta iota zeta. change (0 + 1)%Z with 1%Z.
  set (m := mkMessage (e_id e) (e_payload e) (e_headers e) 0%Z).
  set (st1 := mkState (<[e_id e := 1%Z]> (deliveryCounts st)) (hot st)).
  assert (Hone : count_or (deliveryCounts st1) (m_id m) 1 = 1%Z).
  { unfold count_or. subst st1 m. cbn [deliveryCounts m_id].
    by rewrite lookup_insert_eq. }
  assert (Hkeep : forall id, id <> e_id e ->
            <[e_id e := 1%Z]> (deliveryCounts st) !! id = deliveryCounts st !! id).
  { intros id Hid. by apply lookup_insert_ne. }
  assert (Hdrop : forall id, id <> e_id e ->
            delete (e_id e) (<[e_id e := 1%Z]> (deliveryCounts st)) !! id
            = deliveryCounts st !! id).
  { intros id Hid. rewrite lookup_delete_ne by auto. by apply Hkeep. }
  split; [reflexivity|].
  destruct (handler m) as [|requeue|reason|] eqn:Hh; cbn [perform].
  - cbn. repeat split; auto. exists []. by rewrite app_nil_r.
  - unfold nack. rewrite Hone.
    destruct (default 5%Z (maxDeliveries config) <=? 1)%Z eqn:Hcap.
    + cbn. repeat split; auto.
      eexists. split; [reflexivity|]. apply Forall_singleton.
      split; [reflexivity|]. apply Z.leb_le in Hcap. lia.
    + destruct requeue; cbn; repeat split; auto; exists []; by rewrite app_nil_r.
  - unfold deadLetter. rewrite Hone. cbn. repeat split; auto.
    eexists. split; [reflexivity|]. apply Forall_singleton.
    split; [reflexivity|]. intros _. exists m. auto.
  - cbn. repeat split; auto. exists []. by rewrite app_nil_r.
Qed.

Lemma yield_fold_first (now random : Q) (items : list (LogEntry Payload)) :
  forall st (ms : list (Message Payload)),
    NoDup (map e_id items) ->
    (forall e, e ∈ items -> deliveryCounts st !! e_id e = None) ->
    let r := foldl (yield_step config handler now random) (st, ms) items in
    (Forall (fun m => m_redeliveryCount m = 0%Z) ms ->
     Forall (fun m => m_redeliveryCount m = 0%Z) (snd r))
    /\ topicLog (hot (fst r)) = topicLog (hot st)
    /\ lastDelivered (hot (fst r)) = lastDelivered (hot st)
    /\ (forall id, id ∉ map e_id items ->
          deliveryCounts (fst r) !! id = deliveryCounts st !! id)
    /\ exists added, dlqLog (hot (fst r)) = dlqLog (hot st) ++ added
                     /\ Forall dead_ok added.
Proof.
  induction items as [|e items IH]; intros st ms Hnd Hnone.
  - cbn. repeat split; auto. exists []. by rewrite app_nil_r.
  - cbn in Hnd. apply NoDup_cons in Hnd as [Hnotin Hnd]. cbn [foldl].
    destruct (yield_step_first now random st ms e) as (Hms & Hlog & Hlast & Hdc & Hdlq);
      [apply Hnone; left|].
    destruct (yield_step config handler now random (st, ms) e) as [st1 ms1].
    cbn [fst snd] in *.
    destruct (IH st1 ms1 Hnd) as (Hms' & Hlog' & Hlast' & Hdc' & Hdlq').
    { intros e' He'. rewrite Hdc.
      - apply Hnone. by right.
      - intros Heq. apply Hnotin. rewrite <- Heq. apply list_elem_of_fmap. eauto. }
    split; [|split; [|split; [|split]]].
    + intros Hall. apply Hms'. rewrite Hms. apply Forall_app. split; [exact Hall|].
      by apply Forall_singleton.
    + by rewrite Hlog'.
    + by rewrite Hlast'.
    + intros id Hid. rewrite Hdc'.
      * apply Hdc. intros ->. apply Hid. left.
      * intros Hin. apply Hid. by right.
    + destruct Hdlq as (a1 & Ha1 & Hok1). destruct Hdlq' as (a2 & Ha2 & Hok2).
      exists (a1 ++ a2). split; [by rewrite Ha2, Ha1, app_assoc|].
      apply Forall_app. auto.
Qed.

Lemma processRetries_ahead (now : Q) st :
  counters_ahead st ->
  counters_ahead (processRetries now st)
  /\ dlqLog (hot (processRetries now st)) = dlqLog (hot st).
Proof.
  unfold processRetries. generalize (getReadyRetries now 10 (hot st)).
  intros rs. revert st. induction rs as [|r rs IH]; intros st Hst; [auto|].
  cbn [foldl].
  set (st1 := mkState _ _).
  destruct (IH st1) as [Hahead Hdlq]; [|split; [exact Hahead|by rewrite Hdlq]].
  destruct Hst as [Hpos Hfresh]. split; [|exact Hfresh].
  intros i e. cbn. intros Hi.
  apply lookup_app_Some in Hi as [Hi|[Hge Hi]]; [by apply Hpos|].
  apply list_lookup_singleton_Some in Hi as [Hi <-]. cbn. lia.
Qed.

Lemma iteration_ahead (now random : Q) st :
  counters_ahead st ->
  let r := iteration config handler now random st in
  counters_ahead (fst r)
  /\ Forall (fun m => m_redeliveryCount m = 0%Z) (snd r)
  /\ exists added, dlqLog (hot (fst r)) = dlqLog (hot st) ++ added
                   /\ Forall dead_ok added.
Proof.
  intros Hst r. subst r.
  destruct (processRetries_ahead now st Hst) as [[Hpos Hfresh] Hdlq0].
  unfold iteration, autoClaim. cbv zeta.
  set (st1 := processRetries now st) in *.
  unfold groupRead.
  set (items := take _ (drop _ _)).
  pose proof (ConsumerProps.read_ids (default 10%nat (count config)) (hot st1) Hpos)
    as Hids.
  fold items in Hids.
  set (st2 := mkState _ _).
  destruct (yield_fold_first now random items st2 []) as (Hms & Hl & Hla & Hdc & Hdlq).
  { rewrite Hids. apply NoDup_seq. }
  { intros e He. subst st2. cbn [deliveryCounts]. apply Hfresh.
    assert (Hin : e_id e ∈ map e_id items) by (apply list_elem_of_fmap; eauto).
    rewrite Hids in Hin. apply elem_of_seq in Hin. lia. }
  split; [|split; [by apply Hms|]].
  - split.
    + intros i e. rewrite Hl. apply Hpos.
    + intros id Hid. rewrite Hla in Hid. subst st2. cbn in Hid.
      rewrite Hdc.
      * cbn. apply Hfresh. lia.
      * rewrite Hids. intros Hin. apply elem_of_seq in Hin. lia.
  - destruct Hdlq as (added & Ha & Hok). exists added. split; [|exact Hok].
    rewrite Ha. subst st2. cbn [hot dlqLog]. by rewrite Hdlq0.
Qed.

(** X22: whatever the caller does with the messages, and at whatever clock
    readings the loop turns, every message the loop yields has redelivery
    count 0, and every dead letter it writes is written at a first delivery
    (delivery count 1); with a cap above 1 the cap never acts, and the dead
    letters are those the caller asked for with [deadLetter]. *)
Theorem consume_never_counts_past_one (random : Q) (times : list Q) st :
  counters_ahead st ->
  let r := run config handler random times st in
  Forall (fun m => m_redeliveryCount m = 0%Z) (snd r)
  /\ exists added, dlqLog (hot (fst r)) = dlqLog (hot st) ++ added
                   /\ Forall dead_ok added.
Proof.
  revert st. induction times as [|now times IH]; intros st Hst.
  - cbn. split; [constructor|]. exists []. by rewrite app_nil_r.
  - cbn [run].
    destruct (iteration_ahead now random st Hst) as (Hst1 & Hms1 & a1 & Ha1 & Hok1).
    destruct (iteration config handler now random st) as [st1 ms1].
    cbn [fst snd] in *.
    destruct (IH st1 Hst1) as (Hms2 & a2 & Ha2 & Hok2).
    destruct (run config handler random times st1) as [st2 ms2].
    cbn [fst snd] in *. split; [by apply Forall_app|].
    exists (a1 ++ a2). split; [by rewrite Ha2, Ha1, app_assoc|].
    by apply Forall_app.
Qed.

(** The retries that stay when [entry] is taken out of the set. *)
Lemma filter_not_due (now : Q) (entry : RetryEntry Payload)
    (l : list (Q * RetryEntry Payload)) :
  Forall (fun e => (now < fst e)%Q) l ->
  List.filter (fun e => Qle_bool (fst e) now)
              (List.filter (fun e => negb (bool_decide (snd e = entry))) l) = [].
Proof.
  induction l as [|x l IH]; intros Hall; [reflexivity|].
  apply Forall_cons in Hall as [Hx Hall]. cbn [List.filter].
  assert (Hfalse : Qle_bool (fst x) now = false).
  { destruct (Qle_bool (fst x) now) eqn:E; [|reflexivity].
    apply Qle_bool_iff in E. exfalso. by apply (Qlt_not_le _ _ Hx). }
  destruct (negb _); cbn [List.filter]; rewrite ?Hfalse; by apply IH.
Qed.

Lemma filter_twice {A : Type} (f : A -> bool) (l : list A) :
  List.filter f (List.filter f l) = List.filter f l.
Proof.
  induction l as [|x l IH]; [reflexivity|]. cbn.
  destruct (f x) eqn:E; cbn; rewrite ?E, IH; reflexivity.
Qed.

(** X23: a message nacked with [requeue] under the cap waits in the retry
    set for its back-off delay: a turn of the loop before that time leaves
    it there, and the first turn at or after it appends the payload to the
    log once more, as a new entry that names the original id and the
    delivery count, and takes the retry out of the set.  The counter of the
    original id is kept and the original id is no longer in flight. *)
Theorem nack_requeue_then_processRetries (now random now' : Q) m st (d : Z) :
  deliveryCounts st !! m_id m = Some d -> d <> 0%Z ->
  (d < default 5 (maxDeliveries config))%Z ->
  none_due now' (hot st) ->
  let delay := Time.calculateBackoff d
                 (default [1000; 5000; 30000]%Q (retryBackoffMs config)) true random in
  let entry := mkRetryEntry (m_id m) (m_payload m) (m_headers m) d (now + delay)%Q in
  let st1 := nack config now random m true st in
  let st2 := processRetries now' st1 in
  ((now' < now + delay)%Q -> st2 = st1 /\ (now + delay, entry)%Q ∈ retrySet (hot st1))
  /\ ((now + delay <= now')%Q ->
      topicLog (hot st2)
      = topicLog (hot st)
          ++ [mkLogEntry (length (topicLog (hot st))) (m_payload m) (m_headers m)
                         (Some (m_id m)) (Some d)]
      /\ retrySet (hot st2)
         = List.filter (fun e => negb (bool_decide (snd e = entry)))
                       (retrySet (hot st))
      /\ deliveryCounts st2 = deliveryCounts st
      /\ m_id m ∉ pel (hot st2)).
Proof.
  intros Hd Hnz Hcap Hdue delay entry st1 st2.
  assert (Hst1 : st1 = mkState (deliveryCounts st)
                         (groupAck (m_id m)
                            (zsetAdd (now + delay)%Q entry (hot st)))).
  { subst st1. by rewrite (ConsumerProps.nack_under_cap config now random m true st d). }
  assert (Hset : retrySet (hot st1)
                 = List.filter (fun e => negb (bool_decide (snd e = entry)))
                               (retrySet (hot st)) ++ [((now + delay)%Q, entry)]).
  { by rewrite Hst1. }
  assert (Hready : getReadyRetries now' 10 (hot st1)
                   = if Qle_bool (now + delay) now' then [entry] else []).
  { unfold getReadyRetries, zsetRangeByScore. rewrite Hset, List.filter_app.
    rewrite (filter_not_due now' entry _ Hdue). cbn [List.filter app fst].
    by destruct (Qle_bool (now + delay) now'). }
  split.
  - intros Hlt. split.
    + subst st2. unfold processRetries. rewrite Hready.
      destruct (Qle_bool (now + delay) now') eqn:E; [|reflexivity].
      apply Qle_bool_iff in E. exfalso. by apply (Qlt_not_le _ _ Hlt).
    + rewrite Hset. apply elem_of_app. right. by apply list_elem_of_singleton.
  - intros Hle. apply Qle_bool_iff in Hle.
    assert (Hst2 : st2 = mkState (deliveryCounts st1)
                           (removeRetry entry
                              (fst (logAppend (m_payload m) (m_headers m)
                                      (Some (m_id m)) (Some d) (hot st1))))).
    { subst st2. unfold processRetries. by rewrite Hready, Hle. }
    rewrite Hst2. cbn [hot deliveryCounts]. unfold removeRetry, zsetRemove, logAppend.
    cbn [fst topicLog retrySet pel lastDelivered dlqLog].
    rewrite Hset, List.filter_app, filter_twice. cbn [List.filter snd].
    rewrite bool_decide_eq_true_2 by reflexivity. cbn [negb]. rewrite app_nil_r.
    rewrite Hst1. cbn [hot deliveryCounts]. unfold groupAck, zsetAdd.
    cbn [topicLog pel]. repeat split.
    intros Hin. apply list_elem_of_In, filter_In in Hin as [_ Hin].
    by rewrite bool_decide_eq_true_2 in Hin by reflexivity.
Qed.

(** X30: a message handle can be settled more than once.  A second [ack]
    changes nothing, but the other calls do not see that the message was
    settled: after an [ack] the counter is gone, so a [deadLetter] still
    writes a dead letter, with delivery count 1, and under a cap above 1 a
    [nack] with [requeue] still schedules a retry, as attempt 1; two
    [deadLetter] calls write two dead letters. *)
Theorem settle_after_ack (now random : Q) m st (reason : string) :
  let delay := Time.calculateBackoff 1
                 (default [1000; 5000; 30000]%Q (retryBackoffMs config)) true random in
  let entry := mkRetryEntry (m_id m) (m_payload m) (m_headers m) 1 (now + delay)%Q in
  ack m (ack m st) = ack m st
  /\ dlqLog (hot (deadLetter m reason (ack m st)))
     = dlqLog (hot st) ++ [mkDeadLetter (m_id m) (m_payload m) (m_headers m) reason 1]
  /\ dlqLog (hot (deadLetter m reason (deadLetter m reason st)))
     = dlqLog (hot st)
         ++ [mkDeadLetter (m_id m) (m_payload m) (m_headers m) reason
                          (count_or (deliveryCounts st) (m_id m) 1);
             mkDeadLetter (m_id m) (m_payload m) (m_headers m) reason 1]
  /\ ((2 <= default 5 (maxDeliveries config))%Z ->
      (now + delay, entry)%Q ∈ retrySet (hot (nack config now random m true (ack m st)))
      /\ dlqLog (hot (nack config now random m true (ack m st))) = dlqLog (hot st)).
Proof.
  intros delay entry.
  assert (Hgone : forall dc : gmap nat Z, count_or (delete (m_id m) dc) (m_id m) 1 = 1%Z).
  { intros dc. unfold count_or. by rewrite lookup_delete_eq. }
  split; [|split; [|split]].
  - unfold ack. cbn [deliveryCounts hot m_id]. f_equal.
    + apply delete_delete_eq.
    + unfold groupAck. cbn [pel topicLog lastDelivered retrySet dlqLog].
      f_equal. apply filter_twice.
  - unfold deadLetter, ack. cbn [deliveryCounts hot]. by rewrite Hgone.
  - unfold deadLetter. cbn [deliveryCounts hot]. rewrite Hgone.
    cbn [groupAck sendToDeadLetter dlqLog]. by rewrite <- app_assoc.
  - intros Hcap. unfold nack, ack. cbn [deliveryCounts hot]. rewrite Hgone.
    destruct (Z.leb_spec (default 5%Z (maxDeliveries config)) 1) as [Hle|_]; [lia|].
    cbn [hot]. split; [|reflexivity].
    unfold scheduleRetry, zsetAdd, groupAck. cbn [retrySet].
    apply elem_of_app. right. by apply list_elem_of_singleton.
Qed.

End WithPayload.

(** Two entries, each nacked without requeue, over two turns of the loop. *)
Lemma consume_never_counts_past_one_witness :
  let config := mkSubscriptionState (Some 3%Z) None None in
  let handler := fun _ : Message string => DoNack false in
  let st0 := mkState ∅ (fst (logAppend "a" "{}" None None
                               (fst (logAppend "b" "{}" None None empty_hot)))) in
  Forall (fun m => m_redeliveryCount m = 0%Z)
         (snd (run config handler 0 [0; 1000]%Q st0)).
Proof.
  intros config handler st0.
  refine (proj1 (consume_never_counts_past_one config handler 0 [0; 1000]%Q st0 _)).
  split.
  - intros [|[|i]] e; cbn; intros He; try discriminate He;
      injection He as <-; reflexivity.
  - intros id _. apply lookup_empty.
Defined.

(** The first retry of the repository's example: back-off list
    [500, 2000, 5000], delivery count 1, jitter 0: due 2000 ms after the
    nack. *)
Lemma nack_requeue_then_processRetries_witness :
  let config := mkSubscriptionState (Some 3%Z) (Some [500; 2000; 5000]%Q) None in
  let m := mkMessage 0%nat "task" "{}" 0%Z in
  let st := mkState {[ 0%nat := 1%Z ]}
                    (fst (logAppend "task" "{}" None None empty_hot)) in
  let st1 := nack config 100 0 m true st in
  processRetries 2000 st1 = st1
  /\ map e_retryOf (topicLog (hot (processRetries 2100 st1))) = [None; Some 0%nat].
Proof.
  intros config m st st1.
  assert (Hd : deliveryCounts st !! m_id m = Some 1%Z) by reflexivity.
  assert (Hcap : (1 < default 5 (maxDeliveries config))%Z) by (cbn; lia).
  destruct (nack_requeue_then_processRetries config 100 0 2000 m st 1
              Hd ltac:(lia) Hcap ltac:(constructor)) as [Hwait _].
  destruct (nack_requeue_then_processRetries config 100 0 2100 m st 1
              Hd ltac:(lia) Hcap ltac:(constructor)) as [_ Hback].
  split.
  - apply Hwait. reflexivity.
  - destruct Hback as [Hlog _]; [cbn; discriminate|].
    fold st1 in Hlog. rewrite Hlog. reflexivity.
Defined.

(** A message acknowledged and then nacked with [requeue], under a cap of
    3: the retry is scheduled 5000 ms later, as attempt 1. *)
Lemma settle_after_ack_witness :
  let config := mkSubscriptionState (Some 3%Z) (Some [1000; 5000; 30000]%Q) None in
  let m := mkMessage 0%nat "task" "{}" 0%Z in
  let st := mkState {[ 0%nat := 1%Z ]}
                    (fst (logAppend "task" "{}" None None empty_hot)) in
  map (fun e => re_attempt (snd e))
      (retrySet (hot (nack config 100 0 m true (ack m st)))) = [1%Z]
  /\ dlqLog (hot (nack config 100 0 m true (ack m st))) = [].
Proof.
  intros config m st.
  destruct (settle_after_ack config 100 0 m st "late") as (_ & _ & _ & Hnack).
  destruct Hnack as [_ Hdlq]; [cbn; lia|].
  split; [reflexivity|exact Hdlq].
Defined.

End ConsumerMore.

(* ===================================================================== *)
(** ** src/bus/producer.ts: [publishBatch] against [publish] *)
(* ===================================================================== *)

Module BatchProps.
Import Bus Batches.

Local Open Scope list_scope.

Section WithStore.

Context {St : Type}.
Variable redis : RedisClient St.
Variable JSON_stringify : jsval -> string.
Variable hashValue : jsval -> string.
Variable isoNow : string.
Variable d : ProducerDefaults.

Abbreviation op := (queued_xadd JSON_stringify hashValue isoNow d).

Lemma batch_queue_fits (key : string) (messages : list BatchMessage)
    (queued : list (string * list string)) :
  Forall (fits JSON_stringify d) messages ->
  batch_queue JSON_stringify hashValue isoNow d key messages queued
  = inr (queued ++ map (op key) messages).
Proof.
  revert queued. induction messages as [|msg rest IH]; intros queued Hfit.
  - cbn. by rewrite app_nil_r.
  - apply Forall_cons in Hfit as [Hmsg Hrest]. cbn [batch_queue]. cbv zeta.
    unfold fits in Hmsg. apply Z.ltb_ge in Hmsg. rewrite Hmsg.
    rewrite IH by assumption. by rewrite <- app_assoc.
Qed.

Lemma collect_ids_returns (ids : list string) :
  collect_ids (map Return ids) = Return ids.
Proof. induction ids as [|id ids IH]; [reflexivity|]. cbn. by rewrite IH. Qed.

(** When publishing one by one succeeds, every message fits and the
    pipeline of the queued commands runs the same appends. *)
Lemma publish_each_pipeline (topic : string) (messages : list BatchMessage)
    (opts : PublishOptions) (s s' : St) (ids : list string) :
  publish_each redis JSON_stringify hashValue isoNow d topic messages opts s
  = (Return ids, s') ->
  let topicKey :=
    Keys.buildTopicKey topic (default (p_tenantId d) (o_tenantId (po_scope opts)))
                       (default (p_namespace d) (o_namespace (po_scope opts)))
                       (p_keyPrefix d) in
  Forall (fits JSON_stringify d) messages
  /\ pipeline_run redis (map (op topicKey) messages) s = (map Return ids, s').
Proof.
  intros Heach topicKey. revert s ids Heach.
  induction messages as [|msg rest IH]; intros s ids Heach.
  - cbn in Heach. injection Heach as <- <-. split; [constructor|reflexivity].
  - cbn [publish_each] in Heach. unfold bind at 1 in Heach.
    unfold publish in Heach. cbn [po_scope po_headers po_persistWarmCopy] in Heach.
    fold topicKey in Heach.
    destruct (p_maxPayloadBytes d <? byteLength (JSON_stringify (bm_payload msg)))%Z
      eqn:Hsize; [discriminate Heach|].
    unfold bind at 1 in Heach.
    cbn [map pipeline_run]. unfold queued_xadd at 1.
    destruct (r_xadd redis topicKey
                (publish_args JSON_stringify hashValue isoNow d (bm_payload msg)
                   (default (JObj []) (bm_headers msg))) s) as [[id|e] s1] eqn:Hadd;
      [|discriminate Heach].
    assert (Hrest : exists ids', ids = id :: ids'
              /\ publish_each redis JSON_stringify hashValue isoNow d topic rest opts s1
                 = (Return ids', s')).
    { destruct (po_persistWarmCopy opts); unfold bind, warm_saveMessage, ret in Heach;
        destruct (publish_each redis JSON_stringify hashValue isoNow d topic rest opts s1)
          as [[ids'|e] s2]; try discriminate Heach;
        injection Heach as <- <-; eauto. }
    destruct Hrest as (ids' & -> & Hrest).
    destruct (IH s1 ids' Hrest) as [Hfit Hrun].
    split.
    + constructor; [|exact Hfit]. unfold fits. by apply Z.ltb_ge.
    + by rewrite Hrun.
Qed.

(** X24: whenever publishing the messages of a batch one by one succeeds,
    [publishBatch] returns the same ids and leaves the store in the same
    state. *)
Theorem publishBatch_as_publish_each (topic : string) (messages : list BatchMessage)
    (opts : PublishOptions) (s s' : St) (ids : list string) :
  publish_each redis JSON_stringify hashValue isoNow d topic messages opts s
  = (Return ids, s') ->
  publishBatch redis JSON_stringify hashValue isoNow d topic messages opts s
  = (Return ids, s').
Proof.
  intros Heach. apply publish_each_pipeline in Heach as [Hfit Hrun].
  unfold publishBatch. cbv zeta. rewrite (batch_queue_fits _ _ _ Hfit).
  unfold bind, pipeline_exec. cbn [app]. rewrite Hrun, collect_ids_returns.
  reflexivity.
Qed.

End WithStore.

(** Two messages on the recording client. *)
Lemma publishBatch_as_publish_each_witness :
  let d := mkProducerDefaults "default" "default" "cw:" 100000 16 in
  let opts := mkPublishOptions false None (mkScope None None) in
  let messages := [mkBatchMessage (JStr "a") None; mkBatchMessage (JStr "b") None] in
  fst (publishBatch recorder json_text json_text "" d "orders" messages opts
         (mkRecorder true []))
  = Return ["0"; "1"].
Proof.
  intros d opts messages.
  by rewrite (publishBatch_as_publish_each recorder json_text json_text "" d "orders"
                messages opts (mkRecorder true []) _ ["0"; "1"] eq_refl).
Defined.

End BatchProps.

(* ===================================================================== *)
(** ** The bus components over the adapter *)
(* ===================================================================== *)

Module AdapterBus.
Import Mongo MongoKv Bus AdapterClient MongoFacts.

Local Open Scope list_scope.

Section WithProducer.

Variable redis : RedisClient Store.
Variable JSON_stringify : jsval -> string.
Variable hashValue : jsval -> string.
Variable isoNow : string.
Variable d : ProducerDefaults.

(** X25: [publish] over the adapter stores the message under shifted field
    names: the stored entry has the fields named ["*"], the payload text,
    the headers text, the hash, the size text and the publication time
    (but for a text [__proto__], which gives no field), and no other; the
    text ["payload"] is the value of the field ["*"].  So the entry has a
    field named ["payload"] only if one of those texts is the word
    [payload]. *)
Theorem publish_over_adapter_field_names (now : Z) (topic : string)
    (payload : jsval) (opts : PublishOptions) (s : Store) (m : Z) :
  (forall key args, r_xadd redis key args = adapter_xadd now key args) ->
  (byteLength (JSON_stringify payload) <= p_maxPayloadBytes d)%Z ->
  whole_text (pretty (p_maxStreamLen d)) m ->
  let topicKey :=
    Keys.buildTopicKey topic (default (p_tenantId d) (o_tenantId (po_scope opts)))
                       (default (p_namespace d) (o_namespace (po_scope opts)))
                       (p_keyPrefix d) in
  (Z.of_nat (xlen s topicKey) < m)%Z ->
  let texts := [JSON_stringify payload;
                JSON_stringify (default (JObj []) (po_headers opts));
                hashValue payload;
                pretty (byteLength (JSON_stringify payload));
                isoNow] in
  Forall (fun k => inserted_name k = true) texts ->
  exists doc,
    publish redis JSON_stringify hashValue isoNow d topic payload opts s
    = (Return (d_id doc),
       mkStore (keyPrefix s) (kv s) (streams s ++ [doc]) (S (next_oid s)))
    /\ d_stream doc = keyPrefix s +:+ topicKey
    /\ (forall k, is_Some (obj_get k (d_fields doc))
                  <-> k <> "__proto__" /\ k ∈ "*" :: texts)
    /\ ("payload" ∉ texts -> obj_get "payload" (d_fields doc) = None)
    /\ ("*" ∉ texts -> obj_get "*" (d_fields doc) = Some (Some "payload")).
Proof.
  intros Hxadd Hfit [Hn _] topicKey Hlen texts _.
  destruct (xadd_maxlen_appends s now topicKey (pretty (p_maxStreamLen d)) m
              (Codecs.toFlatArray_entries JSON_stringify
                 [("payload", JStr (JSON_stringify payload));
                  ("headers", JStr (JSON_stringify (default (JObj []) (po_headers opts))));
                  ("hash", JStr (hashValue payload));
                  ("size", JStr (pretty (byteLength (JSON_stringify payload))));
                  ("publishedAt", JStr isoNow)]) Hn Hlen)
    as (doc & Hadd & Hstream & Hfields).
  exists doc.
  assert (Hkeys : forall k, is_Some (obj_get k (d_fields doc))
                            <-> k <> "__proto__" /\ k ∈ "*" :: texts).
  { intros k. rewrite Hfields, fields_from_keys.
    cbn [map names Codecs.toFlatArray_entries]. unfold obj_get. cbn [List.find fmap option_fmap option_map].
    rewrite !elem_of_cons, elem_of_nil. subst texts. rewrite !elem_of_cons, elem_of_nil.
    split.
    - intros [[? [=]]|H]. tauto.
    - intros [Hne H]. right. split; [exact Hne|]. tauto. }
  split; [|split; [exact Hstream|split; [exact Hkeys|split]]].
  - unfold publish. cbv zeta. fold topicKey.
    apply Z.ltb_ge in Hfit. rewrite Hfit.
    unfold bind. rewrite Hxadd. unfold adapter_xadd.
    change (publish_args JSON_stringify hashValue isoNow d payload
              (default (JObj []) (po_headers opts)))
      with (maxlen_args (pretty (p_maxStreamLen d))
              (Codecs.toFlatArray_entries JSON_stringify
                 [("payload", JStr (JSON_stringify payload));
                  ("headers", JStr (JSON_stringify (default (JObj []) (po_headers opts))));
                  ("hash", JStr (hashValue payload));
                  ("size", JStr (pretty (byteLength (JSON_stringify payload))));
                  ("publishedAt", JStr isoNow)])).
    rewrite Hadd. by destruct (po_persistWarmCopy opts).
  - intros Hno. destruct (obj_get "payload" (d_fields doc)) as [v|] eqn:Hget;
      [|reflexivity].
    exfalso. assert (Hin : "payload" ∈ "*" :: texts) by (apply Hkeys; rewrite Hget; eauto).
    apply elem_of_cons in Hin as [Hin|Hin]; [discriminate Hin|contradiction].
  - intros Hstar. rewrite Hfields.
    change (obj_get "*"
              (fields_from
                 [JSON_stringify payload; "headers";
                  JSON_stringify (default (JObj []) (po_headers opts)); "hash";
                  hashValue payload; "size";
                  pretty (byteLength (JSON_stringify payload)); "publishedAt";
                  isoNow]
                 [("*", Some "payload")])
            = Some (Some "payload")).
    rewrite fields_from_get; [reflexivity|]. exact Hstar.
Qed.

End WithProducer.

(** X26: over the adapter [purgeDlq] leaves the dead-letter log as long as
    it was ([del] does not reach the logs), while [clearRetries] does empty
    the retry set, which is a [kv] document. *)
Theorem purgeDlq_and_clearRetries_over_adapter (redis : RedisClient Store)
    (mdefaults : ManagerDefaults) (rdefaults : RetryManagerDefaults)
    (topic subscription : string) (opts : ScopeOptions) (s : Store) :
  (forall key, r_xlen redis key = adapter_xlen key) ->
  fst (purgeDlq mdefaults topic opts s) = Return tt
  /\ fst (getDlqLength redis mdefaults topic opts
            (snd (purgeDlq mdefaults topic opts s)))
     = fst (getDlqLength redis mdefaults topic opts s)
  /\ fst (clearRetries rdefaults topic subscription opts s) = Return tt
  /\ fst (getRetryCount rdefaults topic subscription opts
            (snd (clearRetries rdefaults topic subscription opts s)))
     = Return 0%nat.
Proof.
  intros Hxlen.
  unfold purgeDlq, clearRetries, getRetryCount, getDlqLength, try_catch, bind,
    adapter_del, adapter_zcard, ret. cbv zeta. rewrite !Hxlen. unfold adapter_xlen.
  set (dlqKey := Keys.buildDlqKey _ _ _ _).
  set (retryKey := Keys.buildRetryKey _ _ _ _ _).
  destruct (del s [dlqKey]) as [s1 n1] eqn:Hd1.
  destruct (del s [retryKey]) as [s2 n2] eqn:Hd2.
  cbn [fst snd].
  assert (Hs1 : s1 = fst (del s [dlqKey])) by (by rewrite Hd1).
  assert (Hs2 : s2 = fst (del s [retryKey])) by (by rewrite Hd2).
  repeat split.
  - by rewrite Hs1.
  - f_equal. unfold zcard.
    assert (Hk : keyPrefix s2 = keyPrefix s) by (by rewrite Hs2).
    rewrite Hk, Hs2, MongoKeys.del_lookup.
    by rewrite bool_decide_eq_true_2 by (apply list_elem_of_singleton; reflexivity).
Qed.

(** A message published on a new adapter by a client made of the adapter's
    [xadd]: the stored entry has no field named ["payload"], and its size
    text ["2"], an array index, is listed as its first field. *)
Lemma publish_over_adapter_field_names_witness :
  let redis := mkRedisClient (adapter_xadd 5) (fun _ => throw "not called")
                             (fun _ _ _ _ => throw "not called")
                             (fun _ _ => throw "not called") in
  let d := mkProducerDefaults "default" "default" "cw:" 100000 16 in
  let opts := mkPublishOptions false None (mkScope None None) in
  exists doc,
    streams (snd (publish redis json_text json_text "2026-01-01T00:00:00.000Z" d
                    "orders" (JStr "{}") opts (connect "cw:"))) = [doc]
    /\ obj_get "payload" (d_fields doc) = None
    /\ obj_get "*" (d_fields doc) = Some (Some "payload")
    /\ map fst (d_fields doc) = ["2"; "*"; "{}"; "null"; "2026-01-01T00:00:00.000Z"].
Proof.
  intros redis d opts.
  destruct (publish_over_adapter_field_names redis json_text json_text
              "2026-01-01T00:00:00.000Z" d 5 "orders" (JStr "{}") opts
              (connect "cw:") 100000 (fun _ _ => eq_refl)
              ltac:(vm_compute; discriminate)
              ltac:(split; [reflexivity|vm_compute; discriminate])
              ltac:(vm_compute; reflexivity) ltac:(repeat constructor))
    as (doc & Hpub & _ & _ & Hno & Hhead).
  exists doc. split; [by rewrite Hpub|]. split; [|split].
  - apply Hno. intros Hin. apply list_elem_of_In in Hin. cbn in Hin.
    repeat (destruct Hin as [Hin|Hin]; [discriminate Hin|]). exact Hin.
  - apply Hhead. intros Hin. apply list_elem_of_In in Hin. cbn in Hin.
    repeat (destruct Hin as [Hin|Hin]; [discriminate Hin|]). exact Hin.
  - injection Hpub as _ Hdoc. rewrite <- Hdoc. vm_compute. reflexivity.
Defined.

(** A dead-letter log with one entry and a retry set with one member. *)
Lemma purgeDlq_and_clearRetries_over_adapter_witness :
  let redis := mkRedisClient (fun _ _ => throw "not called") adapter_xlen
                             (fun _ _ _ _ => throw "not called")
                             (fun _ _ => throw "not called") in
  let md := mkManagerDefaults "default" "default" "cw:" 100000 in
  let rd := mkRetryManagerDefaults "default" "default" "cw:" [1000; 5000; 30000]%Q in
  let s0 := fst (xadd (connect "cw:") 5 "cw:default:default:dlq:orders"
                      ["*"; "reason"; "r"]) in
  let s := match zadd s0 6 "cw:default:default:retry:orders:g" 1500 "entry" with
           | inr (s1, _) => s1
           | inl _ => s0
           end in
  fst (getDlqLength redis md "orders" (mkScope None None)
         (snd (purgeDlq md "orders" (mkScope None None) s))) = Return 1%nat
  /\ fst (getRetryCount rd "orders" "g" (mkScope None None) s) = Return 1%nat
  /\ fst (getRetryCount rd "orders" "g" (mkScope None None)
            (snd (clearRetries rd "orders" "g" (mkScope None None) s))) = Return 0%nat.
Proof.
  intros redis md rd s0 s.
  destruct (purgeDlq_and_clearRetries_over_adapter redis md rd "orders" "g"
              (mkScope None None) s (fun _ => eq_refl)) as (_ & Hdlq & _ & Hretry).
  split; [|split].
  - rewrite Hdlq. reflexivity.
  - reflexivity.
  - exact Hretry.
Defined.

End AdapterBus.

(* ===================================================================== *)
(** ** src/bus/dlq.ts: a dead letter written and read back *)
(* ===================================================================== *)

Module DlqProps.
Import Bus.

Local Open Scope list_scope.

Section OnRecorder.

Variable JSON_parse : string -> option jsval.
Variable JSON_stringify : jsval -> string.
Variable isoNow : string.
Variable md : ManagerDefaults.

Lemma key_entries_snoc (key : string) (up : bool) (log : list (string * list string))
    (args : list string) :
  key_entries key (mkRecorder up (log ++ [(key, args)]))
  = key_entries key (mkRecorder up log) ++ [(key, args)].
Proof.
  unfold key_entries. cbn [rec_log]. rewrite List.filter_app. cbn [List.filter fst].
  by rewrite bool_decide_eq_true_2 by reflexivity.
Qed.

Lemma key_positions_snoc (key : string) (up : bool) (log : list (string * list string))
    (args : list string) :
  key_positions key (mkRecorder up (log ++ [(key, args)]))
  = key_positions key (mkRecorder up log) ++ [(length log, (key, args))].
Proof.
  unfold key_positions. cbn [rec_log]. rewrite imap_app, List.filter_app.
  cbn [imap List.filter fst snd].
  rewrite bool_decide_eq_true_2 by reflexivity. by rewrite Nat.add_0_r.
Qed.

Lemma positions_length (key : string) (log : list (string * list string)) (k : nat) :
  length (List.filter (fun ie : nat * (string * list string) =>
                         bool_decide (fst (snd ie) = key))
                      (imap (fun i e => (k + i, e)%nat) log))
  = length (List.filter (fun e : string * list string =>
                           bool_decide (fst e = key)) log).
Proof.
  revert k. induction log as [|e log IH]; intros k; [reflexivity|].
  cbn [imap List.filter fst snd].
  assert (Heq : imap ((fun i e0 => (k + i, e0)%nat) ∘ S) log
                = imap (fun i (e0 : string * list string) => (S k + i, e0)%nat) log).
  { apply imap_ext. intros i x _. cbn. f_equal. lia. }
  rewrite Heq. destruct (bool_decide (fst e = key)); cbn [length]; by rewrite (IH (S k)).
Qed.

Lemma key_positions_length (key : string) (s : Recorder) :
  length (key_positions key s) = length (key_entries key s).
Proof. exact (positions_length key (rec_log s) 0). Qed.

Lemma whole_range (l : list (nat * (string * list string))) :
  List.filter (fun ie => in_range Lowest Highest (fst ie)) l = l.
Proof.
  induction l as [|x l IH]; [reflexivity|]. cbn [List.filter].
  change (in_range Lowest Highest (fst x)) with true. cbn iota. by rewrite IH.
Qed.

(** X28: on the recording client with the connection up and a dead-letter
    log shorter than its [MAXLEN], [peekDlq] returns the first [limit] dead
    letters, oldest first, and [getDlqLength] their number.  A dead letter
    written by [sendToDeadLetter] comes after those written before, so
    [peekDlq] returns it when [limit] exceeds their number: under the id
    that its append returned, the original id and the reason as written, the
    delivery count as its decimal text, the payload and the headers parsed
    when their texts parse and as texts otherwise; [getDlqLength] is one
    more than before. *)
Theorem sendToDeadLetter_then_peekDlq (topic msgId : string) (payload headers : jsval)
    (reason : string) (deliveries limit : Z) (opts : ScopeOptions) (s : Recorder) :
  rec_up s = true ->
  let dlqKey := Keys.buildDlqKey topic (default (m_tenantId md) (o_tenantId opts))
                  (default (m_namespace md) (o_namespace opts)) (m_keyPrefix md) in
  (Z.of_nat (length (key_entries dlqKey s)) < m_maxStreamLen md)%Z ->
  let s1 := snd (sendToDeadLetter recorder JSON_stringify isoNow md topic msgId
                   payload headers reason deliveries opts s) in
  let read (text : string) := default (JStr text) (JSON_parse text) in
  exists (before : list (gmap string jsval)) (obj : gmap string jsval),
    peekDlq recorder JSON_parse md topic limit opts s
    = (Return (take (Z.to_nat limit) before), s)
    /\ peekDlq recorder JSON_parse md topic limit opts s1
       = (Return (take (Z.to_nat limit) (before ++ [obj])), s1)
    /\ ((Z.of_nat (length before) < limit)%Z ->
        peekDlq recorder JSON_parse md topic limit opts s1
        = (Return (before ++ [obj]), s1))
    /\ obj !! "id" = Some (JStr (pretty (length (rec_log s))))
    /\ obj !! "originalMsgId" = Some (JStr msgId)
    /\ obj !! "reason" = Some (JStr reason)
    /\ obj !! "deliveries" = Some (JStr (pretty deliveries))
    /\ obj !! "payload" = Some (read (JSON_stringify payload))
    /\ obj !! "headers" = Some (read (JSON_stringify headers))
    /\ obj !! "failedAt" = Some (JStr isoNow)
    /\ getDlqLength recorder md topic opts s = (Return (length before), s)
    /\ getDlqLength recorder md topic opts s1 = (Return (S (length before)), s1).
Proof.
  destruct s as [up log]. intros Hup dlqKey _ s1 read. cbn [rec_up] in Hup. subst up.
  set (flat := Codecs.toFlatArray_entries JSON_stringify
                 [("originalMsgId", JStr msgId);
                  ("payload", JStr (JSON_stringify payload));
                  ("headers", JStr (JSON_stringify headers));
                  ("reason", JStr reason);
                  ("deliveries", JStr (pretty deliveries));
                  ("failedAt", JStr isoNow)]).
  assert (Hs1 : s1 = mkRecorder true
                       (log ++ [(dlqKey,
                                 ["MAXLEN"; "~"; pretty (m_maxStreamLen md); "*"]
                                   ++ flat)])) by reflexivity.
  set (decode := fun e : string * list string =>
                   peek_fields JSON_parse (snd e) {[ "id" := JStr (fst e) ]}).
  set (entry := fun ie : nat * (string * list string) =>
                  (pretty (fst ie), drop 4 (snd (snd ie)))).
  assert (Hpeek : forall log', peekDlq recorder JSON_parse md topic limit opts
                                 (mkRecorder true log')
                    = (Return (take (Z.to_nat limit)
                                 (map decode
                                    (map entry (key_positions dlqKey (mkRecorder true log'))))),
                       mkRecorder true log')).
  { intros log'. unfold peekDlq, try_catch, bind. fold dlqKey.
    cbn [r_xrange recorder]. unfold guarded. cbn [rec_up].
    unfold recorder_xrange.
    change (read_bound "-") with (Some Lowest).
    change (read_bound "+") with (Some Highest).
    cbn [range_count].
    rewrite whole_range. unfold ret. by rewrite !List.firstn_map. }
  assert (Hlen : forall log', getDlqLength recorder md topic opts (mkRecorder true log')
                   = (Return (length (key_entries dlqKey (mkRecorder true log'))),
                      mkRecorder true log')) by reflexivity.
  set (before := map decode (map entry (key_positions dlqKey (mkRecorder true log)))).
  assert (Hafter : map decode (map entry (key_positions dlqKey s1))
                   = before ++ [decode (pretty (length log), flat)]).
  { rewrite Hs1, key_positions_snoc, !map_app. reflexivity. }
  assert (Hbefore : length before = length (key_entries dlqKey (mkRecorder true log))).
  { subst before. by rewrite !length_map, key_positions_length. }
  exists before, (decode (pretty (length log), flat)).
  split; [apply Hpeek|]. split.
  { rewrite <- Hafter. rewrite Hs1. apply Hpeek. }
  split.
  { intros Hlimit.
    rewrite <- (take_ge (before ++ [decode (pretty (length log), flat)])
                        (Z.to_nat limit)) at 1
      by (rewrite length_app; cbn [length]; lia).
    rewrite <- Hafter. rewrite Hs1. apply Hpeek. }
  assert (Hobj : decode (pretty (length log), flat)
                 = <["failedAt" := JStr isoNow]>
                     (<["deliveries" := JStr (pretty deliveries)]>
                        (<["reason" := JStr reason]>
                           (<["headers" := read (JSON_stringify headers)]>
                              (<["payload" := read (JSON_stringify payload)]>
                                 (<["originalMsgId" := JStr msgId]>
                                    {[ "id" := JStr (pretty (length log)) ]}))))))
    by reflexivity.
  rewrite Hobj. cbn [rec_log].
  split; [|split; [|split; [|split; [|split; [|split; [|split; [|split]]]]]]].
  - repeat (rewrite lookup_insert_ne by discriminate). apply lookup_singleton_eq.
  - repeat (rewrite lookup_insert_ne by discriminate). apply lookup_insert_eq.
  - repeat (rewrite lookup_insert_ne by discriminate). apply lookup_insert_eq.
  - repeat (rewrite lookup_insert_ne by discriminate). apply lookup_insert_eq.
  - repeat (rewrite lookup_insert_ne by discriminate). apply lookup_insert_eq.
  - repeat (rewrite lookup_insert_ne by discriminate). apply lookup_insert_eq.
  - apply lookup_insert_eq.
  - rewrite Hbefore. apply Hlen.
  - rewrite Hbefore, Hs1, Hlen, key_entries_snoc, length_app. cbn [length].
    do 2 f_equal. lia.
Qed.

End OnRecorder.

(** A second dead letter with a number payload, read back through a reader
    of the literals [123] and [true]: a peek of two entries returns it after
    the first one, under the id 1; a peek of one entry does not return
    it. *)
Lemma sendToDeadLetter_then_peekDlq_witness :
  let md := mkManagerDefaults "default" "default" "cw:" 100000 in
  let s0 := snd (sendToDeadLetter recorder json_text "t" md "orders" "5-0"
                   (JStr "true") (JStr "h") "first" 1 (mkScope None None)
                   (mkRecorder true [])) in
  let s1 := snd (sendToDeadLetter recorder json_text "t" md "orders" "7-0"
                   (JStr "123") (JStr "h") "boom" 3 (mkScope None None) s0) in
  (exists first obj,
    fst (peekDlq recorder Codecs.literal_parse md "orders" 2 (mkScope None None) s1)
    = Return [first; obj]
    /\ obj !! "id" = Some (JStr "1")
    /\ obj !! "payload" = Some (JNum 123)
    /\ obj !! "deliveries" = Some (JStr "3"))
  /\ (exists first,
    fst (peekDlq recorder Codecs.literal_parse md "orders" 1 (mkScope None None) s1)
    = Return [first]
    /\ first !! "reason" = Some (JStr "first")).
Proof.
  intros md s0 s1. split.
  - destruct (sendToDeadLetter_then_peekDlq Codecs.literal_parse json_text "t" md
                "orders" "7-0" (JStr "123") (JStr "h") "boom" 3 2 (mkScope None None)
                s0 eq_refl ltac:(vm_compute; reflexivity))
      as (before & obj & Hbefore & _ & Hafter & Hid & _ & _ & Hd & Hp & _ & _ & Hn & _).
    fold s1 in Hafter.
    assert (Hl : length before = 1%nat).
    { change (getDlqLength recorder md "orders" (mkScope None None) s0)
        with (@Return nat 1%nat, s0) in Hn. by injection Hn as <-. }
    destruct before as [|first [|? ?]]; try discriminate Hl.
    exists first, obj. rewrite Hafter by (cbn; lia). auto.
  - eexists. split; [vm_compute; reflexivity|]. vm_compute. reflexivity.
Defined.

End DlqProps.

(* ===================================================================== *)
(** ** src/bus/producer.ts and src/bus/consumer.ts: what is published and
       what is decoded *)
(* ===================================================================== *)

Module DecodeProps.
Import Bus Decode.

Section WithJSON.

Variable JSON_parse : string -> option jsval.
Variable JSON_stringify : jsval -> string.
Variable hashValue : jsval -> string.
Variable isoNow : string.
Variable d : ProducerDefaults.

(** X29: when the store returns the fields of an entry as [publish] wrote
    them, and [JSON.parse] reads back what [JSON.stringify] wrote, the
    consumer decodes the headers as published and a payload that is not a
    string as published.  A string payload is parsed a second time: it
    arrives as the value its content parses to, and when its content is not
    JSON text the entry is taken for malformed and skipped. *)
Theorem decode_published_fields (payload : jsval) (hs : list (string * jsval)) :
  JSON_parse (JSON_stringify payload) = Some payload ->
  JSON_parse (JSON_stringify (JObj hs)) = Some (JObj hs) ->
  decode JSON_parse
         (published_fields JSON_stringify hashValue isoNow d payload (JObj hs))
  = match payload with
    | JStr s =>
        match JSON_parse s with
        | Some v => Some (v, JObj hs)
        | None => None
        end
    | v => Some (v, JObj hs)
    end.
Proof.
  intros Hp Hh. unfold decode. cbv zeta.
  set (data := Codecs.fromFlatArray JSON_parse _).
  assert (Hdata : Codecs.own data !! "payload" = Some payload
                  /\ Codecs.own data !! "headers" = Some (JObj hs)).
  { subst data. unfold published_fields, publish_args, Codecs.fromFlatArray.
    cbn [app drop Codecs.toFlatArray_entries Codecs.fromFlatArray_loop].
    rewrite !CodecsProps.assign_other by discriminate. cbn [Codecs.own].
    split; repeat (rewrite lookup_insert_ne by discriminate);
      rewrite lookup_insert_eq; unfold Codecs.parse_or_keep.
    - by rewrite Hp.
    - by rewrite Hh. }
  destruct Hdata as [Hpl Hhd]. unfold field. rewrite Hpl, Hhd. cbn [default js_truthy].
  by destruct payload.
Qed.

End WithJSON.

(** With a reader of a few literals: a number payload comes back, the
    string payload ["123"] arrives as the number 123 and the string payload
    ["hello"] is skipped. *)
Lemma decode_published_fields_witness :
  let d := mkProducerDefaults "default" "default" "cw:" 100000 16 in
  let parse := fun s : string =>
    if bool_decide (s = "{}") then Some (JObj [])
    else if bool_decide (s = "'123'") then Some (JStr "123")
    else if bool_decide (s = "'hello'") then Some (JStr "hello")
    else Codecs.literal_parse s in
  let stringify := fun v : jsval =>
    match v with
    | JObj _ => "{}"
    | JStr s => "'" +:+ s +:+ "'"
    | _ => "123"
    end in
  decode parse (published_fields stringify stringify "t" d (JNum 123) (JObj []))
    = Some (JNum 123, JObj [])
  /\ decode parse (published_fields stringify stringify "t" d (JStr "123") (JObj []))
     = Some (JNum 123, JObj [])
  /\ decode parse (published_fields stringify stringify "t" d (JStr "hello") (JObj []))
     = None.
Proof.
  intros d parse stringify.
  split; [|split].
  - exact (decode_published_fields parse stringify stringify "t" d (JNum 123) []
             eq_refl eq_refl).
  - exact (decode_published_fields parse stringify stringify "t" d (JStr "123") []
             eq_refl eq_refl).
  - exact (decode_published_fields parse stringify stringify "t" d (JStr "hello") []
             eq_refl eq_refl).
Defined.

End DecodeProps.
